(** * book-scan: the AR optimizer of [src/main.js]

    A shallow embedding of [performCleanup], of the [AROptimizer] object and
    of the page-level listeners of [src/main.js], together with the event
    loop they run on, followed by the properties of the resource-pressure
    specification checked against them.

    The page is single threaded: a callback (timer, interval or event
    listener) runs to completion, then the promise reactions it queued run,
    and only then the next callback starts.  The embedding keeps that shape:
    callbacks are programs of a small state-and-exception monad that also
    collects the calls they make on the host objects; [macrotask] runs one
    callback followed by the queued reactions. *)

From Stdlib Require Import ZArith QArith Bool Lia.
From Stdlib Require PrimFloat Uint63 FloatOps.
From stdpp Require Import base list strings sorting.

Local Open Scope Z_scope.

(** ** Host objects *)

(** A [<video>] element: the three properties [performCleanup] reads or
    writes.  [currentTime] is a number of seconds in the browser; the code
    only ever writes [0] to it. *)
Record video := Video {
  paused : bool;
  currentTime : Z;
  src : string
}.

(** One entry of [scene.renderer.info.memory.textures] when that value is an
    array: a falsy entry, or an object whose [dispose] property is absent
    ([None]) or a function that returns ([Some false]) or throws
    ([Some true]). *)
Inductive texture :=
| TexFalsy
| TexObject (dispose : option bool).

(** The value of [scene.renderer.info.memory.textures]: falsy (replaced by
    [[]]), an array, or some other truthy value, which [Array.isArray]
    rejects. *)
Inductive texture_registry :=
| RegFalsy
| RegArray (ts : list texture)
| RegOther.

(** The WebGL context: [getParameter(MAX_TEXTURE_IMAGE_UNITS)]. *)
Record gl_context := GlContext {
  MAX_TEXTURE_IMAGE_UNITS : nat
}.

Record renderer := Renderer {
  getContext : option gl_context;
  memory_textures : texture_registry
}.

(** [scene.systems['mindar-image-system']]: whether [stop()] and [start()]
    throw. *)
Record ar_system := ArSystem {
  stop_throws : bool;
  start_throws : bool
}.

Record scene := Scene {
  scene_renderer : option renderer;
  mindar_image_system : option ar_system
}.

(** What the page finds in its environment. [window_gc] is [None] when the
    host exposes no [gc], [Some b] when it does and the call throws iff [b].
    [performance_memory] is ['memory' in performance].  [loadingProgress]
    and [loadingScreen] tell whether [getElementById] finds
    [#loading-progress] and [#loading-screen]. *)
Record host := Host {
  a_scene : option scene;
  window_gc : option bool;
  performance_memory : bool;
  loadingProgress : bool;
  loadingScreen : bool
}.

(** ** Calls on the host, timers and promise reactions *)

Inductive tex_target := TEXTURE_2D | TEXTURE_CUBE_MAP.
Inductive buf_target := ARRAY_BUFFER | ELEMENT_ARRAY_BUFFER.

(** Callbacks handed to [setTimeout]. *)
Inductive task :=
| RestoreSrc (i : nat) (s : string)   (* () => { video.src = src; } *)
| StartAr                             (* () => { arSystem.start(); } *)
| DecayError.                         (* () => { errorCount = max(0, errorCount - 1) } *)

(** Promise reactions queued by the callbacks. *)
Inductive microtask :=
| FinallyClear                 (* .finally(() => { this.isProcessing = false; }) *)
| ErrorResume (full : bool).   (* the rest of the arError listener after its await *)

(** The calls a callback makes on the host, in the order it makes them.
    [EPerformCleanup] records that [performCleanup] was entered and
    [EUncaught] that an exception left a callback; the others are calls of
    the source. *)
Inductive effect :=
| EPerformCleanup (fullCleanup : bool)
| EVideoPause (i : nat)
| EVideoSeek (i : nat) (t : Z)
| EVideoSrc (i : nat) (s : string)
| EVideoLoad (i : nat)
| ETextureDispose (j : nat)
| EActiveTexture (texUnit : nat)
| EBindTexture (target : tex_target)
| EBindBuffer (target : buf_target)
| EBindRenderbuffer
| EBindFramebuffer
| EGc
| EWarn (msg : string)
| EArStop
| EArStart
| ESetTimeout (id : nat) (cb : task) (delay : Z)
| EUncaught.

(** ** Page state *)

(** The fields of the [AROptimizer] object.  [lastCleanup] is set when the
    script loads and never read; [errorCount] is a JavaScript number that
    only takes small integer values. *)
Record AROptimizer := Optimizer {
  lastCleanup : Z;
  errorCount : Z;
  isProcessing : bool
}.

Record state := State {
  clock : Z;                          (* current time, in ms *)
  hidden : bool;                      (* document.hidden *)
  opt : AROptimizer;
  videos : list video;                (* document.querySelectorAll('video') *)
  timers : list (nat * (Z * task));   (* pending timeouts: id, due time, callback *)
  next_id : nat;
  micro : list microtask;             (* queued promise reactions *)
  log : list (Z * effect)             (* time-stamped calls made so far *)
}.

(** Field updates. *)
Definition set_clock (t : Z) (s : state) : state :=
  State t (hidden s) (opt s) (videos s) (timers s) (next_id s) (micro s) (log s).
Definition set_hidden (b : bool) (s : state) : state :=
  State (clock s) b (opt s) (videos s) (timers s) (next_id s) (micro s) (log s).
Definition set_opt (o : AROptimizer) (s : state) : state :=
  State (clock s) (hidden s) o (videos s) (timers s) (next_id s) (micro s) (log s).
Definition set_videos (vs : list video) (s : state) : state :=
  State (clock s) (hidden s) (opt s) vs (timers s) (next_id s) (micro s) (log s).
Definition set_timers (ts : list (nat * (Z * task))) (n : nat) (s : state) : state :=
  State (clock s) (hidden s) (opt s) (videos s) ts n (micro s) (log s).
Definition set_micro (q : list microtask) (s : state) : state :=
  State (clock s) (hidden s) (opt s) (videos s) (timers s) (next_id s) q (log s).
Definition set_log (l : list (Z * effect)) (s : state) : state :=
  State (clock s) (hidden s) (opt s) (videos s) (timers s) (next_id s) (micro s) l.

Definition set_errorCount (n : Z) (o : AROptimizer) : AROptimizer :=
  Optimizer (lastCleanup o) n (isProcessing o).
Definition set_isProcessing (b : bool) (o : AROptimizer) : AROptimizer :=
  Optimizer (lastCleanup o) (errorCount o) b.

(** ** The monad of callbacks

    A program takes the page state and gives back an outcome (a value, or
    [Throw] for a JavaScript exception), the new state and the calls it made.
    What was done before an exception stays done. *)

Inductive outcome (A : Type) :=
| Ret (a : A)
| Throw.
Arguments Ret {A} a.
Arguments Throw {A}.

Definition M (A : Type) : Type := state -> outcome A * state * list effect.

Definition ret {A} (a : A) : M A := fun s => (Ret a, s, []).

Definition bind {A B} (m : M A) (f : A -> M B) : M B := fun s =>
  match m s with
  | (Ret a, s1, e1) => let '(r, s2, e2) := f a s1 in (r, s2, e1 ++ e2)
  | (Throw, s1, e1) => (Throw, s1, e1)
  end.

Definition throw {A} : M A := fun s => (Throw, s, []).

(** [try { m } catch (e) { handler }] *)
Definition try_catch (m handler : M unit) : M unit := fun s =>
  match m s with
  | (Ret a, s1, e1) => (Ret a, s1, e1)
  | (Throw, s1, e1) => let '(r, s2, e2) := handler s1 in (r, s2, e1 ++ e2)
  end.

#[global] Instance M_ret : MRet M := @ret.
#[global] Instance M_bind : MBind M := fun A B f m => bind m f.

Definition gets {A} (f : state -> A) : M A := fun s => (Ret (f s), s, []).
Definition modify (f : state -> state) : M unit := fun s => (Ret tt, f s, []).
Definition emit (e : effect) : M unit := fun s => (Ret tt, s, [e]).
Definition when (b : bool) (m : M unit) : M unit := if b then m else ret tt.

(** A call on a host object that may throw: the call is made, then the
    exception, if any, is raised. *)
Definition call (e : effect) (throws : bool) : M unit :=
  emit e;; if throws then throw else ret tt.

(** [setTimeout(cb, delay)]: the callback becomes due [delay] ms from now. *)
Definition setTimeout (cb : task) (delay : Z) : M unit := fun s =>
  (Ret tt,
   set_timers (timers s ++ [(next_id s, (clock s + delay, cb))]) (S (next_id s)) s,
   [ESetTimeout (next_id s) cb delay]).

Definition queueMicrotask (k : microtask) : M unit :=
  modify (fun s => set_micro (micro s ++ [k]) s).

(** [xs.forEach((x, i) => f i x)] and [for (let i = from; i < from + n; i++)]. *)
Fixpoint forEach {A} (f : nat -> A -> M unit) (i : nat) (xs : list A) : M unit :=
  match xs with
  | [] => ret tt
  | x :: xs' => f i x;; forEach f (S i) xs'
  end.

Fixpoint for_loop (f : nat -> M unit) (from n : nat) : M unit :=
  match n with
  | O => ret tt
  | S n' => f from;; for_loop f (S from) n'
  end.

(** ** [performCleanup] *)

Definition update_video (i : nat) (f : video -> video) : M unit :=
  modify (fun s =>
    match videos s !! i with
    | Some v => set_videos (<[i := f v]> (videos s)) s
    | None => s
    end).

Definition video_pause (i : nat) : M unit :=
  emit (EVideoPause i);;
  update_video i (fun v => Video true (currentTime v) (src v)).
Definition video_set_currentTime (i : nat) (t : Z) : M unit :=
  emit (EVideoSeek i t);;
  update_video i (fun v => Video (paused v) t (src v)).
Definition video_set_src (i : nat) (u : string) : M unit :=
  emit (EVideoSrc i u);;
  update_video i (fun v => Video (paused v) (currentTime v) u).
Definition video_load (i : nat) : M unit := emit (EVideoLoad i).

(** The body of [videos.forEach(video => ...)] for the [i]-th element. *)
Definition cleanup_video (fullCleanup : bool) (i : nat) : M unit :=
  ov ← gets (fun s => videos s !! i);
  match ov with
  | Some v =>
      if negb (paused v) then
        video_pause i;;
        video_set_currentTime i 0;;
        when fullCleanup (
          s0 ← gets (fun s => default EmptyString (src <$> videos s !! i));
          video_set_src i EmptyString;;
          video_load i;;
          setTimeout (RestoreSrc i s0) 100)
      else ret tt
  | None => ret tt
  end.

Definition dispose_texture (j : nat) (t : texture) : M unit :=
  match t with
  | TexObject (Some throws) => call (ETextureDispose j) throws
  | _ => ret tt
  end.

Definition cleanup_textures (reg : texture_registry) : M unit :=
  match reg with
  | RegArray ts => forEach dispose_texture 0%nat ts
  | RegFalsy => forEach dispose_texture 0%nat []
  | RegOther => ret tt
  end.

Definition unbind_unit (u : nat) : M unit :=
  emit (EActiveTexture u);;
  emit (EBindTexture TEXTURE_2D);;
  emit (EBindTexture TEXTURE_CUBE_MAP).

Definition cleanup_gl (gl : gl_context) : M unit :=
  for_loop unbind_unit 0%nat (MAX_TEXTURE_IMAGE_UNITS gl);;
  emit (EBindBuffer ARRAY_BUFFER);;
  emit (EBindBuffer ELEMENT_ARRAY_BUFFER);;
  emit EBindRenderbuffer;;
  emit EBindFramebuffer.

Definition cleanup_gc (gc : option bool) : M unit :=
  match gc with
  | Some throws => try_catch (call EGc throws) (emit (EWarn "GC not available"))
  | None => ret tt
  end.

Definition cleanup_ar (ar : ar_system) : M unit :=
  try_catch
    (call EArStop (stop_throws ar);;
     setTimeout StartAr 1000)
    (emit (EWarn "AR system cleanup error:")).

(** [// Clean up video resources] *)
Definition cleanup_videos (fullCleanup : bool) : M unit :=
  vs ← gets videos;
  forEach (fun i _ => cleanup_video fullCleanup i) 0%nat vs.

(** [// Clean up WebGL context and textures]: the block under
    [if (scene?.renderer)], which also holds the [window.gc] call. *)
Definition cleanup_webgl (h : host) : M unit :=
  match a_scene h ≫= scene_renderer with
  | Some r =>
      let gl := getContext r in
      cleanup_textures (memory_textures r);;
      match gl with
      | Some g => cleanup_gl g
      | None => ret tt
      end;;
      cleanup_gc (window_gc h)
  | None => ret tt
  end.

(** [// Clean up AR system if needed] *)
Definition cleanup_ar_system (h : host) (fullCleanup : bool) : M unit :=
  let arSystem := a_scene h ≫= mindar_image_system in
  match arSystem with
  | Some ar => when fullCleanup (cleanup_ar ar)
  | None => ret tt
  end.

(** The function returns [Promise.resolve()]: a promise that is already
    resolved, modelled by a normal return. [EPerformCleanup] marks the call
    itself in the log. *)
Definition performCleanup (h : host) (fullCleanup : bool) : M unit :=
  emit (EPerformCleanup fullCleanup);;
  cleanup_videos fullCleanup;;
  cleanup_webgl h;;
  cleanup_ar_system h fullCleanup;;
  ret tt.

(** ** The [AROptimizer] callbacks and the page-level listeners *)

Definition set_processing (b : bool) : M unit :=
  modify (fun s => set_opt (set_isProcessing b (opt s)) s).
Definition set_errors (n : Z) : M unit :=
  modify (fun s => set_opt (set_errorCount n (opt s)) s).

(** The idiom shared by the interval callbacks:
    [this.isProcessing = true;
     performCleanup(x).finally(() => { this.isProcessing = false; });]
    [performCleanup] is an ordinary function: the promise it returns is
    already resolved, so the [finally] reaction is queued as soon as it is
    attached; an exception inside [performCleanup] leaves the callback before
    [finally] is reached. *)
Definition guarded_pass (h : host) (fullCleanup : bool) : M unit :=
  set_processing true;;
  performCleanup h fullCleanup;;
  queueMicrotask FinallyClear.

(** The two interval callbacks of [setupAutoCleanup]. *)
Definition autoCleanup (h : host) (fullCleanup : bool) : M unit :=
  hid ← gets hidden;
  busy ← gets (fun s => isProcessing (opt s));
  when (negb hid && negb busy) (guarded_pass h fullCleanup).

(** The [arError] listener, up to its [await]. *)
Definition arErrorListener (h : host) : M unit :=
  n ← gets (fun s => errorCount (opt s));
  set_errors (n + 1);;
  n' ← gets (fun s => errorCount (opt s));
  if 3 <? n' then
    performCleanup h true;;
    queueMicrotask (ErrorResume true)
  else
    performCleanup h false;;
    queueMicrotask (ErrorResume false).

(** JavaScript numbers are IEEE 754 doubles.  [round53 n] is [n] rounded to
    53 significant bits, to nearest, ties to even: the double nearest to the
    integer [n] when the exponent range allows it. *)
Definition round53 (n : Z) : Z :=
  let a := Z.abs n in
  let s := Z.max 0 (Z.log2 a - 52) in
  let q := a / 2 ^ s in
  let r := a mod 2 ^ s in
  let q' := if (2 ^ s <? 2 * r) || ((2 ^ s =? 2 * r) && Z.odd q) then q + 1 else q in
  Z.sgn n * (q' * 2 ^ s).

(** A result that rounds to [2^1024] or beyond overflows to [Infinity],
    which [2^1024] stands for. *)
Definition INFINITY : Z := 2 ^ 1024.

(** The Number that holds the byte count [z]: [z] itself up to [2^53], the
    nearest double beyond. *)
Definition to_Number (z : Z) : Z :=
  let r := round53 z in
  if INFINITY <=? Z.abs r then Z.sgn r * INFINITY else r.

(** The literal [0.8] is the double [3602879701896397 / 2^52]. *)
Definition DOUBLE_0_8 : Z := 3602879701896397.

(** [x * 0.8] for an integer-valued Number [x], in units of [2^-52]: the
    exact product [x * 3602879701896397 / 2^52] rounded to a double. *)
Definition times_0_8 (x : Z) : Z :=
  if Z.abs x =? INFINITY then x * 2 ^ 52 else round53 (x * DOUBLE_0_8).

(** [usedJSHeapSize > jsHeapSizeLimit * 0.8], on doubles as the browser
    evaluates it.  The two sizes are byte counts. *)
Definition over_threshold (usedJSHeapSize jsHeapSizeLimit : Z) : bool :=
  times_0_8 (to_Number jsHeapSizeLimit) <? to_Number usedJSHeapSize * 2 ^ 52.

(** The interval callback of [setupMemoryMonitoring], given the two numbers
    it reads from [performance.memory]. *)
Definition memoryMonitor (h : host) (usedJSHeapSize jsHeapSizeLimit : Z) : M unit :=
  when (over_threshold usedJSHeapSize jsHeapSizeLimit) (
    busy ← gets (fun s => isProcessing (opt s));
    when (negb busy) (guarded_pass h true)).

(** The [visibilitychange] listener, and the [beforeunload] and [pagehide]
    ones; the promise they get back is dropped. *)
Definition visibilityListener (h : host) : M unit :=
  hid ← gets hidden;
  when hid (performCleanup h true).

Definition unloadListener (h : host) : M unit :=
  performCleanup h true.

(** Promise reactions. *)
Definition run_microtask (k : microtask) : M unit :=
  match k with
  | FinallyClear => set_processing false
  | ErrorResume full =>
      when full (set_errors 0);;
      setTimeout DecayError 300000
  end.

(** Timeout callbacks.  [StartAr] calls [start()] on the tracking system the
    scene holds. *)
Definition run_task (h : host) (k : task) : M unit :=
  match k with
  | RestoreSrc i s0 => video_set_src i s0
  | StartAr =>
      match a_scene h ≫= mindar_image_system with
      | Some ar => call EArStart (start_throws ar)
      | None => ret tt
      end
  | DecayError =>
      n ← gets (fun s => errorCount (opt s));
      set_errors (Z.max 0 (n - 1))
  end.

(** ** Registration *)

Inductive callback :=
| LightCleanupCb | FullCleanupCb | MemoryCb
| ArErrorCb | VisibilityCb | BeforeUnloadCb | PageHideCb.

Inductive registration :=
| SetInterval (cb : callback) (period : Z)
| AddEventListener (event : string) (cb : callback).

Definition setupAutoCleanup : list registration :=
  [SetInterval LightCleanupCb 120000; SetInterval FullCleanupCb 600000].

Definition setupErrorHandling (h : host) : list registration :=
  match a_scene h with
  | None => []
  | Some _ => [AddEventListener "arError" ArErrorCb]
  end.

Definition setupMemoryMonitoring (h : host) : list registration :=
  if performance_memory h then [SetInterval MemoryCb 30000] else [].

Definition initialize (h : host) : list registration :=
  setupAutoCleanup ++ setupErrorHandling h ++ setupMemoryMonitoring h.

(** The [DOMContentLoaded] listener writes [loadingScreen.style],
    [loadingProgress.style] and reads [scene.renderer] before it calls
    [AROptimizer.initialize()]; when one of the two elements, the scene or
    its renderer is missing it stops there with a [TypeError]. *)
Definition domContentLoaded (h : host) : list registration :=
  if negb (loadingScreen h) then []
  else if negb (loadingProgress h) then []
  else
    match a_scene h ≫= scene_renderer with
    | Some _ => initialize h
    | None => []
    end.

(** The listeners added at the end of the script. *)
Definition top_level : list registration :=
  [AddEventListener "visibilitychange" VisibilityCb;
   AddEventListener "beforeunload" BeforeUnloadCb;
   AddEventListener "pagehide" PageHideCb].

Definition page (h : host) : list registration :=
  top_level ++ domContentLoaded h.

Definition callback_eqb (a b : callback) : bool :=
  match a, b with
  | LightCleanupCb, LightCleanupCb | FullCleanupCb, FullCleanupCb
  | MemoryCb, MemoryCb | ArErrorCb, ArErrorCb | VisibilityCb, VisibilityCb
  | BeforeUnloadCb, BeforeUnloadCb | PageHideCb, PageHideCb => true
  | _, _ => false
  end.

Definition registered (cb : callback) (r : registration) : bool :=
  match r with
  | SetInterval cb' _ | AddEventListener _ cb' => callback_eqb cb cb'
  end.

Definition armed (h : host) (cb : callback) : bool :=
  existsb (registered cb) (page h).

(** ** The event loop *)

(** What the browser delivers: an interval tick (for the heap sampler, with
    the two numbers [performance.memory] holds at that moment), an event, or
    the expiry of a pending timeout. *)
Inductive stimulus :=
| LightTimer
| FullTimer
| HeapTimer (usedJSHeapSize jsHeapSizeLimit : Z)
| ArError
| VisibilityChange (nowHidden : bool)
| BeforeUnload
| PageHide
| Timeout (id : nat).

Definition find_timer (id : nat) (ts : list (nat * (Z * task))) : option (Z * task) :=
  snd <$> List.find (fun p => Nat.eqb (fst p) id) ts.

Definition remove_timer (id : nat) (ts : list (nat * (Z * task))) : list (nat * (Z * task)) :=
  List.filter (fun p => negb (Nat.eqb (fst p) id)) ts.

(** A timeout runs once, and never before it is due. *)
Definition fire_timeout (h : host) (id : nat) : M unit :=
  ot ← gets (fun s => find_timer id (timers s));
  now ← gets clock;
  match ot with
  | Some (due, k) =>
      when (due <=? now) (
        modify (fun s => set_timers (remove_timer id (timers s)) (next_id s) s);;
        run_task h k)
  | None => ret tt
  end.

Definition dispatch (h : host) (st : stimulus) : M unit :=
  match st with
  | LightTimer => when (armed h LightCleanupCb) (autoCleanup h false)
  | FullTimer => when (armed h FullCleanupCb) (autoCleanup h true)
  | HeapTimer u l => when (armed h MemoryCb) (memoryMonitor h u l)
  | ArError => when (armed h ArErrorCb) (arErrorListener h)
  | VisibilityChange b =>
      modify (set_hidden b);;
      when (armed h VisibilityCb) (visibilityListener h)
  | BeforeUnload => when (armed h BeforeUnloadCb) (unloadListener h)
  | PageHide => when (armed h PageHideCb) (unloadListener h)
  | Timeout id => fire_timeout h id
  end.

(** An exception (or a rejection) that leaves a callback is reported by the
    browser and the loop goes on. *)
Definition top (m : M unit) : M unit := try_catch m (emit EUncaught).

(** Runs the reactions queued by the callback.  No reaction of this page
    queues another one. *)
Definition drain : M unit :=
  q ← gets micro;
  modify (set_micro []);;
  forEach (fun _ k => top (run_microtask k)) 0%nat q.

(** One turn of the loop at time [t] (the clock never goes back). *)
Definition stamp (t : Z) (es : list effect) : list (Z * effect) := map (pair t) es.

Definition macrotask (h : host) (s : state) (ev : Z * stimulus) : state :=
  let s0 := set_clock (Z.max (clock s) (fst ev)) s in
  let '(_, s1, es) := (top (dispatch h (snd ev));; drain) s0 in
  set_log (log s1 ++ stamp (clock s0) es) s1.

Definition run (h : host) (s : state) (evs : list (Z * stimulus)) : state :=
  fold_left (macrotask h) evs s.

(** The page once loaded, at time [0], with the given [<video>] elements. *)
Definition init (vs : list video) (docHidden : bool) : state :=
  State 0 docHidden (Optimizer 0 0 false) vs [] 0%nat [] [].

(** The levels of the passes started so far, oldest first. *)
Definition pass_level (e : effect) : option bool :=
  match e with
  | EPerformCleanup full => Some full
  | _ => None
  end.
Definition passes (s : state) : list bool := omap pass_level (log s).*2.

(** * Definitions used by the statements and the proofs *)

(** What the [forEach] body makes of a video, and the calls it issues for it
    ([id] is the identifier its [setTimeout] receives). *)
Definition video_after (fullCleanup : bool) (v : video) : video :=
  if paused v then v
  else Video true 0 (if fullCleanup then EmptyString else src v).

Definition video_calls (fullCleanup : bool) (i : nat) (v : video) (id : nat)
  : list effect :=
  if paused v then []
  else [EVideoPause i; EVideoSeek i 0] ++
       (if fullCleanup
        then [EVideoSrc i EmptyString; EVideoLoad i; ESetTimeout id (RestoreSrc i (src v)) 100]
        else []).

(** Unfolds the monad operations and the one-line host calls. *)
Ltac munfold :=
  cbv [mbind M_bind bind mret M_ret ret gets modify emit when call throw try_catch
       video_pause video_set_currentTime video_set_src video_load update_video
       setTimeout queueMicrotask set_processing set_errors].

(** The calls that concern the [i]-th video, the scheduling of its source
    restore included. *)
Definition touches (i : nat) (e : effect) : bool :=
  match e with
  | EVideoPause j | EVideoSeek j _ | EVideoSrc j _ | EVideoLoad j
  | ESetTimeout _ (RestoreSrc j _) _ => Nat.eqb j i
  | _ => false
  end.

(** The step of the pass a call belongs to: 1 media, 2 texture disposal,
    3 unbinding, 4 GC hint, 5 tracking stop, 6 tracking restart. *)
Definition phase (e : effect) : nat :=
  match e with
  | EPerformCleanup _ => 0
  | EVideoPause _ | EVideoSeek _ _ | EVideoSrc _ _ | EVideoLoad _
  | ESetTimeout _ (RestoreSrc _ _) _ => 1
  | ETextureDispose _ => 2
  | EActiveTexture _ | EBindTexture _ | EBindBuffer _
  | EBindRenderbuffer | EBindFramebuffer => 3
  | EGc => 4
  | EWarn msg => if String.eqb msg "GC not available" then 4 else 6
  | EArStop => 5
  | ESetTimeout _ StartAr _ => 6
  | _ => 7
  end.

(** [k <= i < k + n]: the indices a loop started at [k] over [n] elements
    visits. *)
Definition in_range (k n i : nat) : bool := bool_decide (k ≤ i < k + n)%nat.

(** A pass touches neither the clock, nor the visibility, nor the optimizer,
    nor the reaction queue, nor the log. *)
Definition same_page (s s' : state) : Prop :=
  clock s' = clock s ∧ hidden s' = hidden s ∧ opt s' = opt s ∧
  micro s' = micro s ∧ log s' = log s.

(** What the loop over the videos does, started at index [k] over [n]
    elements: the state, the calls per video, the timers it adds. *)
Record videos_spec (full : bool) (k n : nat) (s s' : state) (es : list effect) : Prop := {
  vs_page : same_page s s';
  vs_videos : ∀ i, videos s' !! i =
      (if in_range k n i then video_after full else id) <$> videos s !! i;
  vs_calls : ∀ i,
      match (if in_range k n i then videos s !! i else None) with
      | Some v => ∃ id, List.filter (touches i) es = video_calls full i v id ∧
                        (full = true → paused v = false →
                         (next_id s ≤ id)%nat ∧
                         (id, (clock s + 100, RestoreSrc i (src v))) ∈ timers s')
      | None => List.filter (touches i) es = []
      end;
  vs_phase : Forall (λ e, phase e = 1%nat) es;
  vs_timers : ∃ new, timers s' = timers s ++ new ∧
      next_id s' = (next_id s + length new)%nat ∧
      new.*1 = seq (next_id s) (length new) ∧
      Forall (λ t, fst t.2 = clock s + 100 ∧
                   ∃ j v, videos s !! j = Some v ∧ paused v = false ∧
                          snd t.2 = RestoreSrc j (src v)) new
}.

(** Calls in the order of their steps, and calls whose steps lie between two
    bounds. *)
Definition ordered (es : list effect) : Prop :=
  StronglySorted (λ a b, (phase a ≤ phase b)%nat) es.

Definition within (lo hi : nat) (es : list effect) : Prop :=
  Forall (λ e, (lo ≤ phase e ≤ hi)%nat) es.

(** A texture whose [dispose()] throws; a registry that holds one. *)
Definition throwing_texture (t : texture) : bool :=
  match t with
  | TexObject (Some true) => true
  | _ => false
  end.

Definition registry_throws (reg : texture_registry) : bool :=
  match reg with
  | RegArray ts => existsb throwing_texture ts
  | _ => false
  end.

(** The four unbindings after the loop over the texture units. *)
Definition unbind_tail : list effect :=
  [EBindBuffer ARRAY_BUFFER; EBindBuffer ELEMENT_ARRAY_BUFFER;
   EBindRenderbuffer; EBindFramebuffer].

(** The calls of the [if (window.gc)] statement. *)
Definition gc_calls (gc : option bool) : list effect :=
  match gc with
  | None => []
  | Some false => [EGc]
  | Some true => [EGc; EWarn "GC not available"]
  end.

(** Whether a pass on this host meets a [dispose()] that throws. *)
Definition dispose_throws (h : host) : bool :=
  match a_scene h ≫= scene_renderer with
  | Some r => registry_throws (memory_textures r)
  | None => false
  end.

(** What the WebGL block does: it leaves the state alone and issues the
    calls [es]. *)
Record webgl_spec (h : host) (es : list effect) : Prop := {
  wg_within : within 2 4 es;
  wg_ordered : ordered es;
  wg_abort : dispose_throws h = true → within 2 2 es;
  wg_none : a_scene h ≫= scene_renderer = None → es = [];
  wg_done : dispose_throws h = false →
    ∀ r, a_scene h ≫= scene_renderer = Some r →
    ∃ es0, es = es0 ++ gc_calls (window_gc h) ∧ within 2 3 es0 ∧
      (∀ ts k, memory_textures r = RegArray ts →
               ts !! k = Some (TexObject (Some false)) → ETextureDispose k ∈ es0) ∧
      (∀ g, getContext r = Some g →
            (∀ u, (u < MAX_TEXTURE_IMAGE_UNITS g)%nat → EActiveTexture u ∈ es0) ∧
            (∀ e, e ∈ unbind_tail → e ∈ es0))
}.

(** The calls of the tracking block, and whether it schedules [start()]. *)
Definition ar_calls (h : host) (full : bool) (id : nat) : list effect :=
  match a_scene h ≫= mindar_image_system with
  | Some ar =>
      if full then
        if stop_throws ar then [EArStop; EWarn "AR system cleanup error:"]
        else [EArStop; ESetTimeout id StartAr 1000]
      else []
  | None => []
  end.

Definition restart_scheduled (h : host) (full : bool) : bool :=
  match a_scene h ≫= mindar_image_system with
  | Some ar => full && negb (stop_throws ar)
  | None => false
  end.

(** The delay each kind of callback is scheduled with. *)
Definition delay_of (k : task) : Z :=
  match k with
  | RestoreSrc _ _ => 100
  | StartAr => 1000
  | DecayError => 300000
  end.

(** What a pass does, seen from the loop: [es] are its calls after the
    first. *)
Record pass_spec (h : host) (full : bool) (s s' : state) (es : list effect) : Prop := {
  ps_page : same_page s s';
  ps_within : within 1 6 es;
  ps_ordered : ordered (EPerformCleanup full :: es);
  ps_timers : ∃ new, timers s' = timers s ++ new ∧
      next_id s' = (next_id s + length new)%nat ∧
      new.*1 = seq (next_id s) (length new) ∧
      Forall (λ t, snd t.2 ≠ DecayError ∧ fst t.2 = clock s + delay_of (snd t.2)) new
}.

(** Every pending timeout carries an identifier already handed out. *)
Definition ids_fresh (s : state) : bool :=
  forallb (λ p, (p.1 <? next_id s)%nat) (timers s).

(** [errorCount = n], and the scheduling of a decay. *)
Definition with_errors (n : Z) (s : state) : state :=
  set_opt (set_errorCount n (opt s)) s.

Definition with_decay (s : state) : state :=
  set_timers (timers s ++ [(next_id s, (clock s + 300000, DecayError))]) (S (next_id s)) s.

(** What one turn of the loop can do, whatever the stimulus. *)
Record turn_spec (h : host) (s s' : state) (es : list effect) : Prop := {
  tn_micro : micro s' = [];
  tn_clock : clock s' = clock s;
  tn_log : log s' = log s;
  tn_passes : (length (omap pass_level es) ≤ 1)%nat;
  tn_ids : ids_fresh s = true → ids_fresh s' = true;
  tn_errors : 0 ≤ errorCount (opt s) → 0 ≤ errorCount (opt s');
  tn_busy : isProcessing (opt s) = true → isProcessing (opt s') = true;
  tn_idle : dispose_throws h = false → isProcessing (opt s) = false →
            isProcessing (opt s') = false
}.

(** A scene with a renderer (two texture units) and a tracking system. *)
Definition demo_scene (reg : texture_registry) (ar : ar_system) : scene :=
  Scene (Some (Renderer (Some (GlContext 2)) reg)) (Some ar).

(** Everything present, nothing throws. *)
Definition healthy_host : host :=
  Host (Some (demo_scene (RegArray [TexObject (Some false)]) (ArSystem false false)))
       (Some false) true true true.

(** As [healthy_host], with one texture whose [dispose()] throws. *)
Definition failing_dispose_host : host :=
  Host (Some (demo_scene (RegArray [TexObject (Some true)]) (ArSystem false false)))
       (Some false) true true true.

(** As [healthy_host], with a tracking system whose [start()] throws. *)
Definition failing_start_host : host :=
  Host (Some (demo_scene (RegArray [TexObject (Some false)]) (ArSystem false true)))
       (Some false) true true true.

(** A page without [<a-scene>] on a host that exposes [gc]. *)
Definition no_scene_host : host := Host None (Some false) false true true.

(** One playing and one paused video. *)
Definition demo_videos : list video :=
  [Video false 5 "a.mp4"; Video true 7 "b.mp4"].

(** The page of [failing_dispose_host] after its first light-cleanup tick. *)
Definition stuck_state : state :=
  run failing_dispose_host (init demo_videos false) [(120000, LightTimer)].

(** The stimuli whose callbacks test [isProcessing]. *)
Definition guarded (st : stimulus) : bool :=
  match st with
  | LightTimer | FullTimer | HeapTimer _ _ => true
  | _ => false
  end.

(** A request that arrives while [isProcessing] is set starts no pass. *)
Definition dropped_while_in_flight (h : host) (s : state) (ev : Z * stimulus) : Prop :=
  isProcessing (opt s) = true → passes (macrotask h s ev) = passes s.

(** Three errors in quick succession on [healthy_host]. *)
Definition three_errors : state :=
  run healthy_host (init demo_videos false) [(10, ArError); (20, ArError); (30, ArError)].

(** [errorCount] is back to 0 after the turn of an [arError] event that
    found it at 3. *)
Definition reset_after_full (h : host) (s : state) (ev : Z * stimulus) : Prop :=
  errorCount (opt s) = 3 → errorCount (opt (macrotask h s ev)) = 0.

(** Three errors in quick succession on [failing_dispose_host]: each pass
    throws, so the count is 3. *)
Definition three_failed_errors : state :=
  run failing_dispose_host (init demo_videos false)
    [(10, ArError); (20, ArError); (30, ArError)].

(** Due times of the pending decay callbacks. *)
Definition decays (ts : list (nat * (Z * task))) : list Z :=
  omap (λ p, match p.2.2 with DecayError => Some p.2.1 | _ => None end) ts.

(** The Number [m * 2^e], for [0 <= m < 2^63], as a float of the kernel. *)
Definition float_of (p : Z * Z) : PrimFloat.float :=
  FloatOps.Z.ldexp (PrimFloat.of_uint63 (Uint63.of_Z p.1)) p.2.

(** [usedJSHeapSize > jsHeapSizeLimit * 0.8] on the floats of the kernel,
    [0.8] being the double [3602879701896397 * 2^-52]. *)
Definition over_threshold_float (usedJSHeapSize jsHeapSizeLimit : PrimFloat.float) : bool :=
  PrimFloat.ltb (PrimFloat.mul jsHeapSizeLimit (float_of (DOUBLE_0_8, -52))) usedJSHeapSize.

(** Sizes [m * 2^e] around the places where rounding matters: small ones,
    the neighbours of [0.8 * 2^52], of [2^52], of [2^53], and the largest
    Numbers. *)
Definition number_samples : list (Z * Z) :=
  [(0, 0); (1, 0); (4, 0); (5, 0); (79, 0); (80, 0); (81, 0); (100, 0);
   (2 ^ 50 - 1, 0); (2 ^ 50, 0); (1351111858245053, 0); (1688889822806316, 0);
   (3602879701896396, 0); (3602879701896397, 0); (3602879701896398, 0);
   (2 ^ 52, 0); (2 ^ 52 + 1, 0); (4503599627370499, 0); (5629499534213123, 0);
   (2 ^ 53 - 1, 0); (2 ^ 53, 0); (2 ^ 53 + 1, 0); (2 ^ 53 + 2, 0); (2 ^ 53 + 3, 0);
   (2 ^ 62 + 12345678901, 0); (2 ^ 63 - 1, 0); (5, 100); (4, 100); (2 ^ 53 - 1, 971);
   (1, 1023); (5, 1021); (1, 1024); (3, 1030)].

Definition agrees (used limit : Z * Z) : bool :=
  Bool.eqb (over_threshold (used.1 * 2 ^ used.2) (limit.1 * 2 ^ limit.2))
           (over_threshold_float (float_of used) (float_of limit)).


(** The calls of the loop over the texture units for one unit, and of the
    whole [if (gl)] block. *)
Definition unit_calls (u : nat) : list effect :=
  [EActiveTexture u; EBindTexture TEXTURE_2D; EBindTexture TEXTURE_CUBE_MAP].

Definition unbind_calls (g : gl_context) : list effect :=
  (seq 0 (MAX_TEXTURE_IMAGE_UNITS g) ≫= unit_calls) ++ unbind_tail.

(** The [dispose()] calls of [textures.forEach], started at index [j]. *)
Fixpoint dispose_calls (j : nat) (ts : list texture) : list effect :=
  match ts with
  | [] => []
  | TexObject (Some _) :: ts => ETextureDispose j :: dispose_calls (S j) ts
  | _ :: ts => dispose_calls (S j) ts
  end.

(** The calls of the block under [if (scene?.renderer)] when no [dispose()]
    throws. *)
Definition webgl_calls (h : host) : list effect :=
  match a_scene h ≫= scene_renderer with
  | Some rd =>
      match memory_textures rd with RegArray ts => dispose_calls 0 ts | _ => [] end ++
      match getContext rd with Some g => unbind_calls g | None => [] end ++
      gc_calls (window_gc h)
  | None => []
  end.

(** The calls of [videos.forEach], started at index [i] with [id] the next
    timeout identifier. *)
Fixpoint videos_calls (full : bool) (i id : nat) (vs : list video) : list effect :=
  match vs with
  | [] => []
  | v :: vs =>
      video_calls full i v id ++
      videos_calls full (S i) (if negb (paused v) && full then S id else id) vs
  end.

(** The number of videos that are playing. *)
Definition playing (vs : list video) : nat :=
  length (List.filter (λ v, negb (paused v)) vs).

(** All the calls of a Full pass in which no [dispose()] throws, in the
    order the pass makes them. *)
Definition full_pass_calls (h : host) (s : state) : list effect :=
  EPerformCleanup true ::
  videos_calls true 0 (next_id s) (videos s) ++
  webgl_calls h ++
  ar_calls h true (next_id s + playing (videos s)).

(** A renderer whose [getContext()] gives nothing, on a host whose [gc]
    throws. *)
Definition no_gl_host : host :=
  Host (Some (Scene (Some (Renderer None RegOther)) None)) (Some true) false true true.

(** The pass a stimulus starts, if any, and its level: the light timer a
    Light pass and the full timer a Full one, both only on a visible page
    with the guard clear; the heap sampler a Full pass above the threshold
    with the guard clear; [arError] a pass whose level depends on the
    incremented count; a change to hidden, [beforeunload] and [pagehide] a
    Full pass in all cases. *)
Definition starts_pass (h : host) (s : state) (st : stimulus) : list bool :=
  match st with
  | LightTimer =>
      if armed h LightCleanupCb && negb (hidden s) && negb (isProcessing (opt s))
      then [false] else []
  | FullTimer =>
      if armed h FullCleanupCb && negb (hidden s) && negb (isProcessing (opt s))
      then [true] else []
  | HeapTimer u l =>
      if armed h MemoryCb && over_threshold u l && negb (isProcessing (opt s))
      then [true] else []
  | ArError => if armed h ArErrorCb then [3 <? errorCount (opt s) + 1] else []
  | VisibilityChange b => if b then [true] else []
  | BeforeUnload | PageHide => [true]
  | Timeout _ => []
  end.

(** The optimizer after the turn of a stimulus. *)
Definition opt_next (h : host) (s : state) (st : stimulus) : AROptimizer :=
  let n := errorCount (opt s) in
  match st with
  | LightTimer | FullTimer | HeapTimer _ _ =>
      match starts_pass h s st with
      | [] => opt s
      | _ => set_isProcessing (dispose_throws h) (opt s)
      end
  | ArError =>
      if armed h ArErrorCb
      then set_errorCount
             (if dispose_throws h then n + 1 else if 3 <? n + 1 then 0 else n + 1) (opt s)
      else opt s
  | Timeout id =>
      match find_timer id (timers s) with
      | Some (due, DecayError) =>
          if due <=? clock s then set_errorCount (Z.max 0 (n - 1)) (opt s) else opt s
      | _ => opt s
      end
  | _ => opt s
  end.

(** What a turn leaves behind, stimulus by stimulus. *)
Record turn_exact (h : host) (s : state) (st : stimulus) (s' : state)
    (es : list effect) : Prop := {
  te_opt : opt s' = opt_next h s st;
  te_passes : omap pass_level es = starts_pass h s st;
  te_log : log s' = log s;
  te_clock : clock s' = clock s;
  te_micro : micro s' = [];
  te_hidden : hidden s' = match st with VisibilityChange b => b | _ => hidden s end
}.

(** [n] tracking errors in a row, at any times. *)
Definition burst (ts : list Z) : list (Z * stimulus) := (λ t, (t, ArError)) <$> ts.

(** ** Playback is never resumed *)

(** A paused video is still there, paused, at the same position. *)
Definition stays_paused (vs vs' : list video) : Prop :=
  length vs' = length vs ∧
  ∀ i v, vs !! i = Some v → paused v = true →
    ∃ v', vs' !! i = Some v' ∧ paused v' = true ∧ currentTime v' = currentTime v.

(** ** What is armed, and what a page without a renderer does *)

(** The passes of the page lifecycle listeners, which are added whatever the
    page holds. *)
Definition lifecycle_pass (st : stimulus) : list bool :=
  match st with
  | VisibilityChange true | BeforeUnload | PageHide => [true]
  | _ => []
  end.

(** A page with a scene, a renderer and [performance.memory], but without
    [#loading-screen]. *)
Definition no_loading_screen_host : host :=
  Host (Some (demo_scene (RegArray [TexObject (Some false)]) (ArSystem false false)))
       (Some false) true true false.

(** ** The [target-handler] component *)

(** What the components and the [DOMContentLoaded] listener call on the
    console and on the camera; [UUncaught] records that an exception left a
    callback. *)
Inductive ui_call :=
| ULog (msg : string)
| UWarn (msg : string)
| UError (msg : string)
| UVideoPlay
| UVideoPause
| UGetUserMedia
| UTrackStop (i : nat)
| UUncaught.

(** The entity the component is attached to: its [data-id] attribute
    ([None] when absent, which [getAttribute] reports as [null]) and, when
    [this.el.querySelector('a-gltf-model')] finds an element, the [visible]
    attribute of that element. *)
Record target_entity := TargetEntity {
  data_id : option string;
  gltf_visible : option (option string)
}.

Inductive tracking_event := TargetFound | TargetLost.

(** [`${x}`] for an attribute value. *)
Definition template_text (a : option string) : string := default "null" a.

Definition gltf_setAttribute_visible (value : string) (e : target_entity) : target_entity :=
  match gltf_visible e with
  | Some _ => TargetEntity (data_id e) (Some (Some value))
  | None => e
  end.

Definition target_handler_found (e : target_entity) : target_entity * list ui_call :=
  (gltf_setAttribute_visible "true" e,
   [ULog ("Target found for ID: " +:+ template_text (data_id e))]).

Definition target_handler_lost (e : target_entity) : target_entity * list ui_call :=
  (gltf_setAttribute_visible "false" e,
   [ULog ("Target lost for ID: " +:+ template_text (data_id e))]).

Definition target_handler (ev : tracking_event) (e : target_entity)
  : target_entity * list ui_call :=
  match ev with
  | TargetFound => target_handler_found e
  | TargetLost => target_handler_lost e
  end.

(** The entity after a sequence of tracking events, and the calls made. *)
Fixpoint target_handler_run (evs : list tracking_event) (e : target_entity)
  : target_entity * list ui_call :=
  match evs with
  | [] => (e, [])
  | ev :: evs =>
      let '(e1, c1) := target_handler ev e in
      let '(e2, c2) := target_handler_run evs e1 in
      (e2, c1 ++ c2)
  end.

Definition visible_text (ev : tracking_event) : string :=
  match ev with TargetFound => "true" | TargetLost => "false" end.

(** ** The [video-material] component *)

(** The material of the mesh of [#videoEntity]: the one the scene gave it, or
    a [THREE.MeshBasicMaterial] whose map is the [n]-th [THREE.VideoTexture]
    the component created. *)
Inductive material :=
| SceneMaterial
| VideoMaterial (n : nat).

(** [#videoEntity]: its [visible] attribute and the material of
    [getObject3D('mesh')], [None] when the entity has no mesh. *)
Record video_entity := VideoEntity {
  entity_visible : option string;
  mesh : option material
}.

(** What [init] looks up, the number of video textures created so far, and
    whether [init] added its three listeners. *)
Record vm_page := VmPage {
  vid1 : option video;
  videoEntity : option video_entity;
  video_textures : nat;
  vm_listening : bool
}.

(** What [video.play()] does: whether playback starts, and whether the
    promise it returns rejects. *)
Record play_result := PlayResult {
  starts : bool;
  rejects : bool
}.

Inductive vm_event :=
| VmTargetFound (r : play_result)   (* targetFound on the component's element *)
| VmTargetLost                      (* targetLost on the component's element *)
| VmVideoPlay.                      (* play on the video *)

Definition video_material_init (p : vm_page) : vm_page * list ui_call :=
  match vid1 p, videoEntity p with
  | Some _, Some _ => (VmPage (vid1 p) (videoEntity p) (video_textures p) true, [])
  | _, _ => (p, [UError "Video or video entity is missing"])
  end.

(** The [play] listener. *)
Definition video_material_play (p : vm_page) : vm_page * list ui_call :=
  match videoEntity p with
  | Some ve =>
      let videoTexture := video_textures p in
      match mesh ve with
      | Some _ =>
          (VmPage (vid1 p)
                  (Some (VideoEntity (entity_visible ve) (Some (VideoMaterial videoTexture))))
                  (S videoTexture) (vm_listening p), [])
      | None =>
          (VmPage (vid1 p) (videoEntity p) (S videoTexture) (vm_listening p),
           [UWarn "Mesh not found on video entity"])
      end
  | None => (p, [])
  end.

Definition entity_setAttribute_visible (value : string) (ve : video_entity) : video_entity :=
  VideoEntity (Some value) (mesh ve).

(** The [targetFound] listener; the [catch] handler runs when the promise
    of [play()] rejects. *)
Definition video_material_found (r : play_result) (p : vm_page) : vm_page * list ui_call :=
  (VmPage ((λ v, Video (if starts r then false else paused v) (currentTime v) (src v))
             <$> vid1 p)
          (entity_setAttribute_visible "true" <$> videoEntity p)
          (video_textures p) (vm_listening p),
   [ULog "Target found!"; UVideoPlay] ++
   (if rejects r then [UWarn "Video playback failed:"] else [])).

(** The [targetLost] listener. *)
Definition video_material_lost (p : vm_page) : vm_page * list ui_call :=
  (VmPage ((λ v, Video true (currentTime v) (src v)) <$> vid1 p)
          (entity_setAttribute_visible "false" <$> videoEntity p)
          (video_textures p) (vm_listening p),
   [ULog "Target lost!"; UVideoPause]).

Definition vm_dispatch (ev : vm_event) (p : vm_page) : vm_page * list ui_call :=
  if vm_listening p then
    match ev with
    | VmTargetFound r => video_material_found r p
    | VmTargetLost => video_material_lost p
    | VmVideoPlay => video_material_play p
    end
  else (p, []).

Fixpoint vm_run (evs : list vm_event) (p : vm_page) : vm_page * list ui_call :=
  match evs with
  | [] => (p, [])
  | ev :: evs =>
      let '(p1, c1) := vm_dispatch ev p in
      let '(p2, c2) := vm_run evs p1 in
      (p2, c1 ++ c2)
  end.

(** The last tracking event of a sequence, if any. *)
Fixpoint last_tracking (evs : list vm_event) : option vm_event :=
  match evs with
  | [] => None
  | ev :: evs =>
      match last_tracking evs with
      | Some ev' => Some ev'
      | None => match ev with VmVideoPlay => None | _ => Some ev end
      end
  end.

Definition is_play (ev : vm_event) : bool :=
  match ev with VmVideoPlay => true | _ => false end.

(** ** The [DOMContentLoaded] listener: the loading screen and the camera *)

Definition camera_starting : string := "Запуск камери...".
Definition camera_denied : string := "Відмовлено в дозволі на камеру".

(** What the listener finds: the elements [#loading-progress],
    [#loading-screen] and [#ar-scene], and [navigator.mediaDevices].  The
    first two are the elements [loadingProgress] and [loadingScreen] of
    [host] tell of: on a page the two records agree. *)
Record page_dom := PageDom {
  loading_progress : bool;
  loading_screen : bool;
  ar_scene : bool;
  media_devices : bool
}.

(** What the listener and its callbacks write: the two [style.display]
    values and the text ([None] while the script has not written them),
    whether [#ar-scene] has the class [ready], whether
    [AROptimizer.initialize()] was called, whether the timeout of delay 0 and
    the [getUserMedia] promise are pending, and the number of [arReady]
    listeners on the scene. *)
Record loading_ui := LoadingUi {
  screen_display : option string;
  progress_display : option string;
  progress_text : option string;
  ready_class : bool;
  initialized : bool;
  camera_timer : bool;
  camera_request : bool;
  arReady_listeners : nat
}.

Definition fresh_ui : loading_ui := LoadingUi None None None false false false false 0.

Definition set_screen_display (v : string) (u : loading_ui) : loading_ui :=
  LoadingUi (Some v) (progress_display u) (progress_text u) (ready_class u)
            (initialized u) (camera_timer u) (camera_request u) (arReady_listeners u).
Definition set_progress_display (v : string) (u : loading_ui) : loading_ui :=
  LoadingUi (screen_display u) (Some v) (progress_text u) (ready_class u)
            (initialized u) (camera_timer u) (camera_request u) (arReady_listeners u).
Definition set_progress_text (v : string) (u : loading_ui) : loading_ui :=
  LoadingUi (screen_display u) (progress_display u) (Some v) (ready_class u)
            (initialized u) (camera_timer u) (camera_request u) (arReady_listeners u).
Definition add_ready_class (u : loading_ui) : loading_ui :=
  LoadingUi (screen_display u) (progress_display u) (progress_text u) true
            (initialized u) (camera_timer u) (camera_request u) (arReady_listeners u).
Definition set_initialized (u : loading_ui) : loading_ui :=
  LoadingUi (screen_display u) (progress_display u) (progress_text u) (ready_class u)
            true (camera_timer u) (camera_request u) (arReady_listeners u).
Definition set_camera_timer (b : bool) (u : loading_ui) : loading_ui :=
  LoadingUi (screen_display u) (progress_display u) (progress_text u) (ready_class u)
            (initialized u) b (camera_request u) (arReady_listeners u).
Definition set_camera_request (b : bool) (u : loading_ui) : loading_ui :=
  LoadingUi (screen_display u) (progress_display u) (progress_text u) (ready_class u)
            (initialized u) (camera_timer u) b (arReady_listeners u).
Definition add_arReady_listener (u : loading_ui) : loading_ui :=
  LoadingUi (screen_display u) (progress_display u) (progress_text u) (ready_class u)
            (initialized u) (camera_timer u) (camera_request u) (S (arReady_listeners u)).

(** The listener itself, up to [setTimeout].  A missing element makes the
    statement that uses it throw a [TypeError], which ends the listener. *)
Definition loading_listener (d : page_dom) (h : host) (u : loading_ui)
  : loading_ui * list ui_call :=
  if negb (loading_screen d) then (u, [UUncaught])
  else
    let u1 := set_screen_display "flex" u in
    if negb (loading_progress d) then (u1, [UUncaught])
    else
      let u2 := set_progress_display "block" u1 in
      match a_scene h ≫= scene_renderer with
      | None => (u2, [UUncaught])
      | Some _ => (set_camera_timer true (set_initialized u2), [])
      end.

(** The callback of the timeout. *)
Definition camera_callback (d : page_dom) (u : loading_ui) : loading_ui * list ui_call :=
  let u1 := set_progress_text camera_starting u in
  if media_devices d then (set_camera_request true u1, [UGetUserMedia])
  else (u1, [UUncaught]).

(** [.then]: every track of the stream is stopped and the [arReady]
    listener is added. *)
Definition camera_granted (tracks : nat) (u : loading_ui) : loading_ui * list ui_call :=
  (add_arReady_listener u, UTrackStop <$> seq 0 tracks).

(** [.catch] *)
Definition camera_rejected (u : loading_ui) : loading_ui * list ui_call :=
  (set_progress_text camera_denied u, [UError "Camera initialization error:"]).

(** The [arReady] listener. *)
Definition arReady_listener (d : page_dom) (u : loading_ui) : loading_ui * list ui_call :=
  let u1 := set_progress_display "none" (set_screen_display "none" u) in
  if ar_scene d then (add_ready_class u1, []) else (u1, [UUncaught]).

(** What the browser delivers once the listener has run: the expiry of the
    timeout, the settlement of the [getUserMedia] promise (with the number of
    tracks of the stream), and MindAR's [arReady] event. *)
Inductive loading_event :=
| CameraTimer
| CameraGranted (tracks : nat)
| CameraDenied
| ArReady.

Fixpoint call_listeners (n : nat) (d : page_dom) (u : loading_ui)
  : loading_ui * list ui_call :=
  match n with
  | O => (u, [])
  | S n =>
      let '(u1, c1) := arReady_listener d u in
      let '(u2, c2) := call_listeners n d u1 in
      (u2, c1 ++ c2)
  end.

Definition loading_step (d : page_dom) (ev : loading_event) (u : loading_ui)
  : loading_ui * list ui_call :=
  match ev with
  | CameraTimer =>
      if camera_timer u then camera_callback d (set_camera_timer false u) else (u, [])
  | CameraGranted tracks =>
      if camera_request u then camera_granted tracks (set_camera_request false u) else (u, [])
  | CameraDenied =>
      if camera_request u then camera_rejected (set_camera_request false u) else (u, [])
  | ArReady => call_listeners (arReady_listeners u) d u
  end.

Fixpoint loading_run (d : page_dom) (evs : list loading_event) (u : loading_ui)
  : loading_ui * list ui_call :=
  match evs with
  | [] => (u, [])
  | ev :: evs =>
      let '(u1, c1) := loading_step d ev u in
      let '(u2, c2) := loading_run d evs u1 in
      (u2, c1 ++ c2)
  end.

(** The page after [DOMContentLoaded] and then the events [evs]. *)
Definition page_load (d : page_dom) (h : host) (evs : list loading_event)
  : loading_ui * list ui_call :=
  let '(u1, c1) := loading_listener d h fresh_ui in
  let '(u2, c2) := loading_run d evs u1 in
  (u2, c1 ++ c2).

Definition is_grant (ev : loading_event) : bool :=
  match ev with CameraGranted _ => true | _ => false end.
Definition is_arReady (ev : loading_event) : bool :=
  match ev with ArReady => true | _ => false end.

(** A page that has all it needs. *)
Definition full_dom : page_dom := PageDom true true true true.

(** What the component keeps whatever the event: the elements stay, the
    video keeps its position and its [src], the mesh stays or stays absent. *)
Definition vm_kept (p p' : vm_page) : Prop :=
  vm_listening p' = vm_listening p ∧
  (∀ v ve, vid1 p = Some v → videoEntity p = Some ve →
     ∃ v' ve', vid1 p' = Some v' ∧ videoEntity p' = Some ve' ∧
               currentTime v' = currentTime v ∧ src v' = src v ∧
               (is_Some (mesh ve') ↔ is_Some (mesh ve))).

(** What the last tracking event leaves. *)
Definition vm_tracked (ev : vm_event) (p : vm_page) : Prop :=
  match ev with
  | VmTargetFound r =>
      (entity_visible <$> videoEntity p) = Some (Some "true") ∧
      (starts r = true → (paused <$> vid1 p) = Some false)
  | VmTargetLost =>
      (entity_visible <$> videoEntity p) = Some (Some "false") ∧
      (paused <$> vid1 p) = Some true
  | VmVideoPlay => True
  end.

(** The number of [play] events of a sequence. *)
Definition plays (evs : list vm_event) : nat := length (List.filter is_play evs).

(** ** The loading screen *)

Ltac ui_simpl :=
  unfold camera_callback, camera_granted, camera_rejected, arReady_listener,
    set_screen_display, set_progress_display, set_progress_text, add_ready_class,
    set_initialized, set_camera_timer, set_camera_request, add_arReady_listener in *;
  cbn in *.

(** Nothing is pending and nothing listens: no event has any effect. *)
Definition idle_ui (u : loading_ui) : Prop :=
  camera_timer u = false ∧ camera_request u = false ∧ arReady_listeners u = 0%nat.

(** The page is complete: the two loading elements exist and the scene has
    a renderer. *)
Definition page_complete (d : page_dom) (h : host) : bool :=
  loading_screen d && loading_progress d &&
  bool_decide (is_Some (a_scene h ≫= scene_renderer)).

(** While the timeout or the camera request is pending the loading screen
    is up and nothing listens for [arReady]. *)
Definition waiting_ui (u : loading_ui) : Prop :=
  (camera_timer u = true → camera_request u = false) ∧
  (camera_timer u = true ∨ camera_request u = true →
   arReady_listeners u = 0%nat ∧ screen_display u = Some "flex" ∧ ready_class u = false).

(** Nothing listens for [arReady] and the loading screen has not been
    hidden. *)
Definition unheard_ui (u : loading_ui) : Prop :=
  arReady_listeners u = 0%nat ∧ screen_display u ≠ Some "none" ∧ ready_class u = false.

Definition shown_ui (u : loading_ui) : Prop :=
  screen_display u ≠ Some "none" ∧ ready_class u = false.

(** The page once the loading screen is gone. *)
Definition ready_ui : loading_ui :=
  LoadingUi (Some "none") (Some "none") (Some camera_starting) true true false false 1.

(** Without [navigator.mediaDevices] no request is ever made. *)
Definition offline_ui (u : loading_ui) : Prop :=
  camera_request u = false ∧ arReady_listeners u = 0%nat ∧
  screen_display u ≠ Some "none" ∧ progress_text u ≠ Some camera_denied ∧
  (camera_timer u = false → initialized u = true → progress_text u = Some camera_starting).

(** * Properties *)

(** ** The loop over the videos *)

Lemma bind_eq {A B} (m : M A) (f : A -> M B) s :
  (m ≫= f) s =
  match m s with
  | (Ret a, s1, e1) => let '(r, s2, e2) := f a s1 in (r, s2, e1 ++ e2)
  | (Throw, s1, e1) => (Throw, s1, e1)
  end.
Proof. reflexivity. Qed.

Lemma cleanup_video_eq full i s :
  cleanup_video full i s =
  match videos s !! i with
  | Some v =>
      (Ret tt,
       (if negb (paused v) && full
        then set_timers (timers s ++ [(next_id s, (clock s + 100, RestoreSrc i (src v)))])
                        (S (next_id s))
        else id)
         (set_videos (<[i := video_after full v]> (videos s)) s),
       video_calls full i v (next_id s))
  | None => (Ret tt, s, [])
  end.
Proof.
  unfold cleanup_video. munfold.
  destruct (videos s !! i) as [v|] eqn:E; [|reflexivity].
  unfold video_after, video_calls.
  destruct v as [p c u]. cbn [paused src negb].
  destruct p; cbn.
  - rewrite list_insert_id by done. by destruct s.
  - assert (Hi : (i < length (videos s))%nat) by (eapply lookup_lt_Some; eauto).
    destruct full; cbn; rewrite ?E; cbn.
    all: repeat (rewrite ?list_lookup_insert_eq, ?list_insert_insert_eq, ?length_insert by (rewrite ?length_insert; done); cbn).
    all: reflexivity.
Qed.

Lemma filter_touches_video_calls full i k v id :
  List.filter (touches i) (video_calls full k v id) =
  if Nat.eqb k i then video_calls full k v id else [].
Proof.
  unfold video_calls. destruct (paused v), full; cbn; destruct (Nat.eqb k i); reflexivity.
Qed.

Lemma video_calls_phase full k v id :
  Forall (λ e, phase e = 1%nat) (video_calls full k v id).
Proof.
  unfold video_calls. destruct (paused v), full; cbn; repeat constructor.
Qed.

Lemma forEach_videos_spec full (xs : list video) : ∀ k s,
  ∃ s' es, forEach (λ i _, cleanup_video full i) k xs s = (Ret tt, s', es) ∧
           videos_spec full k (length xs) s s' es.
Proof.
  induction xs as [|x xs IH]; intros k s.
  - exists s, []. split; [reflexivity|]. split.
    + by repeat split.
    + intros i. unfold in_range. case_bool_decide; [cbn in *; lia|].
      by destruct (videos s !! i).
    + intros i. unfold in_range. case_bool_decide; [cbn in *; lia|done].
    + constructor.
    + exists []. rewrite app_nil_r. cbn. split; [done|]. split; [lia|]. split; [done|constructor].
  - cbn [forEach]. rewrite bind_eq, cleanup_video_eq.
    destruct (videos s !! k) as [v|] eqn:Ev.
    + set (s1 := (if negb (paused v) && full then _ else id) _).
      destruct (IH (S k) s1) as (s' & es & Hrun & Hspec). rewrite Hrun.
      exists s', (video_calls full k v (next_id s) ++ es). split; [reflexivity|].
      assert (Hv1 : videos s1 = <[k := video_after full v]> (videos s))
        by (subst s1; destruct (negb (paused v) && full); reflexivity).
      assert (Hc1 : clock s1 = clock s)
        by (subst s1; destruct (negb (paused v) && full); reflexivity).
      assert (Hp1 : same_page s s1)
        by (subst s1; destruct (negb (paused v) && full); by repeat split).
      assert (Hk : (k < length (videos s))%nat) by (eapply lookup_lt_Some; eauto).
      assert (∃ new1, timers s1 = timers s ++ new1 ∧
                next_id s1 = (next_id s + length new1)%nat ∧
                new1.*1 = seq (next_id s) (length new1) ∧
                Forall (λ t, fst t.2 = clock s + 100 ∧
                             ∃ j v, videos s !! j = Some v ∧ paused v = false ∧
                                    snd t.2 = RestoreSrc j (src v)) new1)
        as (new1 & Ht1 & Hn1 & Hi1 & Hf1).
      { subst s1. destruct (negb (paused v) && full) eqn:E.
        - eexists [_]. cbn. split; [reflexivity|]. split; [lia|]. split; [done|].
          repeat constructor. cbn. exists k, v. split; [done|]. split; [|done].
          apply andb_true_iff in E as [E _]. by apply negb_true_iff in E.
        - exists []. cbn. rewrite app_nil_r. split; [done|]. split; [lia|].
          split; [done|constructor]. }
      destruct Hspec as [Hpage Hvid Hcalls Hphase (new & Htim & Hnext & Hids & Hnew)].
      split.
      * destruct Hpage as (?&?&?&?&?), Hp1 as (?&?&?&?&?). repeat split; congruence.
      * intros i. rewrite Hvid, Hv1. unfold in_range. cbn [length].
        destruct (decide (i = k)) as [->|Hne].
        -- rewrite list_lookup_insert_eq by done. rewrite Ev.
           repeat case_bool_decide; try lia. reflexivity.
        -- rewrite list_lookup_insert_ne by done.
           repeat case_bool_decide; try lia; reflexivity.
      * intros i. specialize (Hcalls i). rewrite List.filter_app, filter_touches_video_calls.
        unfold in_range in *. cbn [length].
        destruct (decide (i = k)) as [->|Hne].
        -- rewrite Nat.eqb_refl.
           repeat case_bool_decide; try lia.
           rewrite Ev, Hcalls, app_nil_r.
           exists (next_id s). split; [reflexivity|]. intros -> Hpl. split; [lia|].
           rewrite Htim. apply elem_of_app. left. subst s1. rewrite Hpl. cbn.
           apply elem_of_app. right. by apply list_elem_of_singleton.
        -- replace (Nat.eqb k i) with false by (symmetry; apply Nat.eqb_neq; lia).
           cbn [app]. rewrite Hv1, list_lookup_insert_ne, Hc1 in Hcalls by done.
           repeat case_bool_decide; try lia; try exact Hcalls.
           destruct (videos s !! i) as [vi|]; [|exact Hcalls].
           destruct Hcalls as (id & Hf & Hin). exists id. split; [done|].
           intros Hfull Hpl. destruct (Hin Hfull Hpl). split; [lia|done].
      * apply Forall_app. split; [apply video_calls_phase|done].
      * exists (new1 ++ new). rewrite Htim, Ht1, Hnext, Hn1, length_app, <- app_assoc.
        split; [done|]. split; [lia|]. split.
        -- rewrite fmap_app, Hi1, Hids, Hn1. by rewrite seq_app.
        -- apply Forall_app. split; [done|].
           eapply Forall_impl; [exact Hnew|]. cbn.
           intros t (Hdue & j & vj & Hj & Hpj & Hsrc). rewrite Hc1 in Hdue.
           split; [done|]. exists j, vj. split; [|done].
           rewrite Hv1 in Hj. destruct (decide (j = k)) as [->|Hne].
           ++ rewrite list_lookup_insert_eq in Hj by done. injection Hj as <-.
              unfold video_after in Hpj. destruct (paused v) eqn:Epv; [congruence|done].
           ++ by rewrite list_lookup_insert_ne in Hj.
    + destruct (IH (S k) s) as (s' & es & Hrun & Hspec). rewrite Hrun.
      exists s', es. split; [reflexivity|].
      destruct Hspec as [Hpage Hvid Hcalls Hphase Htim].
      split; try done.
      * intros i. rewrite Hvid. unfold in_range. cbn [length].
        destruct (decide (i = k)) as [->|Hne].
        -- rewrite Ev. by repeat case_bool_decide.
        -- repeat case_bool_decide; try lia; reflexivity.
      * intros i. specialize (Hcalls i). unfold in_range in *. cbn [length].
        destruct (decide (i = k)) as [->|Hne].
        -- rewrite Ev. repeat case_bool_decide; try lia. exact Hcalls.
        -- repeat case_bool_decide; try lia; exact Hcalls.
Qed.

(** ** Order of the calls *)

Lemma ordered_app lo mid hi es1 es2 :
  within lo mid es1 → within mid hi es2 → ordered es1 → ordered es2 →
  ordered (es1 ++ es2).
Proof.
  intros H1 H2 O1 O2. apply StronglySorted_app. split; [|done].
  intros a b Ha Hb.
  eapply Forall_forall in H1; [|exact Ha]. eapply Forall_forall in H2; [|exact Hb]. lia.
Qed.

Lemma within_app lo hi es1 es2 :
  within lo hi es1 → within lo hi es2 → within lo hi (es1 ++ es2).
Proof. intros. apply Forall_app. done. Qed.

Lemma within_weaken lo hi lo' hi' es :
  (lo' ≤ lo)%nat → (hi ≤ hi')%nat → within lo hi es → within lo' hi' es.
Proof. intros ? ? H. eapply Forall_impl; [exact H|]. cbn. intros; lia. Qed.

Lemma const_phase_within p es :
  Forall (λ e, phase e = p) es → within p p es.
Proof. intros H. eapply Forall_impl; [exact H|]. cbn. intros; lia. Qed.

Lemma const_phase_ordered p es :
  Forall (λ e, phase e = p) es → ordered es.
Proof.
  induction 1 as [|e es He Hes IH]; constructor; [done|].
  eapply Forall_impl; [exact Hes|]. cbn. intros; lia.
Qed.

(** ** Textures, bindings, GC hint and tracking *)

Lemma forEach_textures_spec (ts : list texture) : ∀ j s,
  ∃ es, forEach dispose_texture j ts s =
          (if existsb throwing_texture ts then Throw else Ret tt, s, es) ∧
        Forall (λ e, phase e = 2%nat) es ∧
        (existsb throwing_texture ts = false →
         ∀ k, ts !! k = Some (TexObject (Some false)) → ETextureDispose (j + k) ∈ es).
Proof.
  induction ts as [|t ts IH]; intros j s.
  - exists []. split; [reflexivity|]. split; [constructor|]. intros _ k Hk. done.
  - cbn [forEach existsb]. rewrite bind_eq.
    destruct (IH (S j) s) as (es & Hrun & Hph & Hin).
    destruct t as [|[[|]|]]; cbn [dispose_texture throwing_texture orb].
    + munfold. rewrite Hrun. exists es. split; [by destruct (existsb _ _)|].
      split; [done|]. intros Hno [|k] Hk; [done|].
      replace (j + S k)%nat with (S j + k)%nat by lia. by apply Hin.
    + munfold. exists [ETextureDispose j]. split; [reflexivity|].
      split; [by repeat constructor|]. done.
    + munfold. rewrite Hrun. exists (ETextureDispose j :: es).
      split; [by destruct (existsb _ _)|]. split; [by constructor|].
      intros Hno [|k] Hk.
      * rewrite Nat.add_0_r. apply list_elem_of_here.
      * apply list_elem_of_further. replace (j + S k)%nat with (S j + k)%nat by lia. by apply Hin.
    + munfold. rewrite Hrun. exists es. split; [by destruct (existsb _ _)|].
      split; [done|]. intros Hno [|k] Hk; [done|].
      replace (j + S k)%nat with (S j + k)%nat by lia. by apply Hin.
Qed.

Lemma cleanup_textures_spec reg s :
  ∃ es, cleanup_textures reg s = (if registry_throws reg then Throw else Ret tt, s, es) ∧
        Forall (λ e, phase e = 2%nat) es ∧
        (registry_throws reg = false →
         ∀ ts k, reg = RegArray ts → ts !! k = Some (TexObject (Some false)) →
                 ETextureDispose k ∈ es).
Proof.
  destruct reg as [|ts|]; cbn [cleanup_textures registry_throws].
  - exists []. split; [reflexivity|]. split; [constructor|]. intros _ ts k [=].
  - destruct (forEach_textures_spec ts 0 s) as (es & Hrun & Hph & Hin).
    exists es. split; [done|]. split; [done|]. intros Hno ts' k [= <-] Hk.
    by apply (Hin Hno k).
  - exists []. split; [reflexivity|]. split; [constructor|]. intros _ ts k [=].
Qed.

Lemma for_loop_unbind_spec n : ∀ from s,
  ∃ es, for_loop unbind_unit from n s = (Ret tt, s, es) ∧
        Forall (λ e, phase e = 3%nat) es ∧
        ∀ u, (from ≤ u < from + n)%nat → EActiveTexture u ∈ es.
Proof.
  induction n as [|n IH]; intros from s.
  - exists []. split; [reflexivity|]. split; [constructor|]. intros; lia.
  - cbn [for_loop]. rewrite bind_eq. destruct (IH (S from) s) as (es & Hrun & Hph & Hin).
    unfold unbind_unit at 1. munfold. rewrite Hrun. cbn.
    eexists. split; [reflexivity|]. split; [by repeat constructor|].
    intros u Hu. destruct (decide (u = from)) as [->|].
    + apply list_elem_of_here.
    + do 3 apply list_elem_of_further. apply Hin. lia.
Qed.

Lemma cleanup_gl_spec g s :
  ∃ es, cleanup_gl g s = (Ret tt, s, es ++ unbind_tail) ∧
        Forall (λ e, phase e = 3%nat) es ∧
        ∀ u, (u < MAX_TEXTURE_IMAGE_UNITS g)%nat → EActiveTexture u ∈ es.
Proof.
  unfold cleanup_gl. rewrite bind_eq.
  destruct (for_loop_unbind_spec (MAX_TEXTURE_IMAGE_UNITS g) 0 s) as (es & Hrun & Hph & Hin).
  rewrite Hrun. munfold. cbn. exists es. split; [reflexivity|]. split; [done|].
  intros u Hu. apply Hin. lia.
Qed.

Lemma cleanup_gc_eq gc s : cleanup_gc gc s = (Ret tt, s, gc_calls gc).
Proof. by destruct gc as [[|]|]. Qed.

Lemma cleanup_ar_eq ar s :
  cleanup_ar ar s =
  if stop_throws ar
  then (Ret tt, s, [EArStop; EWarn "AR system cleanup error:"])
  else (Ret tt,
        set_timers (timers s ++ [(next_id s, (clock s + 1000, StartAr))]) (S (next_id s)) s,
        [EArStop; ESetTimeout (next_id s) StartAr 1000]).
Proof. unfold cleanup_ar. munfold. by destruct (stop_throws ar). Qed.

Lemma gc_calls_phase gc : Forall (λ e, phase e = 4%nat) (gc_calls gc).
Proof. destruct gc as [[|]|]; repeat constructor. Qed.

Lemma cleanup_webgl_spec h s :
  ∃ es, cleanup_webgl h s = (if dispose_throws h then Throw else Ret tt, s, es) ∧
        webgl_spec h es.
Proof.
  unfold cleanup_webgl.
  destruct (a_scene h ≫= scene_renderer) as [r|] eqn:Er.
  - assert (Hd : dispose_throws h = registry_throws (memory_textures r))
      by (unfold dispose_throws; by rewrite Er).
    rewrite Hd, bind_eq.
    destruct (cleanup_textures_spec (memory_textures r) s) as (et & Hrun & Hph & Hin).
    rewrite Hrun. destruct (registry_throws (memory_textures r)) eqn:Ethrow.
    + exists et. split; [reflexivity|]. split.
      * eapply within_weaken; [| |by apply const_phase_within]; lia.
      * by eapply const_phase_ordered.
      * intros _. by apply const_phase_within.
      * congruence.
      * congruence.
    + rewrite bind_eq.
      assert (∃ eg, match getContext r with Some g => cleanup_gl g | None => ret tt end s
                    = (Ret tt, s, eg) ∧ Forall (λ e, phase e = 3%nat) eg ∧
                    (∀ g, getContext r = Some g →
                       (∀ u, (u < MAX_TEXTURE_IMAGE_UNITS g)%nat → EActiveTexture u ∈ eg) ∧
                       (∀ e, e ∈ unbind_tail → e ∈ eg)))
        as (eg & Hgl & Hphg & Hing).
      { destruct (getContext r) as [g|].
        - destruct (cleanup_gl_spec g s) as (e0 & Hrun0 & Hph0 & Hin0).
          exists (e0 ++ unbind_tail). split; [done|]. split.
          + apply Forall_app. split; [done|]. repeat constructor.
          + intros g' [= <-]. split.
            * intros u Hu. apply elem_of_app. left. by apply Hin0.
            * intros e He. apply elem_of_app. by right.
        - exists []. split; [reflexivity|]. split; [constructor|]. intros g [=]. }
      rewrite Hgl, cleanup_gc_eq. cbn [app].
      exists (et ++ eg ++ gc_calls (window_gc h)). split; [reflexivity|].
      assert (Hw22 : within 2 2 et) by (by apply const_phase_within).
      assert (Hw33 : within 3 3 eg) by (by apply const_phase_within).
      assert (Hw44 : within 4 4 (gc_calls (window_gc h)))
        by apply const_phase_within, gc_calls_phase.
      assert (Hw23 : within 2 3 (et ++ eg)).
      { apply within_app; eapply within_weaken; try eassumption; lia. }
      split.
      * apply within_app; [eapply within_weaken; try eassumption; lia|].
        apply within_app; eapply within_weaken; try eassumption; lia.
      * eapply (ordered_app 2 2 4).
        -- done.
        -- apply within_app; eapply within_weaken; try eassumption; lia.
        -- by eapply const_phase_ordered.
        -- eapply (ordered_app 3 3 4).
           ++ done.
           ++ eapply within_weaken; try eassumption; lia.
           ++ by eapply const_phase_ordered.
           ++ eapply const_phase_ordered, gc_calls_phase.
      * congruence.
      * congruence.
      * intros _ r' Hr'. rewrite Er in Hr'. injection Hr' as <-.
        exists (et ++ eg). rewrite <- app_assoc.
        split; [done|]. split; [done|]. split.
        -- intros ts k Hreg Hk. apply elem_of_app. left. by eapply Hin.
        -- intros g Hg. destruct (Hing g Hg) as [Hu Ht]. split.
           ++ intros u Hlt. apply elem_of_app. right. by apply Hu.
           ++ intros e He. apply elem_of_app. right. by apply Ht.
  - assert (Hd : dispose_throws h = false)
      by (unfold dispose_throws; by rewrite Er).
    rewrite Hd. exists []. split; [reflexivity|]. split.
    + constructor.
    + constructor.
    + congruence.
    + done.
    + intros _ r Hr. congruence.
Qed.

Lemma cleanup_ar_system_eq h full s :
  cleanup_ar_system h full s =
  (Ret tt,
   if restart_scheduled h full
   then set_timers (timers s ++ [(next_id s, (clock s + 1000, StartAr))]) (S (next_id s)) s
   else s,
   ar_calls h full (next_id s)).
Proof.
  unfold cleanup_ar_system, ar_calls, restart_scheduled.
  destruct (a_scene h ≫= mindar_image_system) as [ar|]; [|reflexivity].
  destruct full; [|reflexivity]. cbn [when andb]. rewrite cleanup_ar_eq.
  by destruct (stop_throws ar).
Qed.

Lemma ar_calls_within h full id : within 5 6 (ar_calls h full id).
Proof.
  unfold ar_calls. destruct (a_scene h ≫= mindar_image_system) as [ar|]; [|constructor].
  destruct full; [|constructor].
  destruct (stop_throws ar); repeat constructor.
Qed.

Lemma ar_calls_ordered h full id : ordered (ar_calls h full id).
Proof.
  unfold ar_calls. destruct (a_scene h ≫= mindar_image_system) as [ar|]; [|constructor].
  destruct full; [|constructor].
  destruct (stop_throws ar); repeat constructor.
Qed.

(** The pass as a whole: its three blocks and how they chain. *)
Lemma performCleanup_blocks h full s :
  ∃ s1 ev et,
    cleanup_videos full s = (Ret tt, s1, ev) ∧
    videos_spec full 0 (length (videos s)) s s1 ev ∧
    cleanup_webgl h s1 = (if dispose_throws h then Throw else Ret tt, s1, et) ∧
    webgl_spec h et ∧
    performCleanup h full s =
      if dispose_throws h
      then (Throw, s1, EPerformCleanup full :: ev ++ et)
      else (Ret tt,
            if restart_scheduled h full
            then set_timers (timers s1 ++ [(next_id s1, (clock s1 + 1000, StartAr))])
                            (S (next_id s1)) s1
            else s1,
            EPerformCleanup full :: ev ++ et ++ ar_calls h full (next_id s1)).
Proof.
  destruct (forEach_videos_spec full (videos s) 0 s) as (s1 & ev & Hv & Hvs).
  destruct (cleanup_webgl_spec h s1) as (et & Hw & Hws).
  exists s1, ev, et.
  assert (Hcv : cleanup_videos full s = (Ret tt, s1, ev)).
  { unfold cleanup_videos. rewrite bind_eq. cbn [gets]. rewrite Hv.
    by rewrite app_nil_l. }
  split; [done|]. split; [done|]. split; [done|]. split; [done|].
  unfold performCleanup. rewrite bind_eq. cbn [emit]. rewrite bind_eq, Hcv, bind_eq, Hw.
  destruct (dispose_throws h); [reflexivity|].
  rewrite bind_eq, cleanup_ar_system_eq. cbn. by rewrite app_nil_r.
Qed.

Lemma pass_level_phase es :
  Forall (λ e, (1 ≤ phase e)%nat) es → omap pass_level es = [].
Proof.
  induction 1 as [|e es He Hes IH]; [done|].
  cbn. destruct e; cbn in *; try done. lia.
Qed.

Lemma performCleanup_run h full s :
  ∃ s' es, performCleanup h full s =
             (if dispose_throws h then Throw else Ret tt, s', EPerformCleanup full :: es) ∧
           pass_spec h full s s' es.
Proof.
  destruct (performCleanup_blocks h full s) as (s1 & ev & et & Hv & Hvs & Hw & Hws & Hrun).
  destruct Hvs as [Hpage _ _ Hph (new & Htim & Hnext & Hids & Hnew)].
  destruct Hws as [Hwin Hord Habort _ _].
  assert (Hev : within 1 1 ev) by (by apply const_phase_within).
  assert (Hnew' : Forall (λ t, snd t.2 ≠ DecayError ∧
             fst t.2 = clock s + delay_of (snd t.2)) new).
  { eapply Forall_impl; [exact Hnew|]. cbn. intros [id [due k]] [Hdue (i & u & _ & _ & Hk)].
    cbn in *. by subst. }
  rewrite Hrun. destruct (dispose_throws h) eqn:Hd.
  - exists s1, (ev ++ et). split; [done|]. split.
    + done.
    + apply within_app; eapply within_weaken; try eassumption; lia.
    + constructor.
      * eapply (ordered_app 1 1 4); [done| |by eapply const_phase_ordered|done].
        eapply within_weaken; try eassumption; lia.
      * apply Forall_app. split.
        -- eapply Forall_impl; [exact Hev|]. cbn; intros; lia.
        -- eapply Forall_impl; [exact Hwin|]. cbn; intros; lia.
    + by exists new.
  - pose proof (ar_calls_within h full (next_id s1)) as Har.
    pose proof (ar_calls_ordered h full (next_id s1)) as Haro.
    eexists _, _. split; [reflexivity|].
    assert (Hall : within 1 6 (ev ++ et ++ ar_calls h full (next_id s1))).
    { apply within_app; [eapply within_weaken; try eassumption; lia|].
      apply within_app; eapply within_weaken; try eassumption; lia. }
    split.
    + destruct Hpage as (?&?&?&?&?). destruct (restart_scheduled h full); by repeat split.
    + done.
    + constructor.
      * eapply (ordered_app 1 1 6); [done| |by eapply const_phase_ordered|].
        -- apply within_app; eapply within_weaken; try eassumption; lia.
        -- eapply (ordered_app 2 4 6); [done| |done|done].
           eapply within_weaken; try eassumption; lia.
      * eapply Forall_impl; [exact Hall|]. cbn; intros; lia.
    + destruct (restart_scheduled h full).
      * exists (new ++ [(next_id s1, (clock s1 + 1000, StartAr))]). cbn.
        rewrite Htim, <- app_assoc. split; [done|].
        rewrite length_app. cbn. split; [lia|]. split.
        -- rewrite fmap_app, Hids, seq_app. cbn. by rewrite Hnext.
        -- apply Forall_app. split; [done|]. repeat constructor; cbn; [done|].
           by destruct Hpage as (-> & _).
      * by exists new.
Qed.

(** ** Timeout identifiers *)

Lemma ids_fresh_spec s :
  ids_fresh s = true ↔ Forall (λ p, (p.1 < next_id s)%nat) (timers s).
Proof.
  unfold ids_fresh. rewrite forallb_forall, Forall_forall.
  split; intros H p Hp.
  - apply Nat.ltb_lt, H. by apply list_elem_of_In.
  - apply Nat.ltb_lt, H. by apply list_elem_of_In.
Qed.

Lemma find_timer_old_miss (old rest : list (nat * (Z * task))) n id :
  Forall (λ p, (p.1 < n)%nat) old → (n ≤ id)%nat →
  find_timer id (old ++ rest) = find_timer id rest.
Proof.
  intros Hold Hid. unfold find_timer. f_equal.
  induction Hold as [|p old Hp Hold IH]; [done|].
  cbn. replace (p.1 =? id)%nat with false by (symmetry; apply Nat.eqb_neq; lia). done.
Qed.

Lemma find_timer_seq (new : list (nat * (Z * task))) : ∀ n id x,
  new.*1 = seq n (length new) → (id, x) ∈ new → find_timer id new = Some x.
Proof.
  induction new as [|[id0 x0] new IH]; intros n id x Hids Hin.
  - by apply elem_of_nil in Hin.
  - cbn in Hids. injection Hids as -> Hids.
    apply elem_of_cons in Hin as [[= -> ->]|Hin].
    + unfold find_timer. cbn. by rewrite Nat.eqb_refl.
    + assert (Hge : (S n ≤ id)%nat).
      { assert (id ∈ new.*1) as Hm by (apply list_elem_of_fmap; by exists (id, x)).
        rewrite Hids in Hm. apply elem_of_seq in Hm. lia. }
      unfold find_timer. cbn.
      replace (n =? id)%nat with false by (symmetry; apply Nat.eqb_neq; lia).
      by apply (IH (S n)).
Qed.

Lemma find_timer_new s new id x :
  ids_fresh s = true → new.*1 = seq (next_id s) (length new) →
  (id, x) ∈ timers s ++ new → (next_id s ≤ id)%nat →
  find_timer id (timers s ++ new) = Some x.
Proof.
  intros Hf Hids Hin Hid. apply ids_fresh_spec in Hf.
  rewrite (find_timer_old_miss _ _ (next_id s)) by done.
  apply (find_timer_seq new (next_id s)); [done|].
  apply elem_of_app in Hin as [Hin|Hin]; [|done].
  eapply Forall_forall in Hf; [|exact Hin]. cbn in Hf. lia.
Qed.

Lemma ids_fresh_grow s s' new :
  ids_fresh s = true → timers s' = timers s ++ new →
  next_id s' = (next_id s + length new)%nat →
  new.*1 = seq (next_id s) (length new) →
  ids_fresh s' = true.
Proof.
  rewrite !ids_fresh_spec. intros Hf -> -> Hids. apply Forall_app. split.
  - eapply Forall_impl; [exact Hf|]. cbn. intros; lia.
  - apply Forall_forall. intros [id x] Hin. cbn.
    assert (id ∈ new.*1) as Hm by (apply list_elem_of_fmap; by exists (id, x)).
    rewrite Hids in Hm. apply elem_of_seq in Hm. lia.
Qed.

Lemma ids_fresh_remove s id :
  ids_fresh s = true →
  ids_fresh (set_timers (remove_timer id (timers s)) (next_id s) s) = true.
Proof.
  rewrite !ids_fresh_spec. cbn. intros Hf. unfold remove_timer.
  apply Forall_forall. intros p Hp. apply list_elem_of_In, filter_In in Hp as [Hp _].
  eapply Forall_forall in Hf; [exact Hf|]. by apply list_elem_of_In.
Qed.

(** ** One turn of the loop *)

Lemma set_micro_id s : micro s = [] → set_micro [] s = s.
Proof. destruct s; cbn; by intros ->. Qed.

Lemma drain_nil s : micro s = [] → drain s = (Ret tt, s, []).
Proof.
  intros Hm. unfold drain. munfold. rewrite Hm. cbn. by rewrite set_micro_id.
Qed.

Lemma guarded_pass_turn h full s :
  micro s = [] →
  ∃ s' es, performCleanup h full (set_opt (set_isProcessing true (opt s)) s)
             = (if dispose_throws h then Throw else Ret tt, s', EPerformCleanup full :: es) ∧
           pass_spec h full (set_opt (set_isProcessing true (opt s)) s) s' es ∧
           (top (guarded_pass h full);; drain) s =
             if dispose_throws h
             then (Ret tt, s', EPerformCleanup full :: es ++ [EUncaught])
             else (Ret tt, set_opt (set_isProcessing false (opt s')) s',
                   EPerformCleanup full :: es).
Proof.
  intros Hm.
  destruct (performCleanup_run h full (set_opt (set_isProcessing true (opt s)) s))
    as (s' & es & Hrun & Hspec).
  exists s', es. split; [done|]. split; [done|].
  assert (Hm' : micro s' = []).
  { destruct Hspec as [(_&_&_&Hmi&_) _ _ _]. by rewrite Hmi. }
  unfold guarded_pass. rewrite bind_eq. unfold top at 1, try_catch.
  rewrite bind_eq. unfold set_processing at 1. cbn [modify]. rewrite bind_eq, Hrun.
  destruct (dispose_throws h).
  - cbn [emit]. rewrite drain_nil by done. cbn. by rewrite app_nil_r.
  - unfold queueMicrotask. cbn [modify]. unfold drain. munfold. cbn.
    rewrite Hm'. cbn. unfold top, try_catch, run_microtask. munfold. cbn.
    rewrite !app_nil_r.
    destruct s'; cbn in *; subst. reflexivity.
Qed.

Lemma arError_turn h s :
  micro s = [] →
  let n := errorCount (opt s) + 1 in
  let full := 3 <? n in
  ∃ s' es, performCleanup h full (with_errors n s)
             = (if dispose_throws h then Throw else Ret tt, s', EPerformCleanup full :: es) ∧
           pass_spec h full (with_errors n s) s' es ∧
           (top (arErrorListener h);; drain) s =
             if dispose_throws h
             then (Ret tt, s', EPerformCleanup full :: es ++ [EUncaught])
             else (Ret tt, with_decay (if full then with_errors 0 s' else s'),
                   EPerformCleanup full :: es ++ [ESetTimeout (next_id s') DecayError 300000]).
Proof.
  intros Hm n full.
  destruct (performCleanup_run h full (with_errors n s)) as (s' & es & Hrun & Hspec).
  exists s', es. split; [done|]. split; [done|].
  assert (Hm' : micro s' = []).
  { destruct Hspec as [(_&_&_&Hmi&_) _ _ _]. by rewrite Hmi. }
  rewrite bind_eq. unfold top at 1, try_catch, arErrorListener.
  rewrite bind_eq. cbn [gets]. rewrite bind_eq. unfold set_errors at 1. cbn [modify].
  rewrite bind_eq. cbn [gets set_opt opt set_errorCount errorCount].
  fold n. fold full. fold (with_errors n s).
  destruct full eqn:Hfull; rewrite bind_eq, Hrun; destruct (dispose_throws h).
  all: cbn [emit]; rewrite ?drain_nil by done; cbn; rewrite ?app_nil_r; try reflexivity.
  all: unfold queueMicrotask, drain, top, try_catch, run_microtask; munfold; cbn.
  all: rewrite Hm'; cbn; rewrite ?app_nil_r.
  all: destruct s'; cbn in *; subst; reflexivity.
Qed.

Lemma unguarded_turn h s :
  micro s = [] →
  ∃ s' es, performCleanup h true s
             = (if dispose_throws h then Throw else Ret tt, s', EPerformCleanup true :: es) ∧
           pass_spec h true s s' es ∧
           (top (performCleanup h true);; drain) s =
             (Ret tt, s',
              EPerformCleanup true :: es ++ if dispose_throws h then [EUncaught] else []).
Proof.
  intros Hm.
  destruct (performCleanup_run h true s) as (s' & es & Hrun & Hspec).
  exists s', es. split; [done|]. split; [done|].
  assert (Hm' : micro s' = []).
  { destruct Hspec as [(_&_&_&Hmi&_) _ _ _]. by rewrite Hmi. }
  rewrite bind_eq. unfold top, try_catch. rewrite Hrun.
  destruct (dispose_throws h); cbn [emit]; rewrite drain_nil by done; cbn;
    by rewrite ?app_nil_r.
Qed.

Lemma idle_turn (m : M unit) s :
  micro s = [] → m s = (Ret tt, s, []) → (top m;; drain) s = (Ret tt, s, []).
Proof.
  intros Hm Hrun. rewrite bind_eq. unfold top, try_catch. rewrite Hrun.
  by rewrite drain_nil.
Qed.

Lemma finish_idle (s : state) : set_log (log s ++ stamp (clock s) []) s = s.
Proof. destruct s. cbn. by rewrite app_nil_r. Qed.

Lemma autoCleanup_eq h full s :
  autoCleanup h full s =
  if negb (hidden s) && negb (isProcessing (opt s))
  then guarded_pass h full s else (Ret tt, s, []).
Proof.
  unfold autoCleanup. rewrite bind_eq. cbn [gets]. rewrite bind_eq. cbn [gets].
  destruct (negb (hidden s) && negb (isProcessing (opt s))); cbn [when].
  - destruct (guarded_pass h full s) as [[[]] ?]; reflexivity.
  - reflexivity.
Qed.

Lemma memoryMonitor_eq h u l s :
  memoryMonitor h u l s =
  if over_threshold u l && negb (isProcessing (opt s))
  then guarded_pass h true s else (Ret tt, s, []).
Proof.
  unfold memoryMonitor. destruct (over_threshold u l); cbn [when andb]; [|reflexivity].
  rewrite bind_eq. cbn [gets].
  destruct (negb (isProcessing (opt s))); cbn [when].
  - destruct (guarded_pass h true s) as [[[]] ?]; reflexivity.
  - reflexivity.
Qed.

Lemma armed_top_level h :
  armed h VisibilityCb = true ∧ armed h BeforeUnloadCb = true ∧ armed h PageHideCb = true.
Proof. by repeat split. Qed.

Lemma turn_spec_idle h s : micro s = [] → turn_spec h s s [].
Proof. intros. split; cbn; try done. lia. Qed.

Lemma pass_spec_ids h full s s' es :
  pass_spec h full s s' es → ids_fresh s = true → ids_fresh s' = true.
Proof.
  intros [_ _ _ (new & Ht & Hn & Hi & _)] Hf. by eapply ids_fresh_grow.
Qed.

Lemma with_decay_ids s : ids_fresh s = true → ids_fresh (with_decay s) = true.
Proof.
  intros Hf. eapply (ids_fresh_grow s _ [_]); [done|reflexivity|cbn; lia|done].
Qed.

Lemma pass_spec_passes h full s s' es tail :
  pass_spec h full s s' es → omap pass_level tail = [] →
  omap pass_level (EPerformCleanup full :: es ++ tail) = [full].
Proof.
  intros [_ Hw _ _] Ht. cbn. f_equal. rewrite omap_app, Ht, app_nil_r.
  apply pass_level_phase. eapply Forall_impl; [exact Hw|]. cbn; intros; lia.
Qed.

Lemma guarded_turn_spec h full s :
  micro s = [] → isProcessing (opt s) = false →
  let '(_, s', es) := (top (guarded_pass h full);; drain) s in
  turn_spec h s s' es ∧ omap pass_level es = [full] ∧
  isProcessing (opt s') = dispose_throws h.
Proof.
  intros Hm Hbusy.
  destruct (guarded_pass_turn h full s Hm) as (s' & es & _ & Hspec & ->).
  pose proof Hspec as [(Hc & Hh & Ho & Hmi & Hl) _ _ _]. cbn in *.
  assert (Hp : ∀ tail, omap pass_level tail = [] →
            omap pass_level (EPerformCleanup full :: es ++ tail) = [full])
    by (intros; by eapply pass_spec_passes).
  pose proof (Hp [] eq_refl) as Hp0. rewrite app_nil_r in Hp0.
  pose proof (pass_spec_ids _ _ _ _ _ Hspec) as Hids.
  destruct (dispose_throws h) eqn:Hd.
  - split; [|split].
    + constructor; rewrite ?Hp by done; cbn; rewrite ?Ho; cbn; try congruence; try lia;
        try (intros; congruence); done.
    + by apply Hp.
    + by rewrite Ho.
  - split; [|split].
    + constructor; rewrite ?Hp0; cbn; rewrite ?Ho; cbn; try congruence; try lia; done.
    + done.
    + done.
Qed.

Lemma arError_turn_spec h s :
  micro s = [] →
  let '(_, s', es) := (top (arErrorListener h);; drain) s in
  turn_spec h s s' es.
Proof.
  intros Hm.
  destruct (arError_turn h s Hm) as (s' & es & _ & Hspec & ->).
  pose proof Hspec as [(Hc & Hh & Ho & Hmi & Hl) _ _ _]. cbn in *.
  assert (Hp : ∀ tail, omap pass_level tail = [] →
            omap pass_level (EPerformCleanup (3 <? errorCount (opt s) + 1) :: es ++ tail)
            = [3 <? errorCount (opt s) + 1])
    by (intros; by eapply pass_spec_passes).
  pose proof (pass_spec_ids _ _ _ _ _ Hspec) as Hids.
  destruct (dispose_throws h).
  - constructor; rewrite ?Hp by done; cbn; rewrite ?Ho; cbn; try congruence; try lia; done.
  - constructor; rewrite ?Hp by done;
      try (intros Hf; apply with_decay_ids; destruct (3 <? errorCount (opt s) + 1);
           by apply Hids);
      destruct (3 <? errorCount (opt s) + 1); cbn; rewrite ?Ho; cbn;
      try congruence; try lia; done.
Qed.

Lemma unguarded_turn_spec h s :
  micro s = [] →
  let '(_, s', es) := (top (performCleanup h true);; drain) s in
  turn_spec h s s' es ∧ omap pass_level es = [true].
Proof.
  intros Hm.
  destruct (unguarded_turn h s Hm) as (s' & es & _ & Hspec & ->).
  pose proof Hspec as [(Hc & Hh & Ho & Hmi & Hl) _ _ _].
  assert (Hp : omap pass_level
             (EPerformCleanup true :: es ++ (if dispose_throws h then [EUncaught] else []))
           = [true]).
  { eapply pass_spec_passes; [done|]. by destruct (dispose_throws h). }
  pose proof (pass_spec_ids _ _ _ _ _ Hspec) as Hids.
  split; [|done].
  constructor; rewrite ?Hp; cbn; rewrite ?Ho; cbn; try congruence; try lia; done.
Qed.

Lemma run_task_spec h k s :
  ∃ r s' es, run_task h k s = (r, s', es) ∧
    micro s' = micro s ∧ clock s' = clock s ∧ log s' = log s ∧
    timers s' = timers s ∧ next_id s' = next_id s ∧
    omap pass_level es = [] ∧
    isProcessing (opt s') = isProcessing (opt s) ∧
    errorCount (opt s') =
      match k with
      | DecayError => Z.max 0 (errorCount (opt s) - 1)
      | _ => errorCount (opt s)
      end.
Proof.
  destruct k as [i u| |]; cbn [run_task].
  - unfold video_set_src. munfold. destruct (videos s !! i); eexists _, _, _; by repeat split.
  - destruct (a_scene h ≫= mindar_image_system) as [ar|].
    + unfold call. munfold. destruct (start_throws ar); eexists _, _, _; by repeat split.
    + eexists _, _, _; by repeat split.
  - munfold. eexists _, _, _; by repeat split.
Qed.

Lemma fire_timeout_eq h id s :
  fire_timeout h id s =
  match find_timer id (timers s) with
  | Some (due, k) =>
      if due <=? clock s
      then run_task h k (set_timers (remove_timer id (timers s)) (next_id s) s)
      else (Ret tt, s, [])
  | None => (Ret tt, s, [])
  end.
Proof.
  unfold fire_timeout. rewrite bind_eq. cbn [gets]. rewrite bind_eq. cbn [gets].
  destruct (find_timer id (timers s)) as [[due k]|]; [|reflexivity].
  destruct (due <=? clock s); cbn [when]; [|reflexivity].
  rewrite bind_eq. cbn [modify].
  by destruct (run_task h k _) as [[[]] ?].
Qed.

Lemma fire_timeout_turn_spec h id s :
  micro s = [] →
  let '(_, s', es) := (top (fire_timeout h id);; drain) s in
  turn_spec h s s' es ∧ omap pass_level es = [].
Proof.
  intros Hm.
  assert (Hidle : fire_timeout h id s = (Ret tt, s, []) →
            let '(_, s', es) := (top (fire_timeout h id);; drain) s in
            turn_spec h s s' es ∧ omap pass_level es = []).
  { intros Hrun. rewrite (idle_turn _ s Hm Hrun). split; [by apply turn_spec_idle|done]. }
  pose proof (fire_timeout_eq h id s) as Heq.
  destruct (find_timer id (timers s)) as [[due k]|]; [|by apply Hidle].
  destruct (due <=? clock s); [|by apply Hidle].
  set (s1 := set_timers _ _ s) in Heq.
  destruct (run_task_spec h k s1)
    as (r & s' & es & Hrun & Hmi & Hc & Hl & Ht & Hn & Hp & Hb & He).
  rewrite Hrun in Heq.
  assert (Hids : ids_fresh s = true → ids_fresh s' = true).
  { intros Hf. apply (ids_fresh_remove s id) in Hf. fold s1 in Hf.
    unfold ids_fresh in *. by rewrite Ht, Hn. }
  assert (He' : 0 ≤ errorCount (opt s) → 0 ≤ errorCount (opt s')).
  { rewrite He. destruct k; cbn; lia. }
  rewrite bind_eq. unfold top, try_catch. rewrite Heq.
  destruct r as [[]|]; cbn [emit]; rewrite drain_nil by (by rewrite Hmi); cbn;
    rewrite ?app_nil_r.
  - split; [split; rewrite ?Hp; cbn; try done; try lia|done]. all: by rewrite ?Hmi, ?Hb.
  - rewrite omap_app, Hp. cbn.
    split; [split; rewrite ?omap_app, ?Hp; cbn; try done; try lia|done].
    all: by rewrite ?Hmi, ?Hb.
Qed.

Lemma top_modify (f : state → state) (m : M unit) s :
  (top (modify f;; m);; drain) s = (top m;; drain) (f s).
Proof.
  rewrite !bind_eq. unfold top, try_catch. rewrite bind_eq. cbn [modify].
  destruct (m (f s)) as [[[] s1] e1]; cbn; reflexivity.
Qed.

Lemma turn_all h s st :
  micro s = [] →
  let '(_, s', es) := (top (dispatch h st);; drain) s in turn_spec h s s' es.
Proof.
  intros Hm.
  assert (Hidle : ∀ m : M unit, m s = (Ret tt, s, []) →
            let '(_, s', es) := (top m;; drain) s in turn_spec h s s' es).
  { intros m Hrun. rewrite (idle_turn m s Hm Hrun). by apply turn_spec_idle. }
  assert (Hguard : ∀ full, isProcessing (opt s) = false →
            let '(_, s', es) := (top (guarded_pass h full);; drain) s in turn_spec h s s' es).
  { intros full Hb. pose proof (guarded_turn_spec h full s Hm Hb) as H.
    destruct ((top (guarded_pass h full);; drain) s) as [[r s'] es]. tauto. }
  assert (Hauto : ∀ full,
            let '(_, s', es) := (top (autoCleanup h full);; drain) s in turn_spec h s s' es).
  { intros full. destruct (negb (hidden s) && negb (isProcessing (opt s))) eqn:E.
    - replace ((top (autoCleanup h full);; drain) s)
        with ((top (guarded_pass h full);; drain) s).
      + apply Hguard. apply andb_true_iff in E as [_ E]. by apply negb_true_iff in E.
      + rewrite !bind_eq. unfold top, try_catch. by rewrite autoCleanup_eq, E.
    - apply Hidle. by rewrite autoCleanup_eq, E. }
  destruct st as [| |u l| |b| | |id]; cbn [dispatch].
  - destruct (armed h LightCleanupCb); cbn [when]; [apply Hauto|by apply Hidle].
  - destruct (armed h FullCleanupCb); cbn [when]; [apply Hauto|by apply Hidle].
  - destruct (armed h MemoryCb); cbn [when]; [|by apply Hidle].
    destruct (over_threshold u l && negb (isProcessing (opt s))) eqn:E.
    + replace ((top (memoryMonitor h u l);; drain) s)
        with ((top (guarded_pass h true);; drain) s).
      * apply Hguard. apply andb_true_iff in E as [_ E]. by apply negb_true_iff in E.
      * rewrite !bind_eq. unfold top, try_catch. by rewrite memoryMonitor_eq, E.
    + apply Hidle. by rewrite memoryMonitor_eq, E.
  - destruct (armed h ArErrorCb); cbn [when]; [|by apply Hidle].
    by apply arError_turn_spec.
  - rewrite top_modify. destruct (armed_top_level h) as (-> & _ & _). cbn [when].
    assert (Hm' : micro (set_hidden b s) = []) by done.
    destruct b.
    + replace ((top (visibilityListener h);; drain) (set_hidden true s))
        with ((top (performCleanup h true);; drain) (set_hidden true s)).
      * pose proof (unguarded_turn_spec h _ Hm') as H.
        destruct ((top (performCleanup h true);; drain) (set_hidden true s)) as [[r s'] es].
        destruct H as [[] _]. by split.
      * rewrite !bind_eq. unfold top, try_catch, visibilityListener.
        rewrite bind_eq. cbn [gets hidden set_hidden when].
        by destruct (performCleanup h true (set_hidden true s)) as [[[]] ?].
    + rewrite (idle_turn _ _ Hm').
      * split; cbn; try done. lia.
      * reflexivity.
  - destruct (armed_top_level h) as (_ & -> & _). cbn [when]. unfold unloadListener.
    pose proof (unguarded_turn_spec h _ Hm) as H.
    destruct ((top (performCleanup h true);; drain) s) as [[r s'] es]. tauto.
  - destruct (armed_top_level h) as (_ & _ & ->). cbn [when]. unfold unloadListener.
    pose proof (unguarded_turn_spec h _ Hm) as H.
    destruct ((top (performCleanup h true);; drain) s) as [[r s'] es]. tauto.
  - pose proof (fire_timeout_turn_spec h id s Hm) as H.
    destruct ((top (fire_timeout h id);; drain) s) as [[r s'] es]. tauto.
Qed.

Lemma stamp_effects t es : (stamp t es).*2 = es.
Proof. unfold stamp. induction es; cbn; congruence. Qed.

Lemma passes_finish s t es :
  passes (set_log (log s ++ stamp t es) s) = passes s ++ omap pass_level es.
Proof. unfold passes. cbn. by rewrite fmap_app, omap_app, stamp_effects. Qed.

(** ** Invariants of the loop *)

(** What every turn preserves. *)
Lemma macrotask_spec h s ev :
  micro s = [] →
  micro (macrotask h s ev) = [] ∧
  clock (macrotask h s ev) = Z.max (clock s) ev.1 ∧
  (∃ l, passes (macrotask h s ev) = passes s ++ l ∧ (length l ≤ 1)%nat) ∧
  (ids_fresh s = true → ids_fresh (macrotask h s ev) = true) ∧
  (0 ≤ errorCount (opt s) → 0 ≤ errorCount (opt (macrotask h s ev))) ∧
  (isProcessing (opt s) = true → isProcessing (opt (macrotask h s ev)) = true) ∧
  (dispose_throws h = false → isProcessing (opt s) = false →
   isProcessing (opt (macrotask h s ev)) = false).
Proof.
  intros Hm. unfold macrotask.
  set (s0 := set_clock (Z.max (clock s) ev.1) s).
  assert (Hm0 : micro s0 = []) by done.
  pose proof (turn_all h s0 ev.2 Hm0) as H.
  destruct ((top (dispatch h ev.2);; drain) s0) as [[r s'] es].
  destruct H as [H1 H2 H3 H4 H5 H6 H7 H8].
  split; [done|]. split; [by rewrite <- H2|]. split; [|by repeat split].
  exists (omap pass_level es). split; [|done].
  rewrite passes_finish. unfold passes. by rewrite H3.
Qed.

Lemma run_spec h evs : ∀ s,
  micro s = [] →
  micro (run h s evs) = [] ∧
  (ids_fresh s = true → ids_fresh (run h s evs) = true) ∧
  (0 ≤ errorCount (opt s) → 0 ≤ errorCount (opt (run h s evs))) ∧
  (isProcessing (opt s) = true → isProcessing (opt (run h s evs)) = true) ∧
  (dispose_throws h = false → isProcessing (opt s) = false →
   isProcessing (opt (run h s evs)) = false).
Proof.
  induction evs as [|ev evs IH]; intros s Hm; [done|].
  cbn [run fold_left].
  destruct (macrotask_spec h s ev Hm) as (H1 & _ & _ & H3 & H4 & H5 & H6).
  destruct (IH _ H1) as (I1 & I2 & I3 & I4 & I5). fold (run h (macrotask h s ev) evs).
  split; [done|]. split; [auto|]. split; [auto|]. split; auto.
Qed.

(** A page is ready between two turns: no reaction is pending and every
    pending timeout has an identifier already handed out. *)
Lemma run_init_ready h vs hid evs :
  micro (run h (init vs hid) evs) = [] ∧
  ids_fresh (run h (init vs hid) evs) = true ∧
  0 ≤ errorCount (opt (run h (init vs hid) evs)) ∧
  (dispose_throws h = false → isProcessing (opt (run h (init vs hid) evs)) = false).
Proof.
  destruct (run_spec h evs (init vs hid) eq_refl) as (H1 & H2 & H3 & _ & H5).
  split; [done|]. split; [by apply H2|]. split; [by apply H3|].
  intros Hd. by apply H5.
Qed.

(** ** The in-flight guard *)

Lemma guarded_dropped h s t st :
  micro s = [] → isProcessing (opt s) = true → guarded st = true →
  macrotask h s (t, st) = set_clock (Z.max (clock s) t) s.
Proof.
  intros Hm Hb Hg. unfold macrotask. cbn [fst snd].
  set (s0 := set_clock (Z.max (clock s) t) s).
  assert (Hm0 : micro s0 = []) by done.
  assert (Hrun : dispatch h st s0 = (Ret tt, s0, [])).
  { destruct st; try discriminate; cbn [dispatch].
    - destruct (armed h LightCleanupCb); [|done]. cbn [when].
      rewrite autoCleanup_eq. cbn. rewrite Hb. by rewrite andb_false_r.
    - destruct (armed h FullCleanupCb); [|done]. cbn [when].
      rewrite autoCleanup_eq. cbn. rewrite Hb. by rewrite andb_false_r.
    - destruct (armed h MemoryCb); [|done]. cbn [when].
      rewrite memoryMonitor_eq. cbn. rewrite Hb. by rewrite andb_false_r. }
  rewrite (idle_turn _ _ Hm0 Hrun). apply finish_idle.
Qed.

(** After an interval tick that starts a pass, [isProcessing] is set exactly
    when the pass threw. *)
Lemma guard_after_tick h s t (full : bool) :
  micro s = [] → hidden s = false → isProcessing (opt s) = false →
  armed h (if full then FullCleanupCb else LightCleanupCb) = true →
  isProcessing (opt (macrotask h s (t, if full then FullTimer else LightTimer)))
  = dispose_throws h.
Proof.
  intros Hm Hh Hb Ha. unfold macrotask. cbn [fst snd].
  set (s0 := set_clock (Z.max (clock s) t) s).
  assert (Hm0 : micro s0 = []) by done.
  assert (Hd : dispatch h (if full then FullTimer else LightTimer) s0
               = guarded_pass h full s0).
  { destruct full; cbn [dispatch]; rewrite Ha; cbn [when]; rewrite autoCleanup_eq;
      change (hidden s0) with (hidden s);
      change (isProcessing (opt s0)) with (isProcessing (opt s));
      by rewrite Hh, Hb. }
  assert (Heq : (top (dispatch h (if full then FullTimer else LightTimer));; drain) s0
                = (top (guarded_pass h full);; drain) s0).
  { rewrite !bind_eq. unfold top, try_catch. by rewrite Hd. }
  rewrite Heq. pose proof (guarded_turn_spec h full s0 Hm0 Hb) as H.
  destruct ((top (guarded_pass h full);; drain) s0) as [[r s1] es].
  by destruct H as (_ & _ & H).
Qed.

(** A tick that finds the page visible and the guard clear starts one pass
    of its level. *)
Lemma tick_accepted h s t (full : bool) :
  micro s = [] → hidden s = false → isProcessing (opt s) = false →
  armed h (if full then FullCleanupCb else LightCleanupCb) = true →
  passes (macrotask h s (t, if full then FullTimer else LightTimer)) = passes s ++ [full].
Proof.
  intros Hm Hh Hb Ha. unfold macrotask. cbn [fst snd].
  set (s0 := set_clock (Z.max (clock s) t) s).
  assert (Hm0 : micro s0 = []) by done.
  assert (Hd : dispatch h (if full then FullTimer else LightTimer) s0
               = guarded_pass h full s0).
  { destruct full; cbn [dispatch]; rewrite Ha; cbn [when]; rewrite autoCleanup_eq;
      change (hidden s0) with (hidden s);
      change (isProcessing (opt s0)) with (isProcessing (opt s));
      by rewrite Hh, Hb. }
  assert (Heq : (top (dispatch h (if full then FullTimer else LightTimer));; drain) s0
                = (top (guarded_pass h full);; drain) s0).
  { rewrite !bind_eq. unfold top, try_catch. by rewrite Hd. }
  rewrite Heq. pose proof (guarded_turn_spec h full s0 Hm0 Hb) as H.
  destruct ((top (guarded_pass h full);; drain) s0) as [[r s1] es].
  destruct H as ([_ _ Hlog _ _ _ _] & Hp & _).
  rewrite passes_finish, Hp. unfold passes. by rewrite Hlog.
Qed.

(** C1, as amended: while [isProcessing] is set, a timer tick or a heap
    sample is dropped without trace -- no pass, nothing queued, nothing
    scheduled, nothing logged; only the clock moves.  No turn of the loop,
    whatever the stimulus and whether or not [isProcessing] is set, starts
    more than one pass; a tick accepted on a visible page starts exactly one
    pass, of its level, and leaves [isProcessing] set only if that pass
    threw. *)
Theorem busy_timer_dropped h s :
  micro s = [] →
  (∀ t st, isProcessing (opt s) = true → guarded st = true →
     macrotask h s (t, st) = set_clock (Z.max (clock s) t) s) ∧
  (∀ ev, ∃ l, passes (macrotask h s ev) = passes s ++ l ∧ (length l ≤ 1)%nat) ∧
  (∀ t (full : bool), hidden s = false → isProcessing (opt s) = false →
     armed h (if full then FullCleanupCb else LightCleanupCb) = true →
     passes (macrotask h s (t, if full then FullTimer else LightTimer))
     = passes s ++ [full] ∧
     isProcessing (opt (macrotask h s (t, if full then FullTimer else LightTimer)))
     = dispose_throws h).
Proof.
  intros Hm. split; [|split].
  - intros t st Hb Hg. by apply guarded_dropped.
  - intros ev. by destruct (macrotask_spec h s ev Hm) as (_ & _ & H & _).
  - intros t full Hh Hb Ha. split; [by apply tick_accepted|by apply guard_after_tick].
Qed.

Lemma busy_timer_dropped_witness :
  macrotask failing_dispose_host stuck_state (600000, FullTimer)
  = set_clock (Z.max (clock stuck_state) 600000) stuck_state.
Proof.
  exact (proj1 (busy_timer_dropped failing_dispose_host stuck_state eq_refl)
           600000 FullTimer eq_refl eq_refl).
Defined.

(** C1, as stated, fails: after a light tick whose pass threw, the guard is
    still set, and the visibility listener starts a pass all the same. *)
Lemma in_flight_request_not_dropped :
  isProcessing (opt stuck_state) = true ∧
  passes (macrotask failing_dispose_host stuck_state (120001, VisibilityChange true))
    = passes stuck_state ++ [true] ∧
  ¬ dropped_while_in_flight failing_dispose_host stuck_state (120001, VisibilityChange true).
Proof.
  split; [reflexivity|]. split; [reflexivity|].
  intros H. specialize (H eq_refl). vm_compute in H. discriminate.
Qed.

(** C2: on [failing_dispose_host] the first light tick leaves [isProcessing]
    set, it stays set whatever comes next, and every later tick and heap
    sample is dropped. *)
Theorem guard_stuck_after_throw :
  isProcessing (opt stuck_state) = true ∧
  passes stuck_state = [false] ∧
  ∀ evs,
    isProcessing (opt (run failing_dispose_host stuck_state evs)) = true ∧
    ∀ t st, guarded st = true →
      macrotask failing_dispose_host (run failing_dispose_host stuck_state evs) (t, st)
      = set_clock (Z.max (clock (run failing_dispose_host stuck_state evs)) t)
          (run failing_dispose_host stuck_state evs).
Proof.
  split; [reflexivity|]. split; [reflexivity|]. intros evs.
  destruct (run_spec failing_dispose_host evs stuck_state eq_refl) as (Hm & _ & _ & Hb & _).
  specialize (Hb eq_refl). split; [done|]. intros t st Hg. by apply guarded_dropped.
Qed.

(** ** Tracking errors and their decay *)

(** The turn of an [arError] event, spelled out. *)
Lemma macrotask_arError h s t :
  armed h ArErrorCb = true → micro s = [] →
  let s0 := set_clock (Z.max (clock s) t) s in
  let n := errorCount (opt s) + 1 in
  let full := 3 <? n in
  ∃ s1 es,
    pass_spec h full (with_errors n s0) s1 es ∧
    macrotask h s (t, ArError) =
      if dispose_throws h
      then set_log (log s1 ++ stamp (clock s0) (EPerformCleanup full :: es ++ [EUncaught])) s1
      else set_log (log s1 ++ stamp (clock s0)
                      (EPerformCleanup full :: es ++
                       [ESetTimeout (next_id s1) DecayError 300000]))
             (with_decay (if full then with_errors 0 s1 else s1)).
Proof.
  intros Ha Hm s0 n full. unfold macrotask. cbn [fst snd dispatch]. rewrite Ha. cbn [when].
  fold s0. assert (Hm0 : micro s0 = []) by done.
  destruct (arError_turn h s0 Hm0) as (s1 & es & _ & Hspec & Hturn).
  exists s1, es. split; [done|]. rewrite Hturn. fold n. fold full.
  destruct (dispose_throws h); [reflexivity|].
  subst full n. change (errorCount (opt s0)) with (errorCount (opt s)).
  destruct (3 <? errorCount (opt s) + 1); reflexivity.
Qed.

(** C3, as amended: an [arError] event increments [errorCount] first and
    picks the level from the new value: from 3 the pass is Full and, when no
    [dispose()] throws, the count is back to 0 once the pass has returned;
    from 0, 1 or 2 the pass is Light and the count stays at its incremented
    value.  When the pass throws, the count is left at its incremented value
    whatever the level: the reset is skipped. *)
Theorem arError_level h s t :
  armed h ArErrorCb = true → micro s = [] →
  let n := errorCount (opt s) in
  let s' := macrotask h s (t, ArError) in
  (n = 3 → passes s' = passes s ++ [true] ∧
           (dispose_throws h = false → errorCount (opt s') = 0)) ∧
  (0 ≤ n ≤ 2 → passes s' = passes s ++ [false] ∧ errorCount (opt s') = n + 1) ∧
  (dispose_throws h = true → errorCount (opt s') = n + 1).
Proof.
  intros Ha Hm n s'.
  destruct (macrotask_arError h s t Ha Hm) as (s1 & es & Hspec & Hrun).
  fold n in Hspec, Hrun. fold s' in Hrun.
  pose proof Hspec as [(Hc & Hh & Ho & Hmi & Hl) _ _ _]. cbn in Ho, Hl.
  assert (Hpass : passes s' = passes s ++ [3 <? n + 1]).
  { rewrite Hrun. destruct (dispose_throws h).
    - rewrite passes_finish. unfold passes at 1. rewrite Hl. f_equal.
      by eapply pass_spec_passes.
    - replace (passes (set_log _ _)) with
        (passes (set_log (log s1 ++ stamp (clock (set_clock (Z.max (clock s) t) s))
                   (EPerformCleanup (3 <? n + 1) :: es ++
                    [ESetTimeout (next_id s1) DecayError 300000])) s1))
        by (by destruct (3 <? n + 1)).
      rewrite passes_finish. unfold passes at 1. rewrite Hl. f_equal.
      by eapply pass_spec_passes. }
  assert (Hcount : errorCount (opt s') =
            if dispose_throws h then n + 1
            else if 3 <? n + 1 then 0 else n + 1).
  { rewrite Hrun. destruct (dispose_throws h); cbn; [by rewrite Ho|].
    destruct (3 <? n + 1); cbn; [done|by rewrite Ho]. }
  split; [|split].
  - intros Hn. rewrite Hpass, Hcount, Hn. split; [done|]. by intros ->.
  - intros Hn. rewrite Hpass, Hcount.
    replace (3 <? n + 1) with false by (symmetry; apply Z.ltb_ge; lia).
    split; [done|]. by destruct (dispose_throws h).
  - intros Hd. by rewrite Hcount, Hd.
Qed.

Lemma arError_level_witness :
  passes (macrotask healthy_host three_errors (40, ArError)) = passes three_errors ++ [true] ∧
  errorCount (opt (macrotask healthy_host three_errors (40, ArError))) = 0.
Proof.
  destruct (arError_level healthy_host three_errors 40 eq_refl eq_refl) as (H3 & _ & _).
  destruct (H3 eq_refl) as [Hp Hc]. split; [exact Hp|exact (Hc eq_refl)].
Defined.

(** Four errors in quick succession: three Light passes, then a Full one
    that brings the count back to 0. *)
Lemma error_burst_scenario :
  passes (macrotask healthy_host three_errors (40, ArError)) = [false; false; false; true] ∧
  errorCount (opt three_errors) = 3 ∧
  errorCount (opt (macrotask healthy_host three_errors (40, ArError))) = 0.
Proof. by vm_compute. Qed.

(** C3, as stated, fails: on [failing_dispose_host] the fourth error finds
    the count at 3 and starts a Full pass, the pass throws at [dispose()],
    and the count is left at 4 instead of being reset. *)
Lemma thrown_full_pass_skips_reset :
  errorCount (opt three_failed_errors) = 3 ∧
  passes (macrotask failing_dispose_host three_failed_errors (40, ArError))
    = passes three_failed_errors ++ [true] ∧
  errorCount (opt (macrotask failing_dispose_host three_failed_errors (40, ArError))) = 4 ∧
  ¬ reset_after_full failing_dispose_host three_failed_errors (40, ArError).
Proof.
  split; [reflexivity|]. split; [reflexivity|]. split; [reflexivity|].
  intros H. specialize (H eq_refl). vm_compute in H. discriminate.
Qed.

Lemma decays_no_decay new :
  Forall (λ t : nat * (Z * task), t.2.2 ≠ DecayError) new → decays new = [].
Proof.
  induction 1 as [|[id [due k]] new Hk Hnew IH]; [done|].
  unfold decays in *. cbn in *. by destruct k.
Qed.

(** A timeout that is not yet due does nothing. *)
Lemma macrotask_timeout_early h s t id due k :
  micro s = [] → find_timer id (timers s) = Some (due, k) →
  Z.max (clock s) t < due →
  macrotask h s (t, Timeout id) = set_clock (Z.max (clock s) t) s.
Proof.
  intros Hm Hf Hlt. unfold macrotask. cbn [fst snd dispatch].
  set (s0 := set_clock (Z.max (clock s) t) s).
  assert (Hm0 : micro s0 = []) by done.
  assert (Hrun : fire_timeout h id s0 = (Ret tt, s0, [])).
  { rewrite fire_timeout_eq. cbn [timers s0 set_clock]. rewrite Hf.
    replace (due <=? clock s0) with false; [done|].
    symmetry. apply Z.leb_gt. by cbn. }
  rewrite (idle_turn _ _ Hm0 Hrun). apply finish_idle.
Qed.

(** A timeout that is due runs its callback, once. *)
Lemma macrotask_timeout_due h s t id due k :
  micro s = [] → find_timer id (timers s) = Some (due, k) →
  due ≤ Z.max (clock s) t →
  let s0 := set_clock (Z.max (clock s) t) s in
  ∃ r s1 es,
    run_task h k (set_timers (remove_timer id (timers s0)) (next_id s0) s0) = (r, s1, es) ∧
    macrotask h s (t, Timeout id) =
      set_log (log s1 ++ stamp (clock s0)
                 (es ++ match r with Throw => [EUncaught] | Ret _ => [] end)) s1.
Proof.
  intros Hm Hf Hle s0. unfold macrotask. cbn [fst snd dispatch]. fold s0.
  pose proof (fire_timeout_eq h id s0) as Heq.
  assert (Hf0 : find_timer id (timers s0) = Some (due, k)) by exact Hf.
  assert (Hdue : (due <=? clock s0) = true) by (apply Z.leb_le; exact Hle).
  rewrite Hf0, Hdue in Heq.
  destruct (run_task_spec h k (set_timers (remove_timer id (timers s0)) (next_id s0) s0))
    as (r & s1 & es & Hrun & Hmi & _).
  exists r, s1, es. split; [done|].
  rewrite bind_eq. unfold top, try_catch. rewrite Heq, Hrun.
  assert (Hm1 : micro s1 = []) by (by rewrite Hmi).
  destruct r as [[]|]; cbn [emit]; rewrite drain_nil by done; by rewrite ?app_nil_r.
Qed.

(** C4, as stated, fails: on [failing_dispose_host] the first [arError]
    event increments [errorCount] and schedules no decay. *)
Lemma failed_pass_schedules_no_decay :
  errorCount (opt (macrotask failing_dispose_host (init demo_videos false) (0, ArError))) = 1 ∧
  timers (macrotask failing_dispose_host (init demo_videos false) (0, ArError)) = [] ∧
  decays (timers (macrotask failing_dispose_host (init demo_videos false) (0, ArError))) = [].
Proof. by vm_compute. Qed.

(** C4, as amended: an [arError] event whose pass returns schedules exactly
    one decay, due 300 000 ms later; the loop does not run it before that
    time; when it runs, [errorCount] becomes [max 0 (errorCount - 1)]; and
    along any sequence of stimuli [errorCount] never becomes negative. *)
Theorem arError_decay h s t :
  armed h ArErrorCb = true → micro s = [] → ids_fresh s = true →
  dispose_throws h = false →
  let s' := macrotask h s (t, ArError) in
  (∃ id,
     find_timer id (timers s') = Some (clock s' + 300000, DecayError) ∧
     (∀ t2, Z.max (clock s') t2 < clock s' + 300000 →
        macrotask h s' (t2, Timeout id) = set_clock (Z.max (clock s') t2) s') ∧
     (∀ t2, clock s' + 300000 ≤ t2 →
        errorCount (opt (macrotask h s' (t2, Timeout id)))
        = Z.max 0 (errorCount (opt s') - 1))) ∧
  decays (timers s') = decays (timers s) ++ [clock s' + 300000] ∧
  (∀ evs, 0 ≤ errorCount (opt s) → 0 ≤ errorCount (opt (run h s evs))).
Proof.
  intros Ha Hm Hids Hd s'.
  destruct (macrotask_spec h s (t, ArError) Hm) as (Hm' & Hc' & _).
  fold s' in Hm', Hc'. cbn [fst] in Hc'.
  destruct (macrotask_arError h s t Ha Hm) as (s1 & es & Hspec & Hrun).
  fold s' in Hrun. rewrite Hd in Hrun.
  set (s0 := set_clock (Z.max (clock s) t) s) in *.
  set (full := 3 <? errorCount (opt s) + 1) in *.
  pose proof Hspec as [(Hc & _ & _ & _ & _) _ _ (new & Ht & Hn & Hi & Hnew)].
  assert (Hids1 : ids_fresh s1 = true) by (by eapply pass_spec_ids).
  assert (Hc1 : clock s1 = clock s') by (rewrite Hc, Hc'; reflexivity).
  assert (Htim : timers s' = timers s1 ++ [(next_id s1, (clock s' + 300000, DecayError))]).
  { rewrite <- Hc1, Hrun. by destruct full. }
  split; [|split].
  - exists (next_id s1).
    assert (Hfind : find_timer (next_id s1) (timers s') = Some (clock s' + 300000, DecayError)).
    { rewrite Htim. apply find_timer_new; [done|done| |lia].
      apply elem_of_app. right. by apply list_elem_of_singleton. }
    split; [done|]. split.
    + intros t2 Hlt. by eapply macrotask_timeout_early.
    + intros t2 Hle.
      destruct (macrotask_timeout_due h s' t2 (next_id s1) _ _ Hm' Hfind)
        as (r & s2 & es2 & Hrun2 & ->); [lia|].
      destruct (run_task_spec h DecayError
                  (set_timers
                     (remove_timer (next_id s1) (timers (set_clock (Z.max (clock s') t2) s')))
                     (next_id (set_clock (Z.max (clock s') t2) s'))
                     (set_clock (Z.max (clock s') t2) s')))
        as (r' & s2' & es2' & Hrun2' & _ & _ & _ & _ & _ & _ & _ & He).
      rewrite Hrun2 in Hrun2'. injection Hrun2' as <- <- <-. exact He.
  - rewrite Htim. unfold decays at 1. rewrite omap_app. fold (decays (timers s1)).
    cbn. f_equal. rewrite Ht. unfold decays at 1. rewrite omap_app.
    fold (decays (timers s0)) (decays new). rewrite (decays_no_decay new), app_nil_r; [done|].
    eapply Forall_impl; [exact Hnew|]. by intros ? [? _].
  - intros evs. by destruct (run_spec h evs s Hm) as (_ & _ & H & _ & _).
Qed.

Lemma arError_decay_witness :
  decays (timers (macrotask healthy_host three_errors (40, ArError)))
  = decays (timers three_errors) ++ [clock (macrotask healthy_host three_errors (40, ArError)) + 300000].
Proof.
  exact (proj1 (proj2 (arError_decay healthy_host three_errors 40
                         eq_refl eq_refl eq_refl eq_refl))).
Defined.

(** ** The heap sampler *)






(** [over_threshold] computes what the floats of the kernel compute, for
    every pair of these sizes. *)
Lemma over_threshold_agrees_with_floats :
  forallb (λ used, forallb (agrees used) number_samples) number_samples = true.
Proof. vm_compute. reflexivity. Qed.







(** ** Inside a pass *)

Lemma within_not_in lo hi es e :
  within lo hi es → (phase e < lo ∨ hi < phase e)%nat → e ∉ es.
Proof.
  intros Hw Hp Hin. eapply Forall_forall in Hw; [|exact Hin]. cbn in Hw. lia.
Qed.

Lemma touches_phase i e : touches i e = true → phase e = 1%nat.
Proof. destruct e as [| | | | | | | | | | | | | | |? [] ?|]; cbn; congruence. Qed.

Lemma filter_touches_within i lo hi es :
  (2 ≤ lo)%nat → within lo hi es → List.filter (touches i) es = [].
Proof.
  intros Hlo. induction 1 as [|e es He Hes IH]; [done|].
  cbn. destruct (touches i e) eqn:Et; [|done].
  apply touches_phase in Et. lia.
Qed.

Lemma in_range_all (n i : nat) (A : Type) (l : list A) :
  length l = n → (if in_range 0 n i then l !! i else None) = l !! i.
Proof.
  intros <-. unfold in_range. case_bool_decide; [done|].
  symmetry. apply lookup_ge_None. lia.
Qed.




(** What a due restore and a due restart add to the log. *)
Lemma macrotask_timeout_log h s t id due k :
  micro s = [] → find_timer id (timers s) = Some (due, k) →
  due ≤ Z.max (clock s) t →
  log (macrotask h s (t, Timeout id)) =
  log s ++ stamp (Z.max (clock s) t)
    match k with
    | RestoreSrc i u => [EVideoSrc i u]
    | StartAr =>
        match a_scene h ≫= mindar_image_system with
        | Some ar => EArStart :: if start_throws ar then [EUncaught] else []
        | None => []
        end
    | DecayError => []
    end.
Proof.
  intros Hm Hf Hle.
  destruct (macrotask_timeout_due h s t id due k Hm Hf Hle) as (r & s1 & es & Hrun & ->).
  cbn [log set_log]. destruct k as [i u| |]; cbn [run_task] in Hrun.
  - unfold video_set_src in Hrun. revert Hrun. munfold. cbn.
    destruct (videos s !! i); intros [= <- <- <-]; reflexivity.
  - destruct (a_scene h ≫= mindar_image_system) as [ar|].
    + unfold call in Hrun. revert Hrun. munfold.
      destruct (start_throws ar); intros [= <- <- <-]; reflexivity.
    + injection Hrun as <- <- <-. reflexivity.
  - revert Hrun. munfold. intros [= <- <- <-]. reflexivity.
Qed.

Lemma for_loop_unbind_eq n : ∀ from s,
  for_loop unbind_unit from n s = (Ret tt, s, seq from n ≫= unit_calls).
Proof.
  induction n as [|n IH]; intros from s; [reflexivity|].
  cbn [for_loop]. rewrite bind_eq. unfold unbind_unit at 1. munfold.
  rewrite IH. reflexivity.
Qed.

Lemma cleanup_gl_eq g s : cleanup_gl g s = (Ret tt, s, unbind_calls g).
Proof.
  unfold cleanup_gl. rewrite bind_eq, for_loop_unbind_eq. munfold. reflexivity.
Qed.

Lemma forEach_textures_eq ts : ∀ j s,
  existsb throwing_texture ts = false →
  forEach dispose_texture j ts s = (Ret tt, s, dispose_calls j ts).
Proof.
  induction ts as [|t ts IH]; intros j s Hno; [reflexivity|].
  cbn [existsb] in Hno. apply orb_false_iff in Hno as [Ht Hts].
  cbn [forEach]. rewrite bind_eq.
  destruct t as [|[[|]|]]; try discriminate; cbn [dispose_texture dispose_calls];
    munfold; by rewrite IH.
Qed.

Lemma cleanup_webgl_eq h s :
  dispose_throws h = false → cleanup_webgl h s = (Ret tt, s, webgl_calls h).
Proof.
  unfold dispose_throws, cleanup_webgl, webgl_calls.
  destruct (a_scene h ≫= scene_renderer) as [rd|]; [|reflexivity].
  intros Hd. rewrite bind_eq.
  assert (Ht : cleanup_textures (memory_textures rd) s
               = (Ret tt, s,
                  match memory_textures rd with RegArray ts => dispose_calls 0 ts | _ => [] end)).
  { destruct (memory_textures rd) as [|ts|]; cbn in *; [reflexivity| |reflexivity].
    by apply forEach_textures_eq. }
  rewrite Ht, bind_eq.
  destruct (getContext rd) as [g|].
  - by rewrite cleanup_gl_eq, cleanup_gc_eq.
  - cbn. by rewrite cleanup_gc_eq.
Qed.

Lemma forEach_videos_eq full (xs : list video) : ∀ k s,
  (∀ j x, xs !! j = Some x → videos s !! (k + j)%nat = Some x) →
  (forEach (λ i _, cleanup_video full i) k xs s).2 = videos_calls full k (next_id s) xs ∧
  next_id (forEach (λ i _, cleanup_video full i) k xs s).1.2
  = (next_id s + if full then playing xs else 0)%nat.
Proof.
  induction xs as [|x xs IH]; intros k s Hxs.
  - cbn. split; [done|]. destruct full; lia.
  - cbn [forEach]. rewrite bind_eq, cleanup_video_eq.
    pose proof (Hxs 0%nat x eq_refl) as Hk. rewrite Nat.add_0_r in Hk. rewrite Hk.
    set (s1 := (if negb (paused x) && full then _ else id) _).
    assert (Hv1 : videos s1 = <[k := video_after full x]> (videos s))
      by (subst s1; destruct (negb (paused x) && full); reflexivity).
    assert (Hn1 : next_id s1 = if negb (paused x) && full then S (next_id s) else next_id s)
      by (subst s1; destruct (negb (paused x) && full); reflexivity).
    destruct (IH (S k) s1) as [I1 I2].
    { intros j y Hj. rewrite Hv1, list_lookup_insert_ne by lia.
      replace (S k + j)%nat with (k + S j)%nat by lia. by apply Hxs. }
    destruct (forEach _ (S k) xs s1) as [[r s2] es]. cbn [fst snd] in *.
    split.
    + cbn [videos_calls]. by rewrite I1, Hn1.
    + rewrite I2, Hn1. unfold playing. cbn [List.filter].
      destruct (paused x), full; cbn; lia.
Qed.

Lemma cleanup_videos_eq full s :
  (cleanup_videos full s).2 = videos_calls full 0 (next_id s) (videos s) ∧
  next_id (cleanup_videos full s).1.2
  = (next_id s + if full then playing (videos s) else 0)%nat.
Proof.
  unfold cleanup_videos. rewrite bind_eq. cbn [gets].
  destruct (forEach_videos_eq full (videos s) 0 s) as [H1 H2]; [by intros j x|].
  by destruct (forEach _ 0%nat (videos s) s) as [[[]] ?].
Qed.

(** C7, as amended: a Full pass in which no [dispose()] throws returns
    normally and makes exactly the calls of [full_pass_calls], in that order:
    per playing video pause, position 0, source cleared, [load()], restore
    scheduled 100 ms ahead; then the texture disposals; then, per texture
    unit, [activeTexture] and the two [bindTexture], followed by the two
    [bindBuffer], [bindRenderbuffer] and [bindFramebuffer]; then the GC hint;
    then [stop()]; then [start()] scheduled 1000 ms ahead.  Every playing
    video is left paused at position 0 with an empty source.  The loop never
    runs a timeout before it is due, and runs the restore and the restart
    once they are. *)
Theorem full_pass_order h s :
  dispose_throws h = false → ids_fresh s = true →
  let '(r, s', es) := performCleanup h true s in
  r = Ret tt ∧
  es = full_pass_calls h s ∧
  ordered es ∧
  (∀ i v, videos s !! i = Some v →
     videos s' !! i = Some (if paused v then v else Video true 0 EmptyString)) ∧
  (∀ i v, videos s !! i = Some v → paused v = false →
     ∃ id, List.filter (touches i) es =
             [EVideoPause i; EVideoSeek i 0; EVideoSrc i ""; EVideoLoad i;
              ESetTimeout id (RestoreSrc i (src v)) 100] ∧
           find_timer id (timers s') = Some (clock s + 100, RestoreSrc i (src v))) ∧
  (∀ rd, a_scene h ≫= scene_renderer = Some rd →
     (∀ ts k, memory_textures rd = RegArray ts →
              ts !! k = Some (TexObject (Some false)) → ETextureDispose k ∈ es) ∧
     (∀ g, getContext rd = Some g →
           (∀ u, (u < MAX_TEXTURE_IMAGE_UNITS g)%nat → EActiveTexture u ∈ es) ∧
           (∀ e, e ∈ unbind_tail → e ∈ es)) ∧
     (is_Some (window_gc h) → EGc ∈ es)) ∧
  (∀ ar, a_scene h ≫= mindar_image_system = Some ar →
     EArStop ∈ es ∧
     (stop_throws ar = false →
      ∃ id, ESetTimeout id StartAr 1000 ∈ es ∧
            find_timer id (timers s') = Some (clock s + 1000, StartAr))) ∧
  (∀ s2 id due k t, micro s2 = [] → find_timer id (timers s2) = Some (due, k) →
     (Z.max (clock s2) t < due →
      macrotask h s2 (t, Timeout id) = set_clock (Z.max (clock s2) t) s2) ∧
     (due ≤ Z.max (clock s2) t →
      ∀ i u, k = RestoreSrc i u →
      log (macrotask h s2 (t, Timeout id))
      = log s2 ++ [(Z.max (clock s2) t, EVideoSrc i u)]) ∧
     (due ≤ Z.max (clock s2) t →
      ∀ ar, k = StartAr → a_scene h ≫= mindar_image_system = Some ar →
      start_throws ar = false →
      log (macrotask h s2 (t, Timeout id))
      = log s2 ++ [(Z.max (clock s2) t, EArStart)])).
Proof.
  intros Hd Hids.
  destruct (performCleanup_run h true s) as (s' & es & Hrun & Hps).
  destruct (performCleanup_blocks h true s) as (s1 & ev & et & Hcv & Hvs & Hw & Hws & Hblocks).
  rewrite Hd in Hrun, Hblocks. rewrite Hblocks in Hrun. injection Hrun as Hs' Hes.
  rewrite Hblocks.
  destruct Hps as [_ _ Hord (newp & Htp & Hnp & Hip & _)].
  destruct Hvs as [(Hc1 & _) Hvid Hcalls Hph1 (new & Ht1 & Hn1 & Hi1 & _)].
  pose proof Hws as [Hw24 _ _ _ Hdone].
  assert (Hw56 := ar_calls_within h true (next_id s1)).
  assert (Hids1 : ids_fresh s1 = true) by (by eapply ids_fresh_grow).
  assert (Hfind : ∀ id x, (next_id s ≤ id)%nat →
            (id, x) ∈ timers
              (if restart_scheduled h true
               then set_timers (timers s1 ++ [(next_id s1, (clock s1 + 1000, StartAr))])
                               (S (next_id s1)) s1
               else s1) →
            find_timer id
              (timers
                 (if restart_scheduled h true
                  then set_timers (timers s1 ++ [(next_id s1, (clock s1 + 1000, StartAr))])
                                  (S (next_id s1)) s1
                  else s1)) = Some x).
  { intros id x Hge Hin. rewrite Hs' in *. rewrite Htp in *. by apply find_timer_new. }
  split; [done|]. split.
  { destruct (cleanup_videos_eq true s) as [Hev Hnx]. rewrite Hcv in Hev, Hnx.
    cbn [fst snd] in Hev, Hnx. rewrite (cleanup_webgl_eq h s1 Hd), Hd in Hw.
    injection Hw as <-. unfold full_pass_calls. by rewrite Hev, Hnx. }
  split; [by rewrite Hes|]. split.
  { intros i v Hvi.
    assert (Hvs' : videos (if restart_scheduled h true
                           then set_timers (timers s1 ++ [(next_id s1, (clock s1 + 1000, StartAr))])
                                  (S (next_id s1)) s1
                           else s1) = videos s1) by (by destruct (restart_scheduled h true)).
    rewrite Hvs', (Hvid i), Hvi. unfold in_range. apply lookup_lt_Some in Hvi.
    case_bool_decide; [reflexivity|lia]. }
  split; [|split; [|split]].
  - intros i v Hv Hp. specialize (Hcalls i).
    rewrite in_range_all, Hv in Hcalls by done.
    destruct Hcalls as (id & Hf & Hin). destruct (Hin eq_refl Hp) as [Hge Hmem].
    exists id. split.
    + cbn [List.filter touches]. rewrite !List.filter_app, Hf.
      rewrite (filter_touches_within i 2 4 et), (filter_touches_within i 5 6 _) by (done || lia).
      rewrite !app_nil_r. unfold video_calls. by rewrite Hp.
    + apply Hfind; [done|].
      destruct (restart_scheduled h true); cbn; [apply elem_of_app; by left|done].
  - intros rd Hrd. destruct (Hdone Hd rd Hrd) as (es0 & -> & _ & Htex & Hgl).
    split; [|split].
    + intros ts k Hreg Hk. apply list_elem_of_further, elem_of_app. right.
      apply elem_of_app. left. apply elem_of_app. left. by eapply Htex.
    + intros g Hg. destruct (Hgl g Hg) as [Hu Ht]. split.
      * intros u Hlt. apply list_elem_of_further, elem_of_app. right.
        apply elem_of_app. left. apply elem_of_app. left. by apply Hu.
      * intros e He. apply list_elem_of_further, elem_of_app. right.
        apply elem_of_app. left. apply elem_of_app. left. by apply Ht.
    + intros [b Hb]. apply list_elem_of_further, elem_of_app. right.
      apply elem_of_app. left. apply elem_of_app. right. rewrite Hb.
      destruct b; apply list_elem_of_here.
  - intros ar Har. unfold ar_calls. rewrite Har. cbn [stop_throws]. split.
    + apply list_elem_of_further, elem_of_app. right. apply elem_of_app. right.
      destruct (stop_throws ar); apply list_elem_of_here.
    + intros Hst. rewrite Hst. exists (next_id s1). split.
      * apply list_elem_of_further, elem_of_app. right. apply elem_of_app. right.
        apply list_elem_of_further, list_elem_of_here.
      * rewrite <- Hc1. apply Hfind; [lia|].
        unfold restart_scheduled. rewrite Har, Hst. cbn.
        apply elem_of_app. right. apply list_elem_of_here.
  - intros s2 id due k t Hm2 Hf2. split; [|split].
    + intros Hlt. by eapply macrotask_timeout_early.
    + intros Hle i u ->. by rewrite (macrotask_timeout_log h s2 t id due _ Hm2 Hf2 Hle).
    + intros Hle ar -> Har Hst.
      rewrite (macrotask_timeout_log h s2 t id due _ Hm2 Hf2 Hle), Har, Hst. reflexivity.
Qed.

Lemma full_pass_order_witness :
  ordered (performCleanup healthy_host true (init demo_videos false)).2.
Proof.
  pose proof (full_pass_order healthy_host (init demo_videos false) eq_refl eq_refl) as H.
  destruct (performCleanup healthy_host true (init demo_videos false)) as [[r s'] es].
  exact (proj1 (proj2 (proj2 H))).
Defined.

(** C7, as stated, fails: on [failing_dispose_host], whose scene has a WebGL
    context with two texture units, a [gc] function and a tracking system,
    the Full pass run by the [pagehide] listener ends at the [dispose()] that
    throws: nothing is unbound, no GC hint is made, the tracking system is
    neither stopped nor restarted. *)
Lemma thrown_full_pass_stops_short :
  log (run failing_dispose_host (init demo_videos false) [(1000, PageHide)])
  = [(1000, EPerformCleanup true); (1000, EVideoPause 0); (1000, EVideoSeek 0 0);
     (1000, EVideoSrc 0 ""); (1000, EVideoLoad 0);
     (1000, ESetTimeout 0 (RestoreSrc 0 "a.mp4") 100); (1000, ETextureDispose 0);
     (1000, EUncaught)] ∧
  timers (run failing_dispose_host (init demo_videos false) [(1000, PageHide)])
  = [(0%nat, (1100, RestoreSrc 0 "a.mp4"))] ∧
  (performCleanup failing_dispose_host true (init demo_videos false)).2
  ≠ full_pass_calls failing_dispose_host (init demo_videos false) ∧
  EBindTexture TEXTURE_2D ∈ full_pass_calls failing_dispose_host (init demo_videos false) ∧
  EGc ∈ full_pass_calls failing_dispose_host (init demo_videos false) ∧
  EArStop ∈ full_pass_calls failing_dispose_host (init demo_videos false).
Proof.
  split; [reflexivity|]. split; [reflexivity|]. split; [by vm_compute|].
  vm_compute. repeat split.
  - do 8 apply list_elem_of_further. apply list_elem_of_here.
  - do 17 apply list_elem_of_further. apply list_elem_of_here.
  - do 18 apply list_elem_of_further. apply list_elem_of_here.
Qed.

(** C8, as stated, fails: on a page without a scene (hence without a
    renderer) whose host exposes [gc], the pass run by the [pagehide]
    listener requests no GC hint. *)
Lemma no_renderer_no_gc_hint :
  window_gc no_scene_host = Some false ∧
  log (run no_scene_host (init demo_videos false) [(1000, PageHide)])
  = [(1000, EPerformCleanup true); (1000, EVideoPause 0); (1000, EVideoSeek 0 0);
     (1000, EVideoSrc 0 ""); (1000, EVideoLoad 0);
     (1000, ESetTimeout 0 (RestoreSrc 0 "a.mp4") 100)] ∧
  EGc ∉ (performCleanup no_scene_host true (init demo_videos false)).2.
Proof.
  split; [reflexivity|]. split; [reflexivity|].
  vm_compute. intros H. repeat (apply elem_of_cons in H as [H|H]; [discriminate|]).
  by apply elem_of_nil in H.
Qed.

Lemma gc_calls_gc gc : EGc ∈ gc_calls gc ↔ is_Some gc.
Proof.
  destruct gc as [[|]|]; cbn; split; intros H; try by eexists.
  - apply list_elem_of_here.
  - apply list_elem_of_here.
  - by apply elem_of_nil in H.
  - by destruct H.
Qed.

Lemma gc_calls_warn gc : EWarn "GC not available" ∈ gc_calls gc ↔ gc = Some true.
Proof.
  destruct gc as [[|]|]; cbn; split; intros H; try done.
  - apply list_elem_of_further, list_elem_of_here.
  - apply elem_of_cons in H as [H|H]; [discriminate|]. by apply elem_of_nil in H.
  - by apply elem_of_nil in H.
Qed.

(** Membership of a call of phase 4 in the calls of a pass. *)
Lemma phase4_in_pass h full s e :
  phase e = 4%nat →
  e ∈ (performCleanup h full s).2 ↔
  is_Some (a_scene h ≫= scene_renderer) ∧ dispose_throws h = false ∧
  e ∈ gc_calls (window_gc h).
Proof.
  intros He.
  destruct (performCleanup_blocks h full s) as (s1 & ev & et & _ & Hvs & _ & Hws & ->).
  destruct Hvs as [_ _ _ Hph1 _]. apply const_phase_within in Hph1.
  destruct Hws as [Hw24 _ Habort Hnone Hdone].
  assert (Hev : e ∉ ev) by (eapply within_not_in; [exact Hph1|lia]).
  assert (Har : e ∉ ar_calls h full (next_id s1))
    by (eapply within_not_in; [apply ar_calls_within|lia]).
  assert (Hhd : e ≠ EPerformCleanup full) by (intros ->; discriminate).
  destruct (dispose_throws h) eqn:Hd; cbn [snd].
  - split; [|by intros (_ & ? & _)]. intros H.
    apply elem_of_cons in H as [H|H]; [done|]. apply elem_of_app in H as [H|H]; [done|].
    exfalso. eapply within_not_in; [exact (Habort eq_refl)| |exact H]. lia.
  - destruct (a_scene h ≫= scene_renderer) as [rd|] eqn:Hrd.
    + destruct (Hdone eq_refl rd eq_refl) as (es0 & -> & Hw23 & _).
      assert (He0 : e ∉ es0) by (eapply within_not_in; [exact Hw23|lia]).
      rewrite elem_of_cons, !elem_of_app. split.
      * intros [H|[H|[[H|H]|H]]]; done.
      * intros (_ & _ & H). right. right. left. by right.
    + rewrite (Hnone eq_refl). cbn [app]. rewrite elem_of_cons, elem_of_app. split.
      * intros [H|[H|H]]; done.
      * intros ([? ?] & _); done.
Qed.

(** C8, as amended: at either level, the GC hint is requested exactly when
    the scene has a renderer, the host exposes [gc] and no [dispose()] threw
    before -- whether or not the renderer yields a WebGL context.  An absent
    [gc] is skipped without a log entry; a [gc] that throws is logged, and the
    pass returns normally. *)
Theorem gc_hint_needs_renderer h full s :
  let '(r, s', es) := performCleanup h full s in
  (EGc ∈ es ↔
   is_Some (a_scene h ≫= scene_renderer) ∧ dispose_throws h = false ∧
   is_Some (window_gc h)) ∧
  (EWarn "GC not available" ∈ es ↔
   is_Some (a_scene h ≫= scene_renderer) ∧ dispose_throws h = false ∧
   window_gc h = Some true) ∧
  (dispose_throws h = false → r = Ret tt).
Proof.
  pose proof (phase4_in_pass h full s EGc eq_refl) as H1.
  pose proof (phase4_in_pass h full s (EWarn "GC not available") eq_refl) as H2.
  destruct (performCleanup_run h full s) as (s' & es & Hrun & _).
  rewrite Hrun in *. cbn [snd] in H1, H2.
  rewrite gc_calls_gc in H1. rewrite gc_calls_warn in H2.
  split; [done|]. split; [done|]. by intros ->.
Qed.

Lemma gc_hint_needs_renderer_witness :
  EGc ∈ (performCleanup no_gl_host false (init demo_videos false)).2 ∧
  EWarn "GC not available" ∈ (performCleanup no_gl_host false (init demo_videos false)).2 ∧
  (performCleanup no_gl_host false (init demo_videos false)).1.1 = Ret tt.
Proof.
  pose proof (gc_hint_needs_renderer no_gl_host false (init demo_videos false)) as H.
  destruct (performCleanup no_gl_host false (init demo_videos false)) as [[r s'] es].
  destruct H as (H1 & H2 & H3). split; [|split].
  - apply H1. split; [by eexists|]. split; [reflexivity|by eexists].
  - apply H2. split; [by eexists|]. split; reflexivity.
  - exact (H3 eq_refl).
Defined.

(** C9: on [failing_start_host] a Full pass stops the tracking system and
    schedules its restart; when the restart runs, one second later, its
    exception is caught by nobody and no warning is logged.  The same holds
    on every page whose tracking system has a [start()] that throws. *)
Theorem start_failure_uncaught :
  log (run failing_start_host (init [] false)
         [(5000, VisibilityChange true); (6000, Timeout 0)])
  = [(5000, EPerformCleanup true); (5000, ETextureDispose 0);
     (5000, EActiveTexture 0); (5000, EBindTexture TEXTURE_2D);
     (5000, EBindTexture TEXTURE_CUBE_MAP);
     (5000, EActiveTexture 1); (5000, EBindTexture TEXTURE_2D);
     (5000, EBindTexture TEXTURE_CUBE_MAP);
     (5000, EBindBuffer ARRAY_BUFFER); (5000, EBindBuffer ELEMENT_ARRAY_BUFFER);
     (5000, EBindRenderbuffer); (5000, EBindFramebuffer); (5000, EGc);
     (5000, EArStop); (5000, ESetTimeout 0 StartAr 1000);
     (6000, EArStart); (6000, EUncaught)] ∧
  ∀ h ar s t id due,
    a_scene h ≫= mindar_image_system = Some ar → start_throws ar = true →
    micro s = [] → find_timer id (timers s) = Some (due, StartAr) →
    due ≤ Z.max (clock s) t →
    log (macrotask h s (t, Timeout id))
    = log s ++ [(Z.max (clock s) t, EArStart); (Z.max (clock s) t, EUncaught)].
Proof.
  split; [reflexivity|].
  intros h ar s t id due Har Hst Hm Hf Hle.
  rewrite (macrotask_timeout_log h s t id due _ Hm Hf Hle), Har, Hst. reflexivity.
Qed.

(** C10: a video that is paused when the pass runs is left as it is, at
    either level: no call of the pass concerns it, its state is unchanged and
    no restore of its source is scheduled. *)
Theorem paused_video_untouched h full s i v :
  videos s !! i = Some v → paused v = true →
  let '(_, s', es) := performCleanup h full s in
  videos s' !! i = Some v ∧
  List.filter (touches i) es = [] ∧
  (∀ p u, p ∈ timers s' → p.2.2 = RestoreSrc i u → p ∈ timers s).
Proof.
  intros Hv Hp.
  destruct (performCleanup_blocks h full s) as (s1 & ev & et & _ & Hvs & _ & Hws & ->).
  destruct Hvs as [_ Hvid Hcalls _ (new & Ht1 & _ & _ & Hnew)].
  destruct Hws as [Hw24 _ _ _ _].
  assert (Hv1 : videos s1 !! i = Some v).
  { rewrite Hvid, Hv. destruct (in_range _ _ _); [|done].
    cbn [fmap option_fmap option_map]. unfold video_after. by rewrite Hp. }
  assert (Hf1 : List.filter (touches i) ev = []).
  { specialize (Hcalls i). rewrite in_range_all, Hv in Hcalls by done.
    destruct Hcalls as (id & -> & _). unfold video_calls. by rewrite Hp. }
  assert (Ht : ∀ p u, p ∈ timers s1 → p.2.2 = RestoreSrc i u → p ∈ timers s).
  { intros p u Hin Hk. rewrite Ht1 in Hin. apply elem_of_app in Hin as [Hin|Hin]; [done|].
    eapply Forall_forall in Hnew; [|exact Hin].
    destruct Hnew as (_ & j & vj & Hj & Hpj & Hsrc). rewrite Hk in Hsrc.
    injection Hsrc as -> _. congruence. }
  destruct (dispose_throws h).
  - split; [done|]. split; [|done].
    cbn [List.filter touches]. rewrite List.filter_app, Hf1.
    by rewrite (filter_touches_within i 2 4 et).
  - split; [by destruct (restart_scheduled h full)|]. split.
    + cbn [List.filter touches]. rewrite !List.filter_app, Hf1.
      rewrite (filter_touches_within i 2 4 et) by done.
      by rewrite (filter_touches_within i 5 6 _) by (lia || apply ar_calls_within).
    + intros p u Hin Hk. destruct (restart_scheduled h full); [|by eapply Ht].
      cbn in Hin. apply elem_of_app in Hin as [Hin|Hin]; [by eapply Ht|].
      apply list_elem_of_singleton in Hin. subst p. discriminate.
Qed.

Lemma paused_video_untouched_witness :
  videos (performCleanup healthy_host true (init demo_videos false)).1.2 !! 1%nat
  = Some (Video true 7 "b.mp4") ∧
  List.filter (touches 1) (performCleanup healthy_host true (init demo_videos false)).2 = [].
Proof.
  pose proof (paused_video_untouched healthy_host true (init demo_videos false) 1
                (Video true 7 "b.mp4") eq_refl eq_refl) as H.
  destruct (performCleanup healthy_host true (init demo_videos false)) as [[r s'] es].
  destruct H as (H1 & H2 & _). split; [exact H1|exact H2].
Defined.

(** ** Exact turns *)

Lemma set_isProcessing_id o : isProcessing o = false → set_isProcessing false o = o.
Proof. destruct o; cbn; by intros ->. Qed.

Lemma guarded_turn_exact h (full : bool) s :
  micro s = [] → isProcessing (opt s) = false →
  let '(_, s', es) := (top (guarded_pass h full);; drain) s in
  opt s' = set_isProcessing (dispose_throws h) (opt s) ∧
  omap pass_level es = [full] ∧ log s' = log s ∧ clock s' = clock s ∧
  micro s' = [] ∧ hidden s' = hidden s.
Proof.
  intros Hm Hb.
  destruct (guarded_pass_turn h full s Hm) as (s' & es & _ & Hspec & ->).
  pose proof Hspec as [(Hc & Hh & Ho & Hmi & Hl) _ _ _]. cbn in Hc, Hh, Ho, Hmi, Hl.
  assert (Hp : ∀ tail, omap pass_level tail = [] →
            omap pass_level (EPerformCleanup full :: es ++ tail) = [full])
    by (intros; by eapply pass_spec_passes).
  pose proof (Hp [] eq_refl) as Hp0. rewrite app_nil_r in Hp0.
  destruct (dispose_throws h).
  - rewrite Hp by done. rewrite Ho. repeat split; congruence.
  - rewrite Hp0. cbn. rewrite Ho. repeat split; congruence.
Qed.

Lemma unguarded_turn_exact h s :
  micro s = [] →
  let '(_, s', es) := (top (performCleanup h true);; drain) s in
  opt s' = opt s ∧ omap pass_level es = [true] ∧ log s' = log s ∧
  clock s' = clock s ∧ micro s' = [] ∧ hidden s' = hidden s.
Proof.
  intros Hm.
  destruct (unguarded_turn h s Hm) as (s' & es & _ & Hspec & ->).
  pose proof Hspec as [(Hc & Hh & Ho & Hmi & Hl) _ _ _].
  split; [done|]. split; [|repeat split; congruence].
  eapply pass_spec_passes; [done|]. by destruct (dispose_throws h).
Qed.

Lemma turn_exact_all h s st :
  micro s = [] →
  let '(_, s', es) := (top (dispatch h st);; drain) s in turn_exact h s st s' es.
Proof.
  intros Hm.
  assert (Hauto : ∀ (full : bool) cb, 
            let '(_, s', es) := (top (when (armed h cb) (autoCleanup h full));; drain) s in
            opt s' = (if armed h cb && negb (hidden s) && negb (isProcessing (opt s))
                      then set_isProcessing (dispose_throws h) (opt s) else opt s) ∧
            omap pass_level es =
              (if armed h cb && negb (hidden s) && negb (isProcessing (opt s))
               then [full] else []) ∧
            log s' = log s ∧ clock s' = clock s ∧ micro s' = [] ∧ hidden s' = hidden s).
  { intros full cb.
    destruct (armed h cb); cbn [when andb]; [|by rewrite (idle_turn _ s Hm)].
    destruct (negb (hidden s) && negb (isProcessing (opt s))) eqn:E.
    - replace ((top (autoCleanup h full);; drain) s)
        with ((top (guarded_pass h full);; drain) s).
      + apply guarded_turn_exact; [done|].
        apply andb_true_iff in E as [_ E]. by apply negb_true_iff in E.
      + rewrite !bind_eq. unfold top, try_catch. by rewrite autoCleanup_eq, E.
    - rewrite (idle_turn _ s Hm); [done|]. by rewrite autoCleanup_eq, E. }
  destruct st as [| |u l| |b| | |id]; cbn [dispatch].
  - specialize (Hauto false LightCleanupCb).
    destruct ((top (when (armed h LightCleanupCb) (autoCleanup h false));; drain) s)
      as [[r s'] es].
    destruct Hauto as (H1 & H2 & H3 & H4 & H5 & H6). split; try done.
    rewrite H1. unfold opt_next, starts_pass. by destruct (_ && _ && _).
  - specialize (Hauto true FullCleanupCb).
    destruct ((top (when (armed h FullCleanupCb) (autoCleanup h true));; drain) s)
      as [[r s'] es].
    destruct Hauto as (H1 & H2 & H3 & H4 & H5 & H6). split; try done.
    rewrite H1. unfold opt_next, starts_pass. by destruct (_ && _ && _).
  - destruct (armed h MemoryCb) eqn:Ha; cbn [when].
    2:{ rewrite (idle_turn _ s Hm); [|done]. split; try done.
        - unfold opt_next, starts_pass. by rewrite Ha.
        - unfold starts_pass. by rewrite Ha. }
    destruct (over_threshold u l && negb (isProcessing (opt s))) eqn:E.
    + replace ((top (memoryMonitor h u l);; drain) s)
        with ((top (guarded_pass h true);; drain) s).
      * assert (Hb : isProcessing (opt s) = false).
        { apply andb_true_iff in E as [_ E]. by apply negb_true_iff in E. }
        pose proof (guarded_turn_exact h true s Hm Hb) as H.
        destruct ((top (guarded_pass h true);; drain) s) as [[r s'] es].
        destruct H as (H1 & H2 & H3 & H4 & H5 & H6). split; try done.
        -- rewrite H1. unfold opt_next, starts_pass. rewrite Ha. cbn [andb].
           by rewrite E.
        -- rewrite H2. unfold starts_pass. rewrite Ha. cbn [andb]. by rewrite E.
      * rewrite !bind_eq. unfold top, try_catch. by rewrite memoryMonitor_eq, E.
    + rewrite (idle_turn _ s Hm); [|by rewrite memoryMonitor_eq, E]. split; try done.
      * unfold opt_next, starts_pass. rewrite Ha. cbn [andb]. by rewrite E.
      * unfold starts_pass. rewrite Ha. cbn [andb]. by rewrite E.
  - destruct (armed h ArErrorCb) eqn:Ha; cbn [when].
    2:{ rewrite (idle_turn _ s Hm); [|done]. split; try done.
        - unfold opt_next. by rewrite Ha.
        - unfold starts_pass. by rewrite Ha. }
    destruct (arError_turn h s Hm) as (s' & es & _ & Hspec & ->).
    pose proof Hspec as [(Hc & Hh & Ho & Hmi & Hl) _ _ _].
    cbn in Hc, Hh, Ho, Hmi, Hl.
    assert (Hp : ∀ tail, omap pass_level tail = [] →
              omap pass_level (EPerformCleanup (3 <? errorCount (opt s) + 1) :: es ++ tail)
              = [3 <? errorCount (opt s) + 1])
      by (intros; by eapply pass_spec_passes).
    destruct (dispose_throws h) eqn:Hd.
    + split; [|by (unfold starts_pass; rewrite Ha; apply Hp)|congruence..].
      unfold opt_next. rewrite Ha, Hd. by rewrite Ho.
    + split; [| |destruct (3 <? errorCount (opt s) + 1); cbn; congruence..].
      * unfold opt_next. rewrite Ha, Hd.
        destruct (3 <? errorCount (opt s) + 1); cbn; rewrite ?Ho; done.
      * unfold starts_pass. rewrite Ha. by apply Hp.
  - rewrite top_modify. destruct (armed_top_level h) as (-> & _ & _). cbn [when].
    assert (Hm' : micro (set_hidden b s) = []) by done.
    destruct b.
    + replace ((top (visibilityListener h);; drain) (set_hidden true s))
        with ((top (performCleanup h true);; drain) (set_hidden true s)).
      * pose proof (unguarded_turn_exact h _ Hm') as H.
        destruct ((top (performCleanup h true);; drain) (set_hidden true s)) as [[r s'] es].
        destruct H as (H1 & H2 & H3 & H4 & H5 & H6). split; cbn in *; congruence.
      * rewrite !bind_eq. unfold top, try_catch, visibilityListener.
        rewrite bind_eq. cbn [gets hidden set_hidden when].
        by destruct (performCleanup h true (set_hidden true s)) as [[[]] ?].
    + rewrite (idle_turn _ _ Hm'); [|reflexivity]. split; cbn; congruence.
  - destruct (armed_top_level h) as (_ & -> & _). cbn [when]. unfold unloadListener.
    pose proof (unguarded_turn_exact h _ Hm) as H.
    destruct ((top (performCleanup h true);; drain) s) as [[r s'] es].
    destruct H as (H1 & H2 & H3 & H4 & H5 & H6). split; cbn in *; congruence.
  - destruct (armed_top_level h) as (_ & _ & ->). cbn [when]. unfold unloadListener.
    pose proof (unguarded_turn_exact h _ Hm) as H.
    destruct ((top (performCleanup h true);; drain) s) as [[r s'] es].
    destruct H as (H1 & H2 & H3 & H4 & H5 & H6). split; cbn in *; congruence.
  - pose proof (fire_timeout_eq h id s) as Heq.
    destruct (find_timer id (timers s)) as [[due k]|] eqn:Ef.
    2:{ rewrite (idle_turn _ s Hm Heq). split; try done. unfold opt_next. by rewrite Ef. }
    destruct (due <=? clock s) eqn:Ed.
    2:{ rewrite (idle_turn _ s Hm Heq). split; try done.
        unfold opt_next. rewrite Ef, Ed. by destruct k. }
    set (s1 := set_timers _ _ s) in Heq.
    destruct (run_task_spec h k s1)
      as (r & s' & es & Hrun & Hmi & Hc & Hl & Ht & Hn & Hp & Hb & He).
    rewrite Hrun in Heq. rewrite bind_eq. unfold top, try_catch. rewrite Heq.
    assert (Ho : opt s' = match k with
                          | DecayError => set_errorCount (Z.max 0 (errorCount (opt s) - 1)) (opt s)
                          | _ => opt s
                          end).
    { destruct k as [i u| |]; cbn [run_task] in Hrun.
      - unfold video_set_src in Hrun. revert Hrun. munfold.
        destruct (videos s1 !! i); intros [= _ <- _]; reflexivity.
      - destruct (a_scene h ≫= mindar_image_system) as [ar|].
        + unfold call in Hrun. revert Hrun. munfold.
          destruct (start_throws ar); intros [= _ <- _]; reflexivity.
        + by injection Hrun as _ <- _.
      - revert Hrun. munfold. intros [= _ <- _]. reflexivity. }
    assert (Hs1 : hidden s' = hidden s).
    { destruct k as [i u| |]; cbn [run_task] in Hrun.
      - unfold video_set_src in Hrun. revert Hrun. munfold.
        destruct (videos s1 !! i); intros [= _ <- _]; reflexivity.
      - destruct (a_scene h ≫= mindar_image_system) as [ar|].
        + unfold call in Hrun. revert Hrun. munfold.
          destruct (start_throws ar); intros [= _ <- _]; reflexivity.
        + by injection Hrun as _ <- _.
      - revert Hrun. munfold. intros [= _ <- _]. reflexivity. }
    destruct r as [[]|]; cbn [emit]; rewrite drain_nil by (by rewrite Hmi); cbn;
      rewrite ?app_nil_r.
    + split; try done.
      * rewrite Ho. unfold opt_next. rewrite Ef, Ed. by destruct k.
      * by rewrite Hmi.
    + split; try done.
      * rewrite Ho. unfold opt_next. rewrite Ef, Ed. by destruct k.
      * by rewrite omap_app, Hp.
      * by rewrite Hmi.
Qed.

Lemma macrotask_exact h s t st :
  micro s = [] →
  opt (macrotask h s (t, st)) = opt_next h (set_clock (Z.max (clock s) t) s) st ∧
  passes (macrotask h s (t, st)) = passes s ++ starts_pass h s st ∧
  micro (macrotask h s (t, st)) = [] ∧
  hidden (macrotask h s (t, st)) = match st with VisibilityChange b => b | _ => hidden s end.
Proof.
  intros Hm. unfold macrotask. cbn [fst snd].
  set (s0 := set_clock (Z.max (clock s) t) s).
  assert (Hm0 : micro s0 = []) by done.
  pose proof (turn_exact_all h s0 st Hm0) as H.
  destruct ((top (dispatch h st);; drain) s0) as [[r s'] es].
  destruct H as [H1 H2 H3 H4 H5 H6].
  split; [done|]. split; [|by split].
  rewrite passes_finish, H2. unfold passes. by rewrite H3.
Qed.

(** X1: which pass a turn starts.  The passes started by the turn of a
    stimulus are exactly those of [starts_pass]: a timer tick starts its pass
    only on a visible page whose guard is clear, the heap sampler ignores
    visibility, the [arError] listener and the three lifecycle listeners
    ignore both visibility and guard, and a timeout starts none. *)
Theorem turn_starts_pass h s t st :
  micro s = [] →
  passes (macrotask h s (t, st)) = passes s ++ starts_pass h s st.
Proof. intros Hm. by destruct (macrotask_exact h s t st Hm) as (_ & H & _). Qed.

Lemma turn_starts_pass_witness :
  passes (macrotask healthy_host (init demo_videos true) (120000, LightTimer))
  = passes (init demo_videos true) ++ [] ∧
  passes (macrotask healthy_host (init demo_videos true) (30000, HeapTimer 90 100))
  = passes (init demo_videos true) ++ [true].
Proof.
  split.
  - exact (turn_starts_pass healthy_host (init demo_videos true) 120000 LightTimer eq_refl).
  - exact (turn_starts_pass healthy_host (init demo_videos true) 30000 (HeapTimer 90 100)
             eq_refl).
Defined.

(** ** The error count *)

Lemma errorCount_next_bound h s st :
  dispose_throws h = false → 0 ≤ errorCount (opt s) ≤ 3 →
  0 ≤ errorCount (opt_next h s st) ≤ 3.
Proof.
  intros Hd Hn. unfold opt_next. rewrite Hd.
  destruct st as [| |u l| |b| | |id]; cbn [starts_pass]; try done.
  - by destruct (_ && _ && _).
  - by destruct (_ && _ && _).
  - by destruct (_ && _ && _).
  - destruct (armed h ArErrorCb); [|done]. cbn.
    destruct (3 <? errorCount (opt s) + 1) eqn:E; [lia|]. apply Z.ltb_ge in E. lia.
  - destruct (find_timer id (timers s)) as [[due [| |]]|]; try done.
    destruct (due <=? clock s); [|done]. cbn. lia.
Qed.

(** X2: on a page where no [dispose()] throws, [errorCount] is between 0
    and 3 at the end of every turn: the fourth error of a burst resets it. *)
Theorem errorCount_at_most_three h vs hid evs :
  dispose_throws h = false →
  0 ≤ errorCount (opt (run h (init vs hid) evs)) ≤ 3.
Proof.
  intros Hd.
  assert (H : ∀ evs s, micro s = [] → 0 ≤ errorCount (opt s) ≤ 3 →
            0 ≤ errorCount (opt (run h s evs)) ≤ 3).
  { clear evs. induction evs as [|[t st] evs IH]; intros s Hm Hn; [done|].
    cbn [run fold_left]. fold (run h (macrotask h s (t, st)) evs).
    destruct (macrotask_exact h s t st Hm) as (Ho & _ & Hm' & _).
    apply IH; [done|]. rewrite Ho. by apply errorCount_next_bound. }
  apply H; [done|]. cbn. lia.
Qed.

Lemma errorCount_at_most_three_witness :
  0 ≤ errorCount (opt (run healthy_host (init demo_videos false)
                         [(10, ArError); (20, ArError); (30, ArError); (40, ArError);
                          (50, ArError)])) ≤ 3.
Proof. exact (errorCount_at_most_three healthy_host demo_videos false _ eq_refl). Defined.

(** X3: a burst of [n] tracking errors with no decay in between, on a page
    where no [dispose()] throws, leaves [errorCount] at [(c + n) mod 4] when it
    was [c] (between 0 and 3) before, and the [k]-th error of the burst starts
    a Full pass exactly when [(c + k) mod 4 = 0], a Light one otherwise. *)
Theorem burst_counts_modulo_four h ts : ∀ s,
  dispose_throws h = false → armed h ArErrorCb = true → micro s = [] →
  0 ≤ errorCount (opt s) ≤ 3 →
  errorCount (opt (run h s (burst ts))) = (errorCount (opt s) + Z.of_nat (length ts)) mod 4 ∧
  passes (run h s (burst ts)) =
    passes s ++ ((λ k, (errorCount (opt s) + Z.of_nat k) mod 4 =? 0) <$> seq 1 (length ts)).
Proof.
  induction ts as [|t ts IH]; intros s Hd Ha Hm Hn.
  - cbn. rewrite Z.add_0_r, Z.mod_small by lia. by rewrite app_nil_r.
  - cbn [burst fmap list_fmap run fold_left length].
    fold (burst ts). fold (run h (macrotask h s (t, ArError)) (burst ts)).
    destruct (macrotask_exact h s t ArError Hm) as (Ho & Hp & Hm' & _).
    assert (He : errorCount (opt (macrotask h s (t, ArError)))
                 = (errorCount (opt s) + 1) mod 4).
    { rewrite Ho. unfold opt_next. rewrite Ha, Hd. cbn.
      destruct (3 <? errorCount (opt s) + 1) eqn:E.
      - apply Z.ltb_lt in E. replace (errorCount (opt s) + 1) with 4 by lia. done.
      - apply Z.ltb_ge in E. rewrite Z.mod_small; lia. }
    assert (Hn' : 0 ≤ errorCount (opt (macrotask h s (t, ArError))) ≤ 3).
    { rewrite He. pose proof (Z.mod_pos_bound (errorCount (opt s) + 1) 4). lia. }
    destruct (IH _ Hd Ha Hm' Hn') as [IH1 IH2]. split.
    + rewrite IH1, He. rewrite Zplus_mod_idemp_l. f_equal. lia.
    + rewrite IH2, Hp. cbn [starts_pass]. rewrite Ha, <- app_assoc. f_equal.
      cbn [seq fmap list_fmap app]. f_equal.
      * change (Z.of_nat 1) with 1. destruct (3 <? errorCount (opt s) + 1) eqn:E.
        -- apply Z.ltb_lt in E. replace (errorCount (opt s) + 1) with 4 by lia. done.
        -- apply Z.ltb_ge in E. rewrite Z.mod_small by lia. symmetry. apply Z.eqb_neq. lia.
      * rewrite <- (fmap_S_seq 1), <- list_fmap_compose. apply list_fmap_ext.
        intros _ k _. cbn. rewrite He, Zplus_mod_idemp_l. do 2 f_equal. lia.
Qed.

Lemma burst_counts_modulo_four_witness :
  errorCount (opt (run healthy_host (init demo_videos false) (burst [10; 20; 30; 40; 50; 60])))
  = (errorCount (opt (init demo_videos false)) + 6) mod 4 ∧
  passes (run healthy_host (init demo_videos false) (burst [10; 20; 30; 40; 50; 60]))
  = passes (init demo_videos false) ++ [false; false; false; true; false; false].
Proof.
  exact (burst_counts_modulo_four healthy_host [10; 20; 30; 40; 50; 60]
           (init demo_videos false) eq_refl eq_refl eq_refl (conj (Z.le_refl 0) (Zle_0_pos 3))).
Defined.

(** X4: on a page where no [dispose()] throws, [isProcessing] is clear at the
    end of every turn, so on a visible page every tick of an armed timer
    starts its pass: the guard never drops one. *)
Theorem guard_clear_between_turns h vs hid evs :
  dispose_throws h = false →
  isProcessing (opt (run h (init vs hid) evs)) = false ∧
  (hidden (run h (init vs hid) evs) = false →
   ∀ t,
     (armed h LightCleanupCb = true →
      passes (macrotask h (run h (init vs hid) evs) (t, LightTimer))
      = passes (run h (init vs hid) evs) ++ [false]) ∧
     (armed h FullCleanupCb = true →
      passes (macrotask h (run h (init vs hid) evs) (t, FullTimer))
      = passes (run h (init vs hid) evs) ++ [true])).
Proof.
  intros Hd. destruct (run_init_ready h vs hid evs) as (Hm & _ & _ & Hb).
  specialize (Hb Hd). split; [done|]. intros Hh t.
  split; intros Ha;
    [destruct (macrotask_exact h _ t LightTimer Hm) as (_ & -> & _)
    |destruct (macrotask_exact h _ t FullTimer Hm) as (_ & -> & _)];
    cbn [starts_pass]; by rewrite Ha, Hh, Hb.
Qed.

Lemma guard_clear_between_turns_witness :
  isProcessing (opt (run healthy_host (init demo_videos false)
                       [(120000, LightTimer); (600000, FullTimer)])) = false.
Proof.
  exact (proj1 (guard_clear_between_turns healthy_host demo_videos false
                  [(120000, LightTimer); (600000, FullTimer)] eq_refl)).
Defined.

(** ** What a pass does to the videos *)

Lemma videos_after_pass h full s :
  videos (performCleanup h full s).1.2 = video_after full <$> videos s.
Proof.
  destruct (performCleanup_blocks h full s) as (s1 & ev & et & _ & Hvs & _ & _ & ->).
  destruct Hvs as [_ Hvid _ _ _].
  assert (H1 : videos s1 = video_after full <$> videos s).
  { apply list_eq. intros i. rewrite Hvid, list_lookup_fmap. unfold in_range.
    case_bool_decide; [done|].
    rewrite (proj2 (lookup_ge_None (videos s) i)) by lia. done. }
  destruct (dispose_throws h); [done|]. by destruct (restart_scheduled h full).
Qed.

Lemma all_paused_after_pass h full s :
  Forall (λ v, paused v = true) (videos (performCleanup h full s).1.2).
Proof.
  rewrite videos_after_pass. apply Forall_fmap, Forall_forall. intros v _. cbn.
  unfold video_after. by destruct (paused v) eqn:E.
Qed.

(** X5: the videos after a pass, whether or not the pass throws later on.
    A video that was playing is paused at position 0, with its source kept by
    a Light pass and emptied by a Full one; a video that was paused is as it
    was; there are as many videos as before and all of them are paused. *)
Theorem pass_pauses_every_video h full s :
  length (videos (performCleanup h full s).1.2) = length (videos s) ∧
  (∀ i v, videos s !! i = Some v →
     videos (performCleanup h full s).1.2 !! i =
     Some (if paused v then v
           else Video true 0 (if full then EmptyString else src v))) ∧
  (∀ i v', videos (performCleanup h full s).1.2 !! i = Some v' → paused v' = true).
Proof.
  rewrite videos_after_pass. split; [by rewrite length_fmap|]. split.
  - intros i v Hv. by rewrite list_lookup_fmap, Hv.
  - intros i v' Hv. pose proof (all_paused_after_pass h full s) as H.
    rewrite videos_after_pass in H. by eapply Forall_lookup_1 in H.
Qed.

Lemma phase1_touches e : phase e = 1%nat → ∃ i, touches i e = true.
Proof.
  destruct e as [| i | i ? | i ? | i | | | | | | | | ? | | | ? [i ?| |] ? |]; cbn;
    try discriminate; try (intros _; exists i; apply Nat.eqb_refl).
  by destruct (String.eqb _ _).
Qed.

Lemma paused_videos_no_media h full s :
  Forall (λ v, paused v = true) (videos s) →
  let '(_, s', es) := performCleanup h full s in
  videos s' = videos s ∧
  Forall (λ e, phase e ≠ 1%nat) es ∧
  (∀ p, p ∈ timers s' → p ∈ timers s ∨ p.2.2 = StartAr).
Proof.
  intros Hall. pose proof (videos_after_pass h full s) as Hvid.
  destruct (performCleanup_blocks h full s) as (s1 & ev & et & _ & Hvs & _ & Hws & Hrun).
  rewrite Hrun in Hvid |- *.
  destruct Hvs as [_ _ Hcalls Hph (new & Ht1 & _ & _ & Hnew)].
  destruct Hws as [Hw24 _ _ _ _].
  assert (Hev : ev = []).
  { destruct ev as [|e ev']; [done|]. exfalso.
    assert (He : phase e = 1%nat) by (by inversion Hph).
    destruct (phase1_touches e He) as [i Hi]. specialize (Hcalls i).
    assert (Hnil : List.filter (touches i) (e :: ev') = []).
    { destruct (if in_range 0 (length (videos s)) i then videos s !! i else None)
        as [v|] eqn:E; [|done].
      destruct Hcalls as (id & -> & _). unfold video_calls.
      assert (Hv : videos s !! i = Some v) by (destruct (in_range _ _ _); done).
      eapply Forall_lookup in Hall; [|exact Hv]. by rewrite Hall. }
    cbn in Hnil. by rewrite Hi in Hnil. }
  assert (Hnew0 : new = []).
  { destruct new as [|p new']; [done|]. exfalso.
    inversion Hnew as [|? ? (_ & j & v & Hj & Hp & _) _]. subst.
    eapply Forall_lookup in Hall; [|exact Hj]. congruence. }
  subst ev new. rewrite app_nil_r in Ht1.
  assert (Hsame : video_after full <$> videos s = videos s).
  { apply list_eq. intros i. rewrite list_lookup_fmap.
    destruct (videos s !! i) as [v|] eqn:E; [|done]. cbn.
    eapply Forall_lookup in Hall; [|exact E]. unfold video_after. by rewrite Hall. }
  assert (Het : Forall (λ e, phase e ≠ 1%nat) et).
  { eapply Forall_impl; [exact Hw24|]. cbn. intros; lia. }
  assert (Har : Forall (λ e, phase e ≠ 1%nat) (ar_calls h full (next_id s1))).
  { eapply Forall_impl; [apply ar_calls_within|]. cbn. intros; lia. }
  destruct (dispose_throws h).
  - cbn in Hvid. split; [by rewrite Hvid|]. split.
    + constructor; [done|]. done.
    + intros p Hp. left. by rewrite <- Ht1.
  - split; [cbn in Hvid; by rewrite Hvid|]. split.
    + constructor; [done|]. cbn [app]. by apply Forall_app.
    + intros p Hp. destruct (restart_scheduled h full); [|left; by rewrite <- Ht1].
      cbn in Hp. apply elem_of_app in Hp as [Hp|Hp]; [left; by rewrite <- Ht1|].
      apply list_elem_of_singleton in Hp. subst p. by right.
Qed.

(** X6: a pass that follows another one finds every video paused: it makes
    no call on any video, leaves the videos as they are and schedules no
    source restore -- whatever the two levels. *)
Theorem repeated_pass_skips_media h (full1 full2 : bool) s :
  let s1 := (performCleanup h full1 s).1.2 in
  let '(_, s2, es) := performCleanup h full2 s1 in
  videos s2 = videos s1 ∧
  Forall (λ e, phase e ≠ 1%nat) es ∧
  (∀ p, p ∈ timers s2 → p ∈ timers s1 ∨ p.2.2 = StartAr).
Proof.
  intros s1. apply paused_videos_no_media. apply all_paused_after_pass.
Qed.

(** ** A Light pass *)

Lemma forEach_videos_light (xs : list video) : ∀ k s,
  timers (forEach (λ i _, cleanup_video false i) k xs s).1.2 = timers s ∧
  next_id (forEach (λ i _, cleanup_video false i) k xs s).1.2 = next_id s.
Proof.
  induction xs as [|x xs IH]; intros k s; [done|].
  cbn [forEach]. rewrite bind_eq, cleanup_video_eq.
  destruct (videos s !! k) as [v|].
  - rewrite andb_false_r.
    destruct (IH (S k) (id (set_videos (<[k:=video_after false v]> (videos s)) s)))
      as [H1 H2].
    destruct (forEach _ (S k) xs _) as [[r s'] es]. done.
  - destruct (IH (S k) s) as [H1 H2].
    destruct (forEach _ (S k) xs s) as [[r s'] es]. done.
Qed.

Lemma light_video_calls_no_timeout i v id0 id k d :
  ESetTimeout id k d ∉ video_calls false i v id0.
Proof.
  unfold video_calls. destruct (paused v); cbn; intros H.
  - by apply elem_of_nil in H.
  - repeat (apply elem_of_cons in H as [H|H]; [discriminate|]). by apply elem_of_nil in H.
Qed.

(** X7: a Light pass schedules nothing, keeps the source of every video and
    does not stop the tracking system: the pending timeouts and the next
    identifier are as before, and the pass calls neither [setTimeout] nor
    [stop()]. *)
Theorem light_pass_schedules_nothing h s :
  let '(_, s', es) := performCleanup h false s in
  timers s' = timers s ∧ next_id s' = next_id s ∧
  (∀ i v v', videos s !! i = Some v → videos s' !! i = Some v' → src v' = src v) ∧
  (EArStop ∉ es) ∧
  (∀ id k d, ESetTimeout id k d ∉ es).
Proof.
  pose proof (videos_after_pass h false s) as Hvid.
  destruct (performCleanup_blocks h false s) as (s1 & ev & et & Hv & Hvs & _ & Hws & Hrun).
  rewrite Hrun in Hvid |- *.
  assert (Hr : restart_scheduled h false = false).
  { unfold restart_scheduled. by destruct (a_scene h ≫= mindar_image_system). }
  assert (Ha : ar_calls h false (next_id s1) = []).
  { unfold ar_calls. by destruct (a_scene h ≫= mindar_image_system). }
  rewrite Hr, Ha, app_nil_r in *.
  assert (Ht : timers s1 = timers s ∧ next_id s1 = next_id s).
  { unfold cleanup_videos in Hv. rewrite bind_eq in Hv. cbn [gets] in Hv.
    pose proof (forEach_videos_light (videos s) 0 s) as H.
    destruct (forEach _ 0%nat (videos s) s) as [[r s0] e0].
    injection Hv as _ <- _. exact H. }
  destruct Hvs as [_ _ Hcalls Hph _]. destruct Hws as [Hw24 _ _ _ _].
  assert (Hfinal : (if dispose_throws h
                    then (Throw, s1, EPerformCleanup false :: ev ++ et)
                    else (Ret tt, s1, EPerformCleanup false :: ev ++ et))
                   = (if dispose_throws h then Throw else Ret tt, s1,
                      EPerformCleanup false :: ev ++ et))
    by (by destruct (dispose_throws h)).
  rewrite Hfinal in *. cbn [fst snd] in Hvid.
  destruct Ht as [Ht Hn]. split; [done|]. split; [done|]. split; [|split].
  - intros i v v' Hi Hi'. rewrite Hvid, list_lookup_fmap, Hi in Hi'.
    injection Hi' as <-. unfold video_after. by destruct (paused v).
  - intros H. apply elem_of_cons in H as [H|H]; [discriminate|].
    apply elem_of_app in H as [H|H].
    + eapply Forall_forall in Hph; [|exact H]. discriminate.
    + eapply within_not_in; [exact Hw24| |exact H]. cbn. lia.
  - intros id k d H. apply elem_of_cons in H as [H|H]; [discriminate|].
    apply elem_of_app in H as [H|H].
    + pose proof H as H0. eapply Forall_forall in Hph; [|exact H0].
      destruct k as [i u| |]; try discriminate.
      specialize (Hcalls i).
      assert (Hin : ESetTimeout id (RestoreSrc i u) d ∈ List.filter (touches i) ev).
      { apply list_elem_of_In, filter_In. split; [by apply list_elem_of_In|].
        cbn. apply Nat.eqb_refl. }
      destruct (if in_range 0 (length (videos s)) i then videos s !! i else None) as [v|].
      * destruct Hcalls as (id0 & Hf & _). rewrite Hf in Hin.
        by eapply light_video_calls_no_timeout.
      * rewrite Hcalls in Hin. by apply elem_of_nil in Hin.
    + eapply Forall_forall in Hw24; [|exact H]. cbn in Hw24. destruct k; cbn in Hw24; lia.
Qed.

(** ** When a pass throws *)

Lemma dispose_throws_iff h :
  dispose_throws h = true ↔
  ∃ sc rd ts j, a_scene h = Some sc ∧ scene_renderer sc = Some rd ∧
                memory_textures rd = RegArray ts ∧ ts !! j = Some (TexObject (Some true)).
Proof.
  unfold dispose_throws. destruct (a_scene h) as [sc|]; cbn.
  2:{ split; [done|]. by intros (? & ? & ? & ? & ? & _). }
  destruct (scene_renderer sc) as [rd|] eqn:Er.
  2:{ split; [done|]. intros (? & ? & ? & ? & [= <-] & ? & _). congruence. }
  unfold registry_throws. destruct (memory_textures rd) as [|ts|] eqn:Em.
  - split; [done|]. intros (? & ? & ? & ? & [= <-] & ? & ? & _). congruence.
  - rewrite existsb_exists. split.
    + intros (t & Hin & Ht). apply list_elem_of_In, list_elem_of_lookup in Hin as [j Hj].
      exists sc, rd, ts, j. repeat split; try done.
      destruct t as [|[[|]|]]; try discriminate. done.
    + intros (sc' & rd' & ts' & j & [= <-] & Hr & Hm & Hj).
      rewrite Er in Hr. injection Hr as <-. rewrite Em in Hm. injection Hm as <-.
      exists (TexObject (Some true)). split; [|done].
      apply list_elem_of_In, list_elem_of_lookup. by exists j.
  - split; [done|]. intros (? & ? & ? & ? & [= <-] & ? & ? & _). congruence.
Qed.

(** X8: a pass throws exactly when the scene has a renderer whose texture
    registry is an array that holds a texture whose [dispose()] throws.
    Nothing else makes it throw: not a missing scene, renderer, WebGL context
    or tracking system, nor a [gc] or a [stop()] that throws. *)
Theorem pass_throws_iff_dispose_throws h full s :
  (performCleanup h full s).1.1 = Throw ↔
  ∃ sc rd ts j, a_scene h = Some sc ∧ scene_renderer sc = Some rd ∧
                memory_textures rd = RegArray ts ∧ ts !! j = Some (TexObject (Some true)).
Proof.
  rewrite <- dispose_throws_iff.
  destruct (performCleanup_run h full s) as (s' & es & -> & _). cbn.
  by destruct (dispose_throws h).
Qed.

(** X9: a pass changes neither the optimizer (so neither [isProcessing] nor
    [errorCount]), nor the visibility, nor the clock, and queues no promise
    reaction. *)
Theorem pass_leaves_optimizer_alone h full s :
  opt (performCleanup h full s).1.2 = opt s ∧
  hidden (performCleanup h full s).1.2 = hidden s ∧
  clock (performCleanup h full s).1.2 = clock s ∧
  micro (performCleanup h full s).1.2 = micro s.
Proof.
  destruct (performCleanup_run h full s) as (s' & es & -> & [(Hc & Hh & Ho & Hm & _) _ _ _]).
  done.
Qed.

(** ** Which textures are disposed *)

Lemma forEach_textures_mem (ts : list texture) : ∀ j0 s j,
  ETextureDispose j ∈ (forEach dispose_texture j0 ts s).2 ↔
  ∃ k b, j = (j0 + k)%nat ∧ ts !! k = Some (TexObject (Some b)) ∧
         ∀ k', (k' < k)%nat → ts !! k' ≠ Some (TexObject (Some true)).
Proof.
  induction ts as [|t ts IH]; intros j0 s j.
  - cbn. split; [intros H; by apply elem_of_nil in H|]. by intros (k & b & _ & ? & _).
  - cbn [forEach]. rewrite bind_eq.
    assert (Hshift : (∃ k b, j = (S j0 + k)%nat ∧ ts !! k = Some (TexObject (Some b)) ∧
                       ∀ k', (k' < k)%nat → ts !! k' ≠ Some (TexObject (Some true))) →
                     t ≠ TexObject (Some true) →
                     ∃ k b, j = (j0 + k)%nat ∧ (t :: ts) !! k = Some (TexObject (Some b)) ∧
                       ∀ k', (k' < k)%nat → (t :: ts) !! k' ≠ Some (TexObject (Some true))).
    { intros (k & b & -> & Hk & Hlt) Ht. exists (S k), b. split; [lia|]. split; [done|].
      intros [|k'] Hk'; cbn; [congruence|]. apply Hlt. lia. }
    assert (Hunshift : ∀ k b, (j = j0 + S k)%nat →
                       (t :: ts) !! S k = Some (TexObject (Some b)) →
                       (∀ k', (k' < S k)%nat → (t :: ts) !! k' ≠ Some (TexObject (Some true))) →
                       ∃ k b, j = (S j0 + k)%nat ∧ ts !! k = Some (TexObject (Some b)) ∧
                         ∀ k', (k' < k)%nat → ts !! k' ≠ Some (TexObject (Some true))).
    { intros k b -> Hk Hlt. exists k, b. split; [lia|]. split; [done|].
      intros k' Hk'. apply (Hlt (S k')). lia. }
    specialize (IH (S j0) s j).
    destruct t as [|[[|]|]]; cbn [dispose_texture].
    + munfold. destruct (forEach dispose_texture (S j0) ts s) as [[r s'] es]. cbn in *.
      rewrite IH. split; [intros H; by apply Hshift|].
      intros ([|k] & b & Hj & Hk & Hlt); [done|]. by eapply Hunshift.
    + munfold. cbn. rewrite list_elem_of_singleton. split.
      * intros [= ->]. exists 0%nat, true. split; [lia|]. split; [done|]. intros; lia.
      * intros ([|k] & b & Hj & Hk & Hlt); [f_equal; lia|].
        exfalso. apply (Hlt 0%nat); [lia|done].
    + munfold. destruct (forEach dispose_texture (S j0) ts s) as [[r s'] es]. cbn in *.
      rewrite elem_of_cons, IH. split.
      * intros [[= ->]|H]; [|by apply Hshift].
        exists 0%nat, false. split; [lia|]. split; [done|]. intros; lia.
      * intros ([|k] & b & Hj & Hk & Hlt); [left; f_equal; lia|]. right. by eapply Hunshift.
    + munfold. destruct (forEach dispose_texture (S j0) ts s) as [[r s'] es]. cbn in *.
      rewrite IH. split; [intros H; by apply Hshift|].
      intros ([|k] & b & Hj & Hk & Hlt); [done|]. by eapply Hunshift.
Qed.

Lemma cleanup_webgl_dispose h s j :
  ETextureDispose j ∈ (cleanup_webgl h s).2 ↔
  ∃ rd, a_scene h ≫= scene_renderer = Some rd ∧
        ETextureDispose j ∈ (cleanup_textures (memory_textures rd) s).2.
Proof.
  unfold cleanup_webgl. destruct (a_scene h ≫= scene_renderer) as [rd|].
  2:{ cbn. split; [intros H; by apply elem_of_nil in H|]. by intros (? & ? & _). }
  rewrite bind_eq.
  destruct (cleanup_textures_spec (memory_textures rd) s) as (et & Hrun & _).
  rewrite Hrun. cbn [snd].
  assert (Hgoal : ETextureDispose j ∈ et ↔
            ∃ rd0, Some rd = Some rd0 ∧ ETextureDispose j ∈ (cleanup_textures (memory_textures rd0) s).2).
  { split.
    - intros H. exists rd. split; [done|]. by rewrite Hrun.
    - intros (rd0 & [= <-] & H). by rewrite Hrun in H. }
  destruct (registry_throws (memory_textures rd)); [exact Hgoal|].
  rewrite bind_eq.
  assert (∃ eg, match getContext rd with Some g => cleanup_gl g | None => ret tt end s
                = (Ret tt, s, eg) ∧ Forall (λ e, phase e = 3%nat) eg) as (eg & Hgl & Hph).
  { destruct (getContext rd) as [g|].
    - destruct (cleanup_gl_spec g s) as (e0 & Hrun0 & Hph0 & _).
      exists (e0 ++ unbind_tail). split; [done|]. apply Forall_app. split; [done|].
      repeat constructor.
    - exists []. split; [reflexivity|constructor]. }
  rewrite Hgl, cleanup_gc_eq. cbn [snd app]. rewrite <- Hgoal, !elem_of_app. split; [|by left].
  intros [H|[H|H]]; [done| |].
  - eapply Forall_forall in Hph; [|exact H]. discriminate.
  - pose proof (gc_calls_phase (window_gc h)) as Hg.
    eapply Forall_forall in Hg; [|exact H]. discriminate.
Qed.

(** X10: texture [j] of the registry is disposed by a pass exactly when the
    scene has a renderer whose registry is an array, entry [j] has a
    [dispose] method, and no earlier entry has a [dispose()] that throws.  A
    registry that is not an array (a count, as three.js keeps it) has none of
    its textures disposed. *)
Theorem texture_disposed_iff h full s j :
  ETextureDispose j ∈ (performCleanup h full s).2 ↔
  ∃ sc rd ts b, a_scene h = Some sc ∧ scene_renderer sc = Some rd ∧
                memory_textures rd = RegArray ts ∧
                ts !! j = Some (TexObject (Some b)) ∧
                ∀ k, (k < j)%nat → ts !! k ≠ Some (TexObject (Some true)).
Proof.
  destruct (performCleanup_blocks h full s) as (s1 & ev & et & _ & Hvs & Hw & _ & ->).
  destruct Hvs as [_ _ _ Hph _].
  pose proof (cleanup_webgl_dispose h s1 j) as Hd. rewrite Hw in Hd. cbn [snd] in Hd.
  assert (Hes : ETextureDispose j ∈
                  (if dispose_throws h
                   then (@Throw unit, s1, EPerformCleanup full :: ev ++ et)
                   else (Ret tt,
                         if restart_scheduled h full
                         then set_timers (timers s1 ++ [(next_id s1, (clock s1 + 1000, StartAr))])
                                (S (next_id s1)) s1
                         else s1,
                         EPerformCleanup full :: ev ++ et ++ ar_calls h full (next_id s1))).2
                ↔ ETextureDispose j ∈ et).
  { assert (Hev : ETextureDispose j ∉ ev).
    { intros H. eapply Forall_forall in Hph; [|exact H]. discriminate. }
    assert (Har : ETextureDispose j ∉ ar_calls h full (next_id s1)).
    { eapply within_not_in; [apply ar_calls_within|]. cbn. lia. }
    destruct (dispose_throws h); cbn [snd]; rewrite elem_of_cons, !elem_of_app; split;
      try (intros [H|[H|H]]; done); try (intros [H|[H|[H|H]]]; done); intros H; tauto. }
  rewrite Hes, Hd. split.
  - intros (rd & Hrd & Hin).
    destruct (a_scene h) as [sc|] eqn:Esc; [|done]. cbn in Hrd.
    destruct (memory_textures rd) as [|ts|] eqn:Em; cbn in Hin.
    + by apply elem_of_nil in Hin.
    + apply forEach_textures_mem in Hin as (k & b & -> & Hk & Hlt).
      exists sc, rd, ts, b. done.
    + by apply elem_of_nil in Hin.
  - intros (sc & rd & ts & b & Hsc & Hrd & Hm & Hj & Hlt).
    exists rd. split; [by rewrite Hsc|]. rewrite Hm. cbn.
    apply forEach_textures_mem. by exists j, b.
Qed.

(** ** What a turn does to the videos *)

Lemma pass_videos_eq h full s0 r s' es :
  performCleanup h full s0 = (r, s', es) → videos s' = video_after full <$> videos s0.
Proof. intros H. pose proof (videos_after_pass h full s0) as Hv. by rewrite H in Hv. Qed.

Lemma guarded_turn_videos h (full : bool) s :
  micro s = [] →
  videos ((top (guarded_pass h full);; drain) s).1.2 = video_after full <$> videos s.
Proof.
  intros Hm. destruct (guarded_pass_turn h full s Hm) as (s' & es & Hrun & _ & ->).
  apply pass_videos_eq in Hrun. by destruct (dispose_throws h).
Qed.

Lemma unguarded_turn_videos h s :
  micro s = [] →
  videos ((top (performCleanup h true);; drain) s).1.2 = video_after true <$> videos s.
Proof.
  intros Hm. destruct (unguarded_turn h s Hm) as (s' & es & Hrun & _ & ->).
  by apply pass_videos_eq in Hrun.
Qed.

Lemma turn_videos h s st :
  micro s = [] →
  videos ((top (dispatch h st);; drain) s).1.2 = videos s ∨
  (∃ full, videos ((top (dispatch h st);; drain) s).1.2 = video_after full <$> videos s) ∨
  (∃ i u v, videos s !! i = Some v ∧
     videos ((top (dispatch h st);; drain) s).1.2
     = <[i := Video (paused v) (currentTime v) u]> (videos s)).
Proof.
  intros Hm.
  assert (Hauto : ∀ (full : bool) cb,
            videos ((top (when (armed h cb) (autoCleanup h full));; drain) s).1.2 = videos s ∨
            videos ((top (when (armed h cb) (autoCleanup h full));; drain) s).1.2
            = video_after full <$> videos s).
  { intros full cb.
    destruct (armed h cb); cbn [when]; [|left; by rewrite (idle_turn _ s Hm)].
    destruct (negb (hidden s) && negb (isProcessing (opt s))) eqn:E.
    - right. rewrite <- (guarded_turn_videos h full s Hm).
      rewrite !bind_eq. unfold top, try_catch. by rewrite autoCleanup_eq, E.
    - left. rewrite (idle_turn _ s Hm); [done|]. by rewrite autoCleanup_eq, E. }
  destruct st as [| |u l| |b| | |id]; cbn [dispatch].
  - destruct (Hauto false LightCleanupCb) as [H|H]; [by left|right; left; by exists false].
  - destruct (Hauto true FullCleanupCb) as [H|H]; [by left|right; left; by exists true].
  - destruct (armed h MemoryCb); cbn [when]; [|left; by rewrite (idle_turn _ s Hm)].
    destruct (over_threshold u l && negb (isProcessing (opt s))) eqn:E.
    + right. left. exists true. rewrite <- (guarded_turn_videos h true s Hm).
      rewrite !bind_eq. unfold top, try_catch. by rewrite memoryMonitor_eq, E.
    + left. rewrite (idle_turn _ s Hm); [done|]. by rewrite memoryMonitor_eq, E.
  - destruct (armed h ArErrorCb); cbn [when]; [|left; by rewrite (idle_turn _ s Hm)].
    right. left. exists (3 <? errorCount (opt s) + 1).
    destruct (arError_turn h s Hm) as (s' & es & Hrun & _ & ->).
    apply pass_videos_eq in Hrun. cbn in Hrun.
    destruct (dispose_throws h); [done|].
    by destruct (3 <? errorCount (opt s) + 1).
  - rewrite top_modify. destruct (armed_top_level h) as (-> & _ & _). cbn [when].
    assert (Hm' : micro (set_hidden b s) = []) by done.
    destruct b.
    + right. left. exists true.
      pose proof (unguarded_turn_videos h (set_hidden true s) Hm') as H.
      change (videos (set_hidden true s)) with (videos s) in H. rewrite <- H.
      rewrite !bind_eq. unfold top, try_catch, visibilityListener.
      rewrite bind_eq. cbn [gets hidden set_hidden when].
      by destruct (performCleanup h true (set_hidden true s)) as [[[]] ?].
    + left. by rewrite (idle_turn _ _ Hm').
  - destruct (armed_top_level h) as (_ & -> & _). cbn [when]. unfold unloadListener.
    right. left. exists true. by apply unguarded_turn_videos.
  - destruct (armed_top_level h) as (_ & _ & ->). cbn [when]. unfold unloadListener.
    right. left. exists true. by apply unguarded_turn_videos.
  - pose proof (fire_timeout_eq h id s) as Heq.
    destruct (find_timer id (timers s)) as [[due k]|] eqn:Ef.
    2:{ left. by rewrite (idle_turn _ s Hm Heq). }
    destruct (due <=? clock s) eqn:Ed.
    2:{ left. by rewrite (idle_turn _ s Hm Heq). }
    set (s1 := set_timers _ _ s) in Heq.
    destruct (run_task_spec h k s1) as (r & s' & es & Hrun & Hmi & _).
    rewrite Hrun in Heq. rewrite bind_eq. unfold top, try_catch. rewrite Heq.
    assert (Hv : videos s' = videos s ∨
                 ∃ i u v, videos s !! i = Some v ∧
                   videos s' = <[i := Video (paused v) (currentTime v) u]> (videos s)).
    { destruct k as [i u| |]; cbn [run_task] in Hrun.
      - unfold video_set_src, update_video in Hrun. revert Hrun. munfold.
        destruct (videos s1 !! i) as [v|] eqn:Ev; intros [= _ <- _]; [|by left].
        right. by exists i, u, v.
      - left. destruct (a_scene h ≫= mindar_image_system) as [ar|].
        + unfold call in Hrun. revert Hrun. munfold.
          destruct (start_throws ar); intros [= _ <- _]; reflexivity.
        + by injection Hrun as _ <- _.
      - left. revert Hrun. munfold. intros [= _ <- _]. reflexivity. }
    destruct r as [[]|]; cbn [emit]; rewrite drain_nil by (by rewrite Hmi); cbn [fst snd];
      destruct Hv as [Hv|Hv]; [by left|by right; right|by left|by right; right].
Qed.

(** ** Playback is never resumed *)

Lemma stays_paused_refl vs : stays_paused vs vs.
Proof. split; [done|]. intros i v Hv Hp. by exists v. Qed.

Lemma stays_paused_trans vs1 vs2 vs3 :
  stays_paused vs1 vs2 → stays_paused vs2 vs3 → stays_paused vs1 vs3.
Proof.
  intros [Hl1 H1] [Hl2 H2]. split; [congruence|].
  intros i v Hv Hp. destruct (H1 i v Hv Hp) as (v' & Hv' & Hp' & Ht').
  destruct (H2 i v' Hv' Hp') as (v'' & Hv'' & Hp'' & Ht''). exists v''.
  split; [done|]. split; [done|congruence].
Qed.

Lemma stays_paused_pass full vs : stays_paused vs (video_after full <$> vs).
Proof.
  split; [by rewrite length_fmap|]. intros i v Hv Hp. exists v.
  rewrite list_lookup_fmap, Hv. cbn. unfold video_after. by rewrite Hp.
Qed.

Lemma stays_paused_src vs i u v :
  vs !! i = Some v → stays_paused vs (<[i := Video (paused v) (currentTime v) u]> vs).
Proof.
  intros Hi. split; [by rewrite length_insert|]. intros j w Hw Hp.
  destruct (decide (i = j)) as [->|Hne].
  - assert (w = v) as -> by congruence.
    exists (Video (paused v) (currentTime v) u). split; [|done].
    apply list_lookup_insert_eq. by eapply lookup_lt_Some.
  - exists w. by rewrite list_lookup_insert_ne.
Qed.

Lemma macrotask_videos h s ev :
  videos (macrotask h s ev)
  = videos ((top (dispatch h ev.2);; drain) (set_clock (Z.max (clock s) ev.1) s)).1.2.
Proof.
  unfold macrotask.
  by destruct ((top (dispatch h ev.2);; drain) (set_clock (Z.max (clock s) ev.1) s))
    as [[r s'] es].
Qed.

Lemma macrotask_stays_paused h s ev :
  micro s = [] → stays_paused (videos s) (videos (macrotask h s ev)).
Proof.
  intros Hm. rewrite macrotask_videos.
  set (s0 := set_clock (Z.max (clock s) ev.1) s).
  assert (Hm0 : micro s0 = []) by done.
  change (videos s) with (videos s0).
  destruct (turn_videos h s0 ev.2 Hm0) as [->|[(full & ->)|(i & u & v & Hv & ->)]].
  - apply stays_paused_refl.
  - apply stays_paused_pass.
  - by apply stays_paused_src.
Qed.

(** X11: no timer, listener or timeout callback of the optimizer and of the
    page lifecycle handlers resumes playback: along any sequence of stimuli
    the list of videos keeps its length and a video that is paused stays
    paused, at the same position. *)
Theorem playback_never_resumed h evs : ∀ s,
  micro s = [] → stays_paused (videos s) (videos (run h s evs)).
Proof.
  induction evs as [|ev evs IH]; intros s Hm; [apply stays_paused_refl|].
  cbn [run fold_left]. fold (run h (macrotask h s ev) evs).
  destruct (macrotask_spec h s ev Hm) as (Hm' & _).
  eapply stays_paused_trans; [by apply macrotask_stays_paused|by apply IH].
Qed.

Lemma playback_never_resumed_witness :
  stays_paused (videos (init demo_videos false))
    (videos (run healthy_host (init demo_videos false)
               [(1000, ArError); (120000, LightTimer); (130000, PageHide);
                (130100, Timeout 0); (600000, FullTimer)])).
Proof. exact (playback_never_resumed healthy_host _ (init demo_videos false) eq_refl). Defined.

(** ** The source of a video comes back *)

Lemma restore_timer_found h s i v :
  ids_fresh s = true → videos s !! i = Some v → paused v = false →
  ∃ id, find_timer id (timers (performCleanup h true s).1.2)
        = Some (clock s + 100, RestoreSrc i (src v)).
Proof.
  intros Hids Hv Hp.
  destruct (performCleanup_run h true s) as (s' & es & Hrun & Hps).
  destruct (performCleanup_blocks h true s) as (s1 & ev & et & _ & Hvs & _ & _ & Hblocks).
  destruct Hps as [_ _ _ (newp & Htp & Hnp & Hip & _)].
  destruct Hvs as [_ _ Hcalls _ _].
  specialize (Hcalls i). rewrite in_range_all, Hv in Hcalls by done.
  destruct Hcalls as (id & _ & Hin). destruct (Hin eq_refl Hp) as [Hge Hmem].
  exists id. rewrite Hrun. cbn [fst snd].
  assert (Hmem' : (id, (clock s + 100, RestoreSrc i (src v))) ∈ timers s').
  { rewrite Hblocks in Hrun. destruct (dispose_throws h).
    - by injection Hrun as <- _.
    - injection Hrun as <- _. destruct (restart_scheduled h true); [|done].
      cbn. apply elem_of_app. by left. }
  rewrite Htp in *. by apply find_timer_new.
Qed.

(** X12: the source removed by a Full pass comes back.  A video that was
    playing when a Full pass starts is left paused at position 0 with an
    empty [src], whether or not the pass later throws, and the pass leaves a
    timeout due 100 ms later; the turn of that timeout changes no video
    before that time and, from that time on, gives the video its former
    [src] back, still paused at position 0, and changes no other video. *)
Theorem full_pass_restores_source h s i v :
  micro s = [] → ids_fresh s = true → videos s !! i = Some v → paused v = false →
  let s1 := (performCleanup h true s).1.2 in
  videos s1 !! i = Some (Video true 0 EmptyString) ∧
  ∃ id, find_timer id (timers s1) = Some (clock s + 100, RestoreSrc i (src v)) ∧
        (∀ t, Z.max (clock s) t < clock s + 100 →
           videos (macrotask h s1 (t, Timeout id)) = videos s1) ∧
        (∀ t, clock s + 100 ≤ t →
           videos (macrotask h s1 (t, Timeout id)) !! i = Some (Video true 0 (src v)) ∧
           ∀ j, j ≠ i → videos (macrotask h s1 (t, Timeout id)) !! j = videos s1 !! j).
Proof.
  intros Hm Hids Hv Hp s1.
  assert (Hv1 : videos s1 !! i = Some (Video true 0 EmptyString)).
  { unfold s1. rewrite videos_after_pass, list_lookup_fmap, Hv. cbn.
    unfold video_after. by rewrite Hp. }
  split; [done|].
  destruct (restore_timer_found h s i v Hids Hv Hp) as (id & Hf). fold s1 in Hf.
  destruct (performCleanup_run h true s) as (s' & es & Hrun & Hps).
  assert (Hs1 : s1 = s') by (unfold s1; by rewrite Hrun).
  destruct Hps as [(Hc & _ & _ & Hmi & _) _ _ _]. rewrite <- Hs1 in Hc, Hmi.
  assert (Hm1 : micro s1 = []) by congruence.
  exists id. split; [done|]. split.
  - intros t Hlt. erewrite macrotask_timeout_early; [done|done|exact Hf|]. rewrite Hc. lia.
  - intros t Hle.
    destruct (macrotask_timeout_due h s1 t id _ _ Hm1 Hf) as (r & s2 & es2 & Hrun2 & ->);
      [rewrite Hc; lia|].
    cbn [run_task] in Hrun2. unfold video_set_src, update_video in Hrun2.
    revert Hrun2. munfold. cbn [videos set_timers set_clock]. rewrite Hv1.
    intros [= _ <- _]. cbn [videos set_log set_videos paused currentTime]. split.
    + apply list_lookup_insert_eq. by eapply lookup_lt_Some.
    + intros j Hne. by rewrite list_lookup_insert_ne.
Qed.

Lemma full_pass_restores_source_witness :
  let s1 := (performCleanup failing_dispose_host true (init demo_videos false)).1.2 in
  videos s1 !! 0%nat = Some (Video true 0 EmptyString) ∧
  ∃ id, find_timer id (timers s1)
        = Some (clock (init demo_videos false) + 100, RestoreSrc 0 "a.mp4") ∧
        (∀ t, Z.max (clock (init demo_videos false)) t < clock (init demo_videos false) + 100 →
           videos (macrotask failing_dispose_host s1 (t, Timeout id)) = videos s1) ∧
        (∀ t, clock (init demo_videos false) + 100 ≤ t →
           videos (macrotask failing_dispose_host s1 (t, Timeout id)) !! 0%nat
           = Some (Video true 0 "a.mp4") ∧
           ∀ j, j ≠ 0%nat →
             videos (macrotask failing_dispose_host s1 (t, Timeout id)) !! j = videos s1 !! j).
Proof.
  exact (full_pass_restores_source failing_dispose_host (init demo_videos false) 0
           (Video false 5 "a.mp4") eq_refl eq_refl eq_refl eq_refl).
Defined.

(** ** What is armed, and what a page without a renderer does *)

Lemma starts_pass_unarmed h s st :
  domContentLoaded h = [] → starts_pass h s st = lifecycle_pass st.
Proof.
  intros Hd.
  assert (Hoff : ∀ cb, cb = LightCleanupCb ∨ cb = FullCleanupCb ∨ cb = MemoryCb ∨ cb = ArErrorCb →
            armed h cb = false).
  { intros cb Hcb. unfold armed, page. rewrite Hd.
    destruct Hcb as [->|[->|[->| ->]]]; reflexivity. }
  destruct st as [| |u l| |[|]| | |id]; cbn [starts_pass lifecycle_pass];
    rewrite ?Hoff by tauto; reflexivity.
Qed.

Lemma starts_pass_no_renderer h s st :
  a_scene h ≫= scene_renderer = None → starts_pass h s st = lifecycle_pass st.
Proof.
  intros Hr. apply starts_pass_unarmed.
  unfold domContentLoaded. rewrite Hr. by destruct (loadingScreen h), (loadingProgress h).
Qed.

(** X13: without [#loading-screen] or [#loading-progress] the optimizer is
    never installed, even on a page whose scene has a renderer: the
    [DOMContentLoaded] listener throws before [AROptimizer.initialize()], so
    no timer tick, heap sample or [arError] event starts a pass, and the
    passes are those of the lifecycle listeners, one Full pass for each
    change to hidden, [beforeunload] and [pagehide]. *)
Theorem missing_loading_element_lifecycle_only h evs s :
  loadingScreen h && loadingProgress h = false → micro s = [] →
  passes (run h s evs) = passes s ++ (evs ≫= λ ev, lifecycle_pass ev.2).
Proof.
  intros He. revert s.
  assert (Hd : domContentLoaded h = []).
  { unfold domContentLoaded. by destruct (loadingScreen h), (loadingProgress h). }
  induction evs as [|[t st] evs IH]; intros s Hm.
  - cbn. by rewrite app_nil_r.
  - cbn [run fold_left]. fold (run h (macrotask h s (t, st)) evs).
    destruct (macrotask_exact h s t st Hm) as (_ & Hp & Hm' & _).
    rewrite IH, Hp, starts_pass_unarmed by done.
    by rewrite bind_cons, app_assoc.
Qed.

Lemma missing_loading_element_lifecycle_only_witness :
  passes (run no_loading_screen_host (init demo_videos false)
            [(1000, ArError); (30000, HeapTimer 90 100); (120000, LightTimer);
             (600000, FullTimer); (700000, PageHide)])
  = passes (init demo_videos false) ++ [true].
Proof.
  exact (missing_loading_element_lifecycle_only no_loading_screen_host
           [(1000, ArError); (30000, HeapTimer 90 100); (120000, LightTimer);
            (600000, FullTimer); (700000, PageHide)]
           (init demo_videos false) eq_refl eq_refl).
Defined.

(** X14: on a page whose scene has no renderer at [DOMContentLoaded] (or
    that has no scene) the passes are those of the lifecycle listeners and
    no others: one Full pass for each change to hidden, [beforeunload] and
    [pagehide], none for a timer tick, a heap sample or an [arError] event. *)
Theorem no_renderer_lifecycle_only h evs : ∀ s,
  a_scene h ≫= scene_renderer = None → micro s = [] →
  passes (run h s evs) = passes s ++ (evs ≫= λ ev, lifecycle_pass ev.2).
Proof.
  induction evs as [|[t st] evs IH]; intros s Hr Hm.
  - cbn. by rewrite app_nil_r.
  - cbn [run fold_left]. fold (run h (macrotask h s (t, st)) evs).
    destruct (macrotask_exact h s t st Hm) as (_ & Hp & Hm' & _).
    rewrite IH, Hp, starts_pass_no_renderer by done.
    by rewrite bind_cons, app_assoc.
Qed.

Lemma no_renderer_lifecycle_only_witness :
  passes (run no_scene_host (init demo_videos false)
            [(1000, ArError); (120000, LightTimer); (130000, VisibilityChange true);
             (140000, VisibilityChange false); (150000, PageHide)])
  = passes (init demo_videos false) ++ [true; true].
Proof.
  exact (no_renderer_lifecycle_only no_scene_host
           [(1000, ArError); (120000, LightTimer); (130000, VisibilityChange true);
            (140000, VisibilityChange false); (150000, PageHide)]
           (init demo_videos false) eq_refl eq_refl).
Defined.

(** ** [lastCleanup] *)

Lemma opt_next_lastCleanup h s st : lastCleanup (opt_next h s st) = lastCleanup (opt s).
Proof.
  unfold opt_next. destruct st as [| |u l| |b| | |id]; try done.
  - by destruct (starts_pass h s LightTimer).
  - by destruct (starts_pass h s FullTimer).
  - by destruct (starts_pass h s (HeapTimer u l)).
  - by destruct (armed h ArErrorCb).
  - destruct (find_timer id (timers s)) as [[due [| |]]|]; try done.
    by destruct (due <=? clock s).
Qed.

(** X15: [lastCleanup] is written once, when the object is created, and
    never again: no pass, listener or timer of the file updates it. *)
Theorem lastCleanup_never_updated h evs : ∀ s,
  micro s = [] → lastCleanup (opt (run h s evs)) = lastCleanup (opt s).
Proof.
  induction evs as [|[t st] evs IH]; intros s Hm; [done|].
  cbn [run fold_left]. fold (run h (macrotask h s (t, st)) evs).
  destruct (macrotask_exact h s t st Hm) as (Ho & _ & Hm' & _).
  by rewrite IH, Ho, opt_next_lastCleanup.
Qed.

Lemma lastCleanup_never_updated_witness :
  lastCleanup (opt (run healthy_host (init demo_videos false)
                      [(1000, ArError); (120000, LightTimer); (600000, FullTimer)]))
  = lastCleanup (opt (init demo_videos false)).
Proof. exact (lastCleanup_never_updated healthy_host _ (init demo_videos false) eq_refl). Defined.

(** ** A tick of a cleanup timer, seen from the videos *)

Lemma auto_turn_videos h (full : bool) cb s :
  micro s = [] →
  videos ((top (when (armed h cb) (autoCleanup h full));; drain) s).1.2
  = if armed h cb && negb (hidden s) && negb (isProcessing (opt s))
    then video_after full <$> videos s else videos s.
Proof.
  intros Hm. destruct (armed h cb); cbn [when andb]; [|by rewrite (idle_turn _ s Hm)].
  destruct (negb (hidden s) && negb (isProcessing (opt s))) eqn:E.
  - rewrite <- (guarded_turn_videos h full s Hm).
    rewrite !bind_eq. unfold top, try_catch. by rewrite autoCleanup_eq, E.
  - rewrite (idle_turn _ s Hm); [done|]. by rewrite autoCleanup_eq, E.
Qed.

(** X16: a tick of the light timer stops whatever is playing.  On a page
    where that timer is installed and no [dispose()] throws, a light tick
    that finds the page visible leaves every video paused; one that was
    playing is rewound to position 0 and keeps its [src], one that was paused
    is untouched.  A tick that finds the page hidden changes no video. *)
Theorem light_tick_pauses_playback h vs hid evs t :
  dispose_throws h = false → armed h LightCleanupCb = true →
  let s := run h (init vs hid) evs in
  videos (macrotask h s (t, LightTimer))
  = if hidden s then videos s
    else (λ v, if paused v then v else Video true 0 (src v)) <$> videos s.
Proof.
  intros Hd Ha s.
  destruct (run_init_ready h vs hid evs) as (Hm & _ & _ & Hb). specialize (Hb Hd).
  fold s in Hm, Hb.
  rewrite macrotask_videos. cbn [fst snd dispatch].
  rewrite auto_turn_videos by done. cbn [hidden opt set_clock videos].
  rewrite Ha, Hb. cbn. by destruct (hidden s).
Qed.

Lemma light_tick_pauses_playback_witness :
  videos (macrotask healthy_host
            (run healthy_host (init demo_videos false) [(1000, ArError)]) (120000, LightTimer))
  = if hidden (run healthy_host (init demo_videos false) [(1000, ArError)])
    then videos (run healthy_host (init demo_videos false) [(1000, ArError)])
    else (λ v, if paused v then v else Video true 0 (src v))
           <$> videos (run healthy_host (init demo_videos false) [(1000, ArError)]).
Proof.
  exact (light_tick_pauses_playback healthy_host demo_videos false [(1000, ArError)] 120000
           eq_refl eq_refl).
Defined.

(** ** [target-handler] *)

Lemma target_handler_data_id ev e : data_id (target_handler ev e).1 = data_id e.
Proof. destruct ev; cbn; unfold gltf_setAttribute_visible; by destruct (gltf_visible e). Qed.

Lemma target_handler_run_app evs1 evs2 e :
  target_handler_run (evs1 ++ evs2) e
  = let '(e1, c1) := target_handler_run evs1 e in
    let '(e2, c2) := target_handler_run evs2 e1 in (e2, c1 ++ c2).
Proof.
  revert e. induction evs1 as [|ev evs1 IH]; intros e; cbn [app target_handler_run].
  - by destruct (target_handler_run evs2 e).
  - destruct (target_handler ev e) as [e1 c1]. rewrite IH.
    destruct (target_handler_run evs1 e1) as [e2 c2].
    destruct (target_handler_run evs2 e2) as [e3 c3]. by rewrite app_assoc.
Qed.

Lemma target_handler_run_keeps evs : ∀ e,
  data_id (target_handler_run evs e).1 = data_id e ∧
  (is_Some (gltf_visible e) → is_Some (gltf_visible (target_handler_run evs e).1)) ∧
  (gltf_visible e = None → (target_handler_run evs e).1 = e) ∧
  (target_handler_run evs e).2
  = (λ ev, ULog ((match ev with
                  | TargetFound => "Target found for ID: "
                  | TargetLost => "Target lost for ID: "
                  end) +:+ template_text (data_id e))) <$> evs.
Proof.
  induction evs as [|ev evs IH]; intros e; cbn [target_handler_run].
  - by repeat split.
  - pose proof (target_handler_data_id ev e) as Hid.
    assert (Hs : is_Some (gltf_visible e) → is_Some (gltf_visible (target_handler ev e).1)).
    { intros [a Ha]. destruct ev; cbn; unfold gltf_setAttribute_visible; by rewrite Ha. }
    assert (Hn : gltf_visible e = None → (target_handler ev e).1 = e).
    { intros Ha. destruct ev; cbn; unfold gltf_setAttribute_visible; by rewrite Ha. }
    assert (Hc : (target_handler ev e).2
                 = [ULog ((match ev with
                           | TargetFound => "Target found for ID: "
                           | TargetLost => "Target lost for ID: "
                           end) +:+ template_text (data_id e))]) by (by destruct ev).
    destruct (target_handler ev e) as [e1 c1]. cbn [fst snd] in *.
    destruct (IH e1) as (I1 & I2 & I3 & I4).
    destruct (target_handler_run evs e1) as [e2 c2]. cbn [fst snd] in *.
    split; [congruence|]. split; [auto|]. split.
    + intros Ha. rewrite Hn in * by done. by apply I3.
    + rewrite Hc, I4, Hid. reflexivity.
Qed.

(** X17: the visibility of the model follows the tracking.  After any
    sequence of [targetFound] and [targetLost] events the [visible] attribute
    of the entity's [<a-gltf-model>] is ["true"] or ["false"] as the last
    event was a find or a loss; an entity without such a model is never
    changed; and every event writes one line to the console, with the
    entity's [data-id] (or [null]). *)
Theorem gltf_follows_tracking evs e :
  (∀ pre ev, evs = pre ++ [ev] → is_Some (gltf_visible e) →
     gltf_visible (target_handler_run evs e).1 = Some (Some (visible_text ev))) ∧
  (gltf_visible e = None → (target_handler_run evs e).1 = e) ∧
  data_id (target_handler_run evs e).1 = data_id e ∧
  (target_handler_run evs e).2
  = (λ ev, ULog ((match ev with
                  | TargetFound => "Target found for ID: "
                  | TargetLost => "Target lost for ID: "
                  end) +:+ template_text (data_id e))) <$> evs.
Proof.
  destruct (target_handler_run_keeps evs e) as (H1 & _ & H3 & H4).
  split; [|done]. intros pre ev -> Hs. rewrite target_handler_run_app.
  destruct (target_handler_run_keeps pre e) as (_ & P2 & _).
  destruct (target_handler_run pre e) as [e1 c1]. cbn [fst] in P2.
  destruct (P2 Hs) as [a Ha]. cbn [target_handler_run].
  destruct ev; cbn; unfold gltf_setAttribute_visible; by rewrite Ha.
Qed.

(** ** [video-material] *)

Lemma vm_run_app evs1 evs2 p :
  vm_run (evs1 ++ evs2) p
  = let '(p1, c1) := vm_run evs1 p in
    let '(p2, c2) := vm_run evs2 p1 in (p2, c1 ++ c2).
Proof.
  revert p. induction evs1 as [|ev evs1 IH]; intros p; cbn [app vm_run].
  - by destruct (vm_run evs2 p).
  - destruct (vm_dispatch ev p) as [p1 c1]. rewrite IH.
    destruct (vm_run evs1 p1) as [p2 c2].
    destruct (vm_run evs2 p2) as [p3 c3]. by rewrite app_assoc.
Qed.

Lemma vm_run_deaf evs : ∀ p, vm_listening p = false → vm_run evs p = (p, []).
Proof.
  induction evs as [|ev evs IH]; intros p Hl; [done|].
  cbn [vm_run]. unfold vm_dispatch. rewrite Hl. by rewrite IH.
Qed.

(** X18: without [#vid1] or without [#videoEntity] the component does
    nothing.  [init] then reports the missing element on the console and
    adds no listener, so no later tracking or [play] event changes anything
    or calls anything. *)
Theorem video_material_needs_both_elements p evs :
  vid1 p = None ∨ videoEntity p = None → vm_listening p = false →
  video_material_init p = (p, [UError "Video or video entity is missing"]) ∧
  vm_run evs (video_material_init p).1 = (p, []).
Proof.
  intros Hmiss Hl.
  assert (Hi : video_material_init p = (p, [UError "Video or video entity is missing"])).
  { unfold video_material_init. destruct Hmiss as [-> | ->]; [done|]. by destruct (vid1 p). }
  split; [done|]. rewrite Hi. by apply vm_run_deaf.
Qed.

Lemma video_material_needs_both_elements_witness :
  video_material_init (VmPage (Some (Video true 0 "a.mp4")) None 0 false)
  = (VmPage (Some (Video true 0 "a.mp4")) None 0 false,
     [UError "Video or video entity is missing"]) ∧
  vm_run [VmTargetFound (PlayResult true false); VmVideoPlay; VmTargetLost]
    (video_material_init (VmPage (Some (Video true 0 "a.mp4")) None 0 false)).1
  = (VmPage (Some (Video true 0 "a.mp4")) None 0 false, []).
Proof.
  exact (video_material_needs_both_elements
           (VmPage (Some (Video true 0 "a.mp4")) None 0 false)
           [VmTargetFound (PlayResult true false); VmVideoPlay; VmTargetLost]
           (or_intror eq_refl) eq_refl).
Defined.

Lemma vm_kept_refl p : vm_kept p p.
Proof. split; [done|]. intros v ve Hv Hve. by exists v, ve. Qed.

Lemma vm_kept_trans p1 p2 p3 : vm_kept p1 p2 → vm_kept p2 p3 → vm_kept p1 p3.
Proof.
  intros [Hl1 H1] [Hl2 H2]. split; [congruence|]. intros v ve Hv Hve.
  destruct (H1 v ve Hv Hve) as (v' & ve' & Hv' & Hve' & Ht & Hs & Hm).
  destruct (H2 v' ve' Hv' Hve') as (v'' & ve'' & Hv'' & Hve'' & Ht' & Hs' & Hm').
  exists v'', ve''. repeat split; try congruence; tauto.
Qed.

Lemma vm_dispatch_kept ev p : vm_kept p (vm_dispatch ev p).1.
Proof.
  unfold vm_dispatch. destruct (vm_listening p) eqn:Hl; [|apply vm_kept_refl].
  destruct ev as [r| |]; cbn.
  - split; [done|]. intros v ve -> ->. cbn. eexists _, _. by repeat split.
  - split; [done|]. intros v ve -> ->. cbn. eexists _, _. by repeat split.
  - unfold video_material_play. destruct (videoEntity p) as [ve|] eqn:Hve.
    + destruct (mesh ve) as [m|] eqn:Hm; cbn.
      * split; [done|]. intros v ve0 Hv Hve0. assert (ve0 = ve) as -> by congruence.
        eexists _, _. repeat split; cbn; rewrite ?Hm; eauto.
      * split; [done|]. intros v ve0 Hv Hve0. assert (ve0 = ve) as -> by congruence.
        by exists v, ve.
    + apply vm_kept_refl.
Qed.

Lemma vm_run_kept evs : ∀ p, vm_kept p (vm_run evs p).1.
Proof.
  induction evs as [|ev evs IH]; intros p; [apply vm_kept_refl|].
  cbn [vm_run]. pose proof (vm_dispatch_kept ev p) as H1.
  destruct (vm_dispatch ev p) as [p1 c1]. specialize (IH p1).
  destruct (vm_run evs p1) as [p2 c2]. cbn [fst] in *. by eapply vm_kept_trans.
Qed.

Lemma vm_run_tracked evs : ∀ p v ve,
  vm_listening p = true → vid1 p = Some v → videoEntity p = Some ve →
  match last_tracking evs with
  | Some ev => vm_tracked ev (vm_run evs p).1
  | None =>
      (paused <$> vid1 (vm_run evs p).1) = Some (paused v) ∧
      (entity_visible <$> videoEntity (vm_run evs p).1) = Some (entity_visible ve)
  end.
Proof.
  induction evs as [|ev evs IH]; intros p v ve Hl Hv Hve.
  - cbn. by rewrite Hv, Hve.
  - cbn [last_tracking vm_run].
    assert (Hev : match ev with
                  | VmVideoPlay =>
                      (paused <$> vid1 (vm_dispatch ev p).1) = Some (paused v) ∧
                      (entity_visible <$> videoEntity (vm_dispatch ev p).1)
                      = Some (entity_visible ve)
                  | _ => vm_tracked ev (vm_dispatch ev p).1
                  end).
    { unfold vm_dispatch. rewrite Hl. destruct ev as [r| |]; cbn.
      - rewrite Hv, Hve. cbn. split; [done|]. by intros ->.
      - by rewrite Hv, Hve.
      - unfold video_material_play. rewrite Hve.
        destruct (mesh ve); cbn; rewrite ?Hv, ?Hve; done. }
    pose proof (vm_dispatch_kept ev p) as [Hl1 Hk].
    destruct (Hk v ve Hv Hve) as (v1 & ve1 & Hv1 & Hve1 & _).
    destruct (vm_dispatch ev p) as [p1 c1]. cbn [fst] in *.
    assert (Hl1' : vm_listening p1 = true) by congruence.
    specialize (IH p1 v1 ve1 Hl1' Hv1 Hve1).
    destruct (vm_run evs p1) as [p2 c2]. cbn [fst] in *.
    destruct (last_tracking evs) as [ev'|]; [done|].
    destruct IH as [IH1 IH2].
    destruct ev as [r| |].
    + cbn in *. rewrite Hv1, Hve1 in Hev. cbn in Hev. destruct Hev as [[= E1] E2].
      rewrite IH1, IH2, E1. split; [done|]. intros Hs. by rewrite (E2 Hs).
    + cbn in *. rewrite Hv1, Hve1 in Hev. cbn in Hev. destruct Hev as [[= E1] [= E2]].
      by rewrite IH1, IH2, E1, E2.
    + rewrite Hv1, Hve1 in Hev. cbn in Hev. destruct Hev as [[= E1] [= E2]].
      by rewrite IH1, IH2, E1, E2.
Qed.

(** X19: the entity and the video follow the tracking.  Once [init] has
    found both elements, after any sequence of events the entity is visible
    and the video paused as the last tracking event left them, [play] events
    in between changing neither: after a loss the entity is hidden and the
    video paused; after a find the entity is visible and the video plays if
    [play()] started it.  The component never changes the position or the
    [src] of the video. *)
Theorem video_material_follows_tracking p v ve evs :
  vid1 p = Some v → videoEntity p = Some ve →
  let p' := (vm_run evs (video_material_init p).1).1 in
  match last_tracking evs with
  | Some (VmTargetFound r) =>
      (entity_visible <$> videoEntity p') = Some (Some "true") ∧
      (starts r = true → (paused <$> vid1 p') = Some false)
  | Some VmTargetLost =>
      (entity_visible <$> videoEntity p') = Some (Some "false") ∧
      (paused <$> vid1 p') = Some true
  | _ =>
      (paused <$> vid1 p') = Some (paused v) ∧
      (entity_visible <$> videoEntity p') = Some (entity_visible ve)
  end ∧
  (currentTime <$> vid1 p') = Some (currentTime v) ∧ (src <$> vid1 p') = Some (src v).
Proof.
  intros Hv Hve p'.
  assert (Hi : video_material_init p = (VmPage (vid1 p) (videoEntity p) (video_textures p) true, []))
    by (unfold video_material_init; by rewrite Hv, Hve).
  unfold p'. rewrite Hi. cbn [fst].
  set (p0 := VmPage (vid1 p) (videoEntity p) (video_textures p) true).
  split.
  - pose proof (vm_run_tracked evs p0 v ve eq_refl Hv Hve) as H.
    destruct (last_tracking evs) as [[r| |]|] eqn:El; try done.
    exfalso. clear -El. induction evs as [|ev evs IH]; [done|]. cbn in El.
    destruct (last_tracking evs) as [ev'|]; [by apply IH|]. by destruct ev.
  - destruct (vm_run_kept evs p0) as [_ Hk].
    destruct (Hk v ve Hv Hve) as (v' & ve' & Hv' & _ & Ht & Hs & _).
    rewrite Hv'. cbn. by rewrite Ht, Hs.
Qed.

Lemma video_material_follows_tracking_witness :
  let p' := (vm_run [VmTargetFound (PlayResult true false); VmVideoPlay; VmTargetLost; VmVideoPlay]
               (video_material_init
                  (VmPage (Some (Video true 0 "a.mp4"))
                          (Some (VideoEntity None (Some SceneMaterial))) 0 false)).1).1 in
  ((entity_visible <$> videoEntity p') = Some (Some "false") ∧
   (paused <$> vid1 p') = Some true) ∧
  (currentTime <$> vid1 p') = Some 0 ∧ (src <$> vid1 p') = Some "a.mp4".
Proof.
  exact (video_material_follows_tracking
           (VmPage (Some (Video true 0 "a.mp4")) (Some (VideoEntity None (Some SceneMaterial)))
                   0 false)
           (Video true 0 "a.mp4") (VideoEntity None (Some SceneMaterial))
           [VmTargetFound (PlayResult true false); VmVideoPlay; VmTargetLost; VmVideoPlay]
           eq_refl eq_refl).
Defined.

Lemma vm_run_textures evs : ∀ p ve,
  vm_listening p = true → videoEntity p = Some ve →
  video_textures (vm_run evs p).1 = (video_textures p + plays evs)%nat ∧
  (mesh <$> videoEntity (vm_run evs p).1)
  = Some (match mesh ve with
          | Some m =>
              Some (match plays evs with
                    | O => m
                    | S k => VideoMaterial (video_textures p + k)
                    end)
          | None => None
          end).
Proof.
  induction evs as [|ev evs IH]; intros p ve Hl Hve.
  - cbn. rewrite Hve. cbn. split; [lia|]. by destruct (mesh ve).
  - cbn [vm_run]. unfold vm_dispatch. rewrite Hl. destruct ev as [r| |].
    + specialize (IH (video_material_found r p).1 (entity_setAttribute_visible "true" ve)
                    Hl ltac:(cbn; by rewrite Hve)).
      destruct (video_material_found r p) as [p1 c1] eqn:E1.
      assert (Ht : video_textures p1 = video_textures p) by (by injection E1 as <- _).
      change (plays (VmTargetFound r :: evs)) with (plays evs).
      unfold entity_setAttribute_visible in IH. cbn [fst mesh] in IH. rewrite Ht in IH.
      by destruct (vm_run evs p1) as [p2 c2].
    + specialize (IH (video_material_lost p).1 (entity_setAttribute_visible "false" ve)
                    Hl ltac:(cbn; by rewrite Hve)).
      destruct (video_material_lost p) as [p1 c1] eqn:E1.
      assert (Ht : video_textures p1 = video_textures p) by (by injection E1 as <- _).
      change (plays (VmTargetLost :: evs)) with (plays evs).
      unfold entity_setAttribute_visible in IH. cbn [fst mesh] in IH. rewrite Ht in IH.
      by destruct (vm_run evs p1) as [p2 c2].
    + change (plays (VmVideoPlay :: evs)) with (S (plays evs)).
      unfold video_material_play. rewrite Hve.
      destruct (mesh ve) as [m|] eqn:Hm.
      * specialize (IH (VmPage (vid1 p)
                          (Some (VideoEntity (entity_visible ve)
                                   (Some (VideoMaterial (video_textures p)))))
                          (S (video_textures p)) (vm_listening p))
                      (VideoEntity (entity_visible ve) (Some (VideoMaterial (video_textures p))))
                      Hl eq_refl).
        destruct (vm_run evs _) as [p2 c2]. cbn [fst video_textures mesh] in *.
        destruct IH as [I1 I2]. split; [lia|]. rewrite I2.
        destruct (plays evs) as [|k]; [by rewrite Nat.add_0_r|].
        do 3 f_equal. lia.
      * specialize (IH (VmPage (vid1 p) (Some ve) (S (video_textures p)) (vm_listening p))
                      ve Hl eq_refl).
        destruct (vm_run evs _) as [p2 c2]. cbn [fst video_textures] in *.
        destruct IH as [I1 I2]. split; [lia|]. by rewrite I2, Hm.
Qed.

(** X20: every [play] event of the video makes one more
    [THREE.VideoTexture], whether or not the entity has a mesh, and the
    component releases none.  When the entity has a mesh, its material is the
    one made for the latest [play] event (the scene's own material before the
    first); an entity without a mesh never gets one. *)
Theorem play_event_makes_texture p v ve evs :
  vid1 p = Some v → videoEntity p = Some ve →
  let p' := (vm_run evs (video_material_init p).1).1 in
  video_textures p' = (video_textures p + plays evs)%nat ∧
  (mesh <$> videoEntity p')
  = Some (match mesh ve with
          | Some m =>
              Some (match plays evs with
                    | O => m
                    | S k => VideoMaterial (video_textures p + k)
                    end)
          | None => None
          end).
Proof.
  intros Hv Hve p'.
  assert (Hi : video_material_init p = (VmPage (vid1 p) (videoEntity p) (video_textures p) true, []))
    by (unfold video_material_init; by rewrite Hv, Hve).
  unfold p'. rewrite Hi. cbn [fst].
  exact (vm_run_textures evs (VmPage (vid1 p) (videoEntity p) (video_textures p) true) ve
           eq_refl Hve).
Qed.

Lemma play_event_makes_texture_witness :
  let p' := (vm_run [VmTargetFound (PlayResult true false); VmVideoPlay; VmTargetLost;
                     VmTargetFound (PlayResult true false); VmVideoPlay]
               (video_material_init
                  (VmPage (Some (Video true 0 "a.mp4"))
                          (Some (VideoEntity None (Some SceneMaterial))) 0 false)).1).1 in
  video_textures p' = 2%nat ∧
  (mesh <$> videoEntity p') = Some (Some (VideoMaterial 1)).
Proof.
  exact (play_event_makes_texture
           (VmPage (Some (Video true 0 "a.mp4")) (Some (VideoEntity None (Some SceneMaterial)))
                   0 false)
           (Video true 0 "a.mp4") (VideoEntity None (Some SceneMaterial))
           [VmTargetFound (PlayResult true false); VmVideoPlay; VmTargetLost;
            VmTargetFound (PlayResult true false); VmVideoPlay]
           eq_refl eq_refl).
Defined.

(** ** The loading screen *)

Lemma loading_run_app d evs1 evs2 u :
  loading_run d (evs1 ++ evs2) u
  = let '(u1, c1) := loading_run d evs1 u in
    let '(u2, c2) := loading_run d evs2 u1 in (u2, c1 ++ c2).
Proof.
  revert u. induction evs1 as [|ev evs1 IH]; intros u; cbn [app loading_run].
  - by destruct (loading_run d evs2 u).
  - destruct (loading_step d ev u) as [u1 c1]. rewrite IH.
    destruct (loading_run d evs1 u1) as [u2 c2].
    destruct (loading_run d evs2 u2) as [u3 c3]. by rewrite app_assoc.
Qed.

Lemma loading_run_idle d evs u : idle_ui u → loading_run d evs u = (u, []).
Proof.
  intros (Ht & Hr & Hn). induction evs as [|ev evs IH]; [done|].
  cbn [loading_run].
  assert (Hs : loading_step d ev u = (u, [])).
  { destruct ev; cbn; rewrite ?Ht, ?Hr, ?Hn; reflexivity. }
  by rewrite Hs, IH.
Qed.

Lemma loading_listener_complete d h :
  page_complete d h = true →
  loading_listener d h fresh_ui
  = (LoadingUi (Some "flex") (Some "block") None false true true false 0, []).
Proof.
  unfold page_complete, loading_listener. intros H.
  apply andb_true_iff in H as [H Hr]. apply andb_true_iff in H as [-> ->].
  apply bool_decide_eq_true in Hr as [rd ->]. reflexivity.
Qed.

Lemma incomplete_page_start d h :
  page_complete d h = false →
  loading_listener d h fresh_ui
  = (LoadingUi (if loading_screen d then Some "flex" else None)
               (if loading_screen d && loading_progress d then Some "block" else None)
               None false false false false 0, [UUncaught]).
Proof.
  intros H. unfold page_complete in H. unfold loading_listener.
  destruct (loading_screen d); [|done]. destruct (loading_progress d); [|done].
  cbn in H. apply bool_decide_eq_false in H.
  destruct (a_scene h ≫= scene_renderer) as [rd|]; [|done].
  exfalso. apply H. by exists rd.
Qed.

(** X21: on an incomplete page nothing starts.  When [#loading-screen] or
    [#loading-progress] is missing, or the scene has no renderer, the
    [DOMContentLoaded] listener stops at the first statement that needs the
    missing object: [AROptimizer.initialize()] is not called, no camera is
    requested, no text is written, and no later event changes or calls
    anything. *)
Theorem incomplete_page_never_starts d h evs :
  page_complete d h = false →
  page_load d h evs
  = (LoadingUi (if loading_screen d then Some "flex" else None)
               (if loading_screen d && loading_progress d then Some "block" else None)
               None false false false false 0,
     [UUncaught]).
Proof.
  intros H. unfold page_load.
  rewrite (incomplete_page_start d h H), loading_run_idle; [done|]. by repeat split.
Qed.

Lemma incomplete_page_never_starts_witness :
  page_load full_dom no_scene_host [CameraTimer; CameraGranted 1; ArReady]
  = (LoadingUi (Some "flex") (Some "block") None false false false false 0, [UUncaught]).
Proof.
  exact (incomplete_page_never_starts full_dom no_scene_host
           [CameraTimer; CameraGranted 1; ArReady] eq_refl).
Defined.

Lemma call_listeners_flags d n : ∀ u,
  camera_timer (call_listeners n d u).1 = camera_timer u ∧
  camera_request (call_listeners n d u).1 = camera_request u ∧
  initialized (call_listeners n d u).1 = initialized u.
Proof.
  induction n as [|n IH]; intros u; [done|]. cbn [call_listeners].
  unfold arReady_listener.
  destruct (ar_scene d);
    match goal with |- context [call_listeners n d ?x] =>
      specialize (IH x); destruct (call_listeners n d x) end; done.
Qed.

Lemma loading_step_waiting d ev u : waiting_ui u → waiting_ui (loading_step d ev u).1.
Proof.
  intros Hu. pose proof Hu as [H1 H2]. destruct ev as [|n| |]; cbn [loading_step].
  - destruct (camera_timer u) eqn:Ht; [|exact Hu].
    destruct (H2 (or_introl eq_refl)) as (Hn & Hs & Hc). specialize (H1 eq_refl).
    unfold camera_callback. destruct (media_devices d); split; ui_simpl; done.
  - destruct (camera_request u) eqn:Hr; [|exact Hu].
    destruct (camera_timer u) eqn:Ht; [by specialize (H1 eq_refl)|].
    split; ui_simpl; [done|]. rewrite Ht. by intros [|].
  - destruct (camera_request u) eqn:Hr; [|exact Hu].
    destruct (camera_timer u) eqn:Ht; [by specialize (H1 eq_refl)|].
    split; ui_simpl; [done|]. rewrite Ht. by intros [|].
  - destruct (camera_timer u) eqn:Ht; [|destruct (camera_request u) eqn:Hr].
    + destruct (H2 (or_introl eq_refl)) as (Hn & _). rewrite Hn. exact Hu.
    + destruct (H2 (or_intror eq_refl)) as (Hn & _). rewrite Hn. exact Hu.
    + destruct (call_listeners_flags d (arReady_listeners u) u) as (Kt & Kr & _).
      split; [by rewrite Kt, Ht|]. rewrite Kt, Kr, Ht, Hr. by intros [|].
Qed.

Lemma loading_run_waiting d evs : ∀ u, waiting_ui u → waiting_ui (loading_run d evs u).1.
Proof.
  induction evs as [|ev evs IH]; intros u Hu; [done|]. cbn [loading_run].
  pose proof (loading_step_waiting d ev u Hu) as H1.
  destruct (loading_step d ev u) as [u1 c1]. specialize (IH u1 H1).
  by destruct (loading_run d evs u1) as [u2 c2].
Qed.

Lemma loading_listener_waiting d h : waiting_ui (loading_listener d h fresh_ui).1.
Proof.
  unfold loading_listener.
  destruct (loading_screen d); [|split; [done|by intros [|]]].
  destruct (loading_progress d); [|split; [done|by intros [|]]].
  destruct (a_scene h ≫= scene_renderer); cbn; split; try done; by intros [|].
Qed.

Lemma page_load_app d h evs1 evs2 :
  page_load d h (evs1 ++ evs2)
  = let '(u1, c1) := page_load d h evs1 in
    let '(u2, c2) := loading_run d evs2 u1 in (u2, c1 ++ c2).
Proof.
  unfold page_load. destruct (loading_listener d h fresh_ui) as [u0 c0].
  rewrite loading_run_app. destruct (loading_run d evs1 u0) as [u1 c1].
  destruct (loading_run d evs2 u1) as [u2 c2]. by rewrite app_assoc.
Qed.

Lemma page_load_waiting d h evs : waiting_ui (page_load d h evs).1.
Proof.
  unfold page_load. pose proof (loading_listener_waiting d h) as H.
  destruct (loading_listener d h fresh_ui) as [u0 c0]. cbn [fst] in H.
  apply (loading_run_waiting d evs) in H. by destruct (loading_run d evs u0).
Qed.

(** X22: a refused camera leaves the loading screen up for good.  When the
    [getUserMedia] promise rejects, the text becomes the refusal message, no
    [arReady] listener is ever added, and whatever follows (an [arReady]
    event included) the loading screen stays displayed with that message. *)
Theorem refused_camera_keeps_loading_screen d h pre post :
  camera_request (page_load d h pre).1 = true →
  let u := (page_load d h (pre ++ CameraDenied :: post)).1 in
  screen_display u = Some "flex" ∧ progress_text u = Some camera_denied ∧
  ready_class u = false ∧ arReady_listeners u = 0%nat.
Proof.
  intros Hr u. unfold u. rewrite page_load_app.
  pose proof (page_load_waiting d h pre) as [H1 H2].
  destruct (page_load d h pre) as [u1 c1]. cbn [fst] in *.
  destruct (H2 (or_intror Hr)) as (Hn & Hs & Hc).
  assert (Ht : camera_timer u1 = false).
  { destruct (camera_timer u1); [|done]. specialize (H1 eq_refl). congruence. }
  cbn [loading_run loading_step]. rewrite Hr. cbn.
  rewrite loading_run_idle by (by repeat split). done.
Qed.

Lemma refused_camera_keeps_loading_screen_witness :
  let u := (page_load full_dom healthy_host
              ([ArReady; CameraTimer] ++ CameraDenied :: [ArReady; CameraGranted 1; ArReady])).1 in
  screen_display u = Some "flex" ∧ progress_text u = Some camera_denied ∧
  ready_class u = false ∧ arReady_listeners u = 0%nat.
Proof.
  exact (refused_camera_keeps_loading_screen full_dom healthy_host [ArReady; CameraTimer]
           [ArReady; CameraGranted 1; ArReady] eq_refl).
Defined.

Lemma loading_step_unheard d ev u :
  is_grant ev = false → unheard_ui u → unheard_ui (loading_step d ev u).1.
Proof.
  intros Hev (Hn & Hs & Hc). destruct ev as [|n| |]; [|done| |]; cbn [loading_step].
  - destruct (camera_timer u); [|done]. unfold camera_callback.
    by destruct (media_devices d).
  - by destruct (camera_request u).
  - by rewrite Hn.
Qed.

Lemma loading_step_shown d ev u :
  is_arReady ev = false → shown_ui u → shown_ui (loading_step d ev u).1.
Proof.
  intros Hev (Hs & Hc). destruct ev as [|n| |]; [| | |done]; cbn [loading_step].
  - destruct (camera_timer u); [|done]. unfold camera_callback.
    by destruct (media_devices d).
  - by destruct (camera_request u).
  - by destruct (camera_request u).
Qed.

Lemma loading_run_unheard d evs : ∀ u,
  Forall (λ ev, is_grant ev = false) evs → unheard_ui u → unheard_ui (loading_run d evs u).1.
Proof.
  induction evs as [|ev evs IH]; intros u Hevs Hu; [done|].
  apply Forall_cons in Hevs as [Hev Hevs]. cbn [loading_run].
  pose proof (loading_step_unheard d ev u Hev Hu) as H1.
  destruct (loading_step d ev u) as [u1 c1]. specialize (IH u1 Hevs H1).
  by destruct (loading_run d evs u1).
Qed.

Lemma loading_run_shown d evs : ∀ u,
  Forall (λ ev, is_arReady ev = false) evs → shown_ui u → shown_ui (loading_run d evs u).1.
Proof.
  induction evs as [|ev evs IH]; intros u Hevs Hu; [done|].
  apply Forall_cons in Hevs as [Hev Hevs]. cbn [loading_run].
  pose proof (loading_step_shown d ev u Hev Hu) as H1.
  destruct (loading_step d ev u) as [u1 c1]. specialize (IH u1 Hevs H1).
  by destruct (loading_run d evs u1).
Qed.

(** X23: the loading screen goes away only for an [arReady] event that
    comes after the camera was granted.  If no [arReady] event follows the
    grant (the events before the grant may hold any number of them: nothing
    listens yet, so they are missed), the loading screen is still displayed
    and [#ar-scene] is not marked ready. *)
Theorem arReady_before_grant_is_missed d h pre post :
  Forall (λ ev, is_grant ev = false) pre →
  Forall (λ ev, is_arReady ev = false) post →
  let u := (page_load d h (pre ++ post)).1 in
  screen_display u ≠ Some "none" ∧ ready_class u = false.
Proof.
  intros Hpre Hpost u. unfold u. rewrite page_load_app.
  assert (H0 : unheard_ui (loading_listener d h fresh_ui).1).
  { unfold loading_listener. destruct (loading_screen d); [|done].
    destruct (loading_progress d); [|done].
    by destruct (a_scene h ≫= scene_renderer). }
  assert (H1 : unheard_ui (page_load d h pre).1).
  { unfold page_load. destruct (loading_listener d h fresh_ui) as [u0 c0]. cbn [fst] in H0.
    apply (loading_run_unheard d pre) in H0; [|done].
    by destruct (loading_run d pre u0). }
  destruct (page_load d h pre) as [u1 c1]. cbn [fst] in H1.
  assert (H2 : shown_ui u1) by (destruct H1 as (_ & ? & ?); by split).
  apply (loading_run_shown d post) in H2; [|done].
  by destruct (loading_run d post u1).
Qed.

Lemma arReady_before_grant_is_missed_witness :
  let u := (page_load full_dom healthy_host
              ([ArReady; CameraTimer; ArReady] ++ [CameraGranted 2; CameraTimer])).1 in
  screen_display u ≠ Some "none" ∧ ready_class u = false.
Proof.
  apply (arReady_before_grant_is_missed full_dom healthy_host [ArReady; CameraTimer; ArReady]
           [CameraGranted 2; CameraTimer]).
  - repeat constructor.
  - repeat constructor.
Defined.

Lemma loading_run_ready d evs :
  ar_scene d = true → loading_run d evs ready_ui = (ready_ui, []).
Proof.
  intros Ha. induction evs as [|ev evs IH]; [done|]. cbn [loading_run].
  assert (Hs : loading_step d ev ready_ui = (ready_ui, [])).
  { destruct ev; cbn; unfold arReady_listener; rewrite ?Ha; reflexivity. }
  by rewrite Hs, IH.
Qed.

(** X24: the way the loading screen goes away.  On a complete page with
    [#ar-scene] and [navigator.mediaDevices], once the timeout has run, the
    camera has been granted and an [arReady] event has come, in that order
    (with any number of missed [arReady] events before the grant), both
    loading elements have [display: none] and [#ar-scene] has the class
    [ready]; every track of the stream was stopped, once, in order; and no
    later event changes this or calls anything. *)
Theorem granted_then_arReady_hides d h missed1 missed2 tracks post :
  page_complete d h = true → ar_scene d = true → media_devices d = true →
  page_load d h (replicate missed1 ArReady ++
                 [CameraTimer] ++ replicate missed2 ArReady ++
                 [CameraGranted tracks; ArReady] ++ post)
  = (ready_ui, UGetUserMedia :: (UTrackStop <$> seq 0 tracks)).
Proof.
  intros Hc Ha Hm. unfold page_load. rewrite (loading_listener_complete d h Hc).
  set (u0 := LoadingUi (Some "flex") (Some "block") None false true true false 0).
  assert (Hmiss : ∀ n u, arReady_listeners u = 0%nat →
            loading_run d (replicate n ArReady) u = (u, [])).
  { induction n as [|n IH]; intros u Hn; [done|].
    cbn [replicate loading_run loading_step]. rewrite Hn. cbn [call_listeners].
    by rewrite IH. }
  rewrite loading_run_app, (Hmiss missed1 u0 eq_refl).
  rewrite loading_run_app. cbn [loading_run loading_step]. cbn [camera_timer u0].
  unfold camera_callback. rewrite Hm.
  rewrite loading_run_app, Hmiss by done.
  rewrite loading_run_app. cbn. unfold arReady_listener. cbn. rewrite Ha.
  change (add_ready_class _) with ready_ui.
  rewrite (loading_run_ready d post Ha). by rewrite !app_nil_r.
Qed.

Lemma granted_then_arReady_hides_witness :
  page_load full_dom healthy_host
    (replicate 2 ArReady ++ [CameraTimer] ++ replicate 1 ArReady ++
     [CameraGranted 2; ArReady] ++ [CameraDenied; ArReady; CameraTimer])
  = (ready_ui, UGetUserMedia :: (UTrackStop <$> seq 0 2)).
Proof.
  exact (granted_then_arReady_hides full_dom healthy_host 2 1 2
           [CameraDenied; ArReady; CameraTimer] eq_refl eq_refl eq_refl).
Defined.

Lemma loading_step_offline d ev u :
  media_devices d = false → offline_ui u →
  offline_ui (loading_step d ev u).1 ∧ UGetUserMedia ∉ (loading_step d ev u).2.
Proof.
  intros Hm Hu. pose proof Hu as (Hr & Hn & Hs & Ht & Hi).
  destruct ev as [|n| |]; cbn [loading_step]; rewrite ?Hr, ?Hn; cbn [call_listeners fst snd];
    try (split; [exact Hu|by apply not_elem_of_nil]).
  destruct (camera_timer u) eqn:Et; [|split; [exact Hu|by apply not_elem_of_nil]].
  unfold camera_callback. rewrite Hm. split.
  - unfold offline_ui. ui_simpl. repeat split; done.
  - cbn. intros H. apply list_elem_of_singleton in H. discriminate.
Qed.

Lemma loading_step_flags d ev u :
  initialized (loading_step d ev u).1 = initialized u ∧
  (camera_timer u = false → camera_timer (loading_step d ev u).1 = false).
Proof.
  destruct ev as [|n| |]; cbn [loading_step].
  - destruct (camera_timer u) eqn:Et; [|done]. unfold camera_callback.
    by destruct (media_devices d).
  - by destruct (camera_request u).
  - by destruct (camera_request u).
  - destruct (call_listeners_flags d (arReady_listeners u) u) as (Kt & _ & Ki).
    split; [done|]. by rewrite Kt.
Qed.

Lemma loading_run_flags d evs : ∀ u,
  initialized (loading_run d evs u).1 = initialized u ∧
  (camera_timer u = false → camera_timer (loading_run d evs u).1 = false).
Proof.
  induction evs as [|ev evs IH]; intros u; [done|]. cbn [loading_run].
  destruct (loading_step_flags d ev u) as [H1 H2].
  destruct (loading_step d ev u) as [u1 c1]. destruct (IH u1) as [I1 I2].
  destruct (loading_run d evs u1) as [u2 c2]. cbn [fst] in *.
  split; [congruence|auto].
Qed.

(** X25: without [navigator.mediaDevices] the camera is never asked for.
    The callback of the timeout writes the starting text and then throws,
    so [getUserMedia] is never called, the
    refusal message is never shown, the loading screen is never hidden, and
    on a complete page the text stays at the starting text once the timeout
    has run. *)
Theorem no_media_devices_never_asks d h evs :
  media_devices d = false →
  let '(u, c) := page_load d h evs in
  (UGetUserMedia ∉ c) ∧ screen_display u ≠ Some "none" ∧
  progress_text u ≠ Some camera_denied ∧
  (page_complete d h = true → CameraTimer ∈ evs → progress_text u = Some camera_starting).
Proof.
  intros Hm.
  assert (Hrun : ∀ evs u, offline_ui u →
            offline_ui (loading_run d evs u).1 ∧ (UGetUserMedia ∉ (loading_run d evs u).2) ∧
            (CameraTimer ∈ evs → camera_timer (loading_run d evs u).1 = false)).
  { clear evs. induction evs as [|ev evs IH]; intros u Hu.
    - split; [done|]. split; [apply not_elem_of_nil|]. intros H. by apply elem_of_nil in H.
    - cbn [loading_run].
      destruct (loading_step_offline d ev u Hm Hu) as [H1 H2].
      assert (Hfire : ev = CameraTimer → camera_timer (loading_step d ev u).1 = false).
      { intros ->. cbn [loading_step]. destruct (camera_timer u) eqn:Et; [|done].
        unfold camera_callback. by rewrite Hm. }
      destruct (loading_step d ev u) as [u1 c1]. cbn [fst snd] in *.
      destruct (IH u1 H1) as (I1 & I2 & I3).
      destruct (loading_run_flags d evs u1) as [_ Hoff].
      destruct (loading_run d evs u1) as [u2 c2]. cbn [fst snd] in *.
      split; [done|]. split.
      + intros H. apply elem_of_app in H as [H|H]; tauto.
      + intros H. apply elem_of_cons in H as [H|H]; [|by apply I3].
        apply Hoff, Hfire. done. }
  assert (H0 : offline_ui (loading_listener d h fresh_ui).1 ∧
               (UGetUserMedia ∉ (loading_listener d h fresh_ui).2) ∧
               (page_complete d h = true → initialized (loading_listener d h fresh_ui).1 = true)).
  { destruct (page_complete d h) eqn:Hc.
    - rewrite (loading_listener_complete d h Hc). cbn [fst snd].
      split; [unfold offline_ui; cbn; by repeat split|].
      split; [apply not_elem_of_nil|done].
    - pose proof (incomplete_page_start d h Hc) as ->. cbn [fst snd].
      split; [unfold offline_ui; cbn; repeat split; try done; by destruct (loading_screen d)|].
      split; [|done]. intros H. apply list_elem_of_singleton in H. discriminate. }
  unfold page_load. destruct H0 as (H1 & H2 & H3).
  destruct (loading_run_flags d evs (loading_listener d h fresh_ui).1) as [Hinit _].
  destruct (loading_listener d h fresh_ui) as [u0 c0]. cbn [fst snd] in *.
  destruct (Hrun evs u0 H1) as ((Jr & Jn & Js & Jt & Ji) & J2 & J3).
  destruct (loading_run d evs u0) as [u1 c1]. cbn [fst snd] in *.
  split; [|split; [done|split; [done|]]].
  - intros H. apply elem_of_app in H as [H|H]; tauto.
  - intros Hc Hin. apply Ji; [by apply J3|]. rewrite Hinit. by apply H3.
Qed.

Lemma no_media_devices_never_asks_witness :
  let '(u, c) := page_load (PageDom true true true false) healthy_host
                   [CameraTimer; ArReady; CameraGranted 1] in
  (UGetUserMedia ∉ c) ∧ screen_display u ≠ Some "none" ∧
  progress_text u ≠ Some camera_denied ∧
  (page_complete (PageDom true true true false) healthy_host = true →
   CameraTimer ∈ [CameraTimer; ArReady; CameraGranted 1] →
   progress_text u = Some camera_starting).
Proof.
  exact (no_media_devices_never_asks (PageDom true true true false) healthy_host
           [CameraTimer; ArReady; CameraGranted 1] eq_refl).
Defined.

(** The two models of the [DOMContentLoaded] listener agree on when
    [AROptimizer.initialize()] is reached. *)
Lemma initialized_iff_armed d h :
  loading_screen d = loadingScreen h → loading_progress d = loadingProgress h →
  initialized (loading_listener d h fresh_ui).1 = armed h LightCleanupCb ∧
  (domContentLoaded h = if page_complete d h then initialize h else []).
Proof.
  intros Hs Hp. unfold loading_listener, page_complete, armed, page, domContentLoaded.
  rewrite Hs, Hp.
  destruct (loadingScreen h), (loadingProgress h); cbn; try done.
  destruct (a_scene h ≫= scene_renderer) as [rd|] eqn:E; cbn; done.
Qed.
